(** * pop-tools: regional tracer budgets on the POP grid

    A shallow embedding of the array code of [pop_tools/budget.py] and
    [pop_tools/grid.py], and the properties of it that the specification
    states.

    Modelling conventions.
    - A floating-point number is a rational ([Q]); the missing value NaN that
      [where], [shift] and the arithmetic of xarray propagate is [None].
      Equality of computed numbers is therefore [Qeq], lifted to cells and
      arrays ([cell_eq], [field2_eq]).
    - An array is a nested list in the order of its dimensions: a horizontal
      field is [nlat] rows of [nlon] cells, a three-dimensional field is a
      list of horizontal fields along [z_t].  The arrays of the budget code
      carry no coordinates (they are dropped on load), so xarray aligns them by
      position and raises [ValueError] when the sizes of a shared dimension
      differ.
    - A Python exception is the [Raise] result. *)

From Stdlib Require Import String List ZArith QArith Bool Lia Arith.
From Stdlib Require Import Setoid Morphisms.
Import ListNotations.

Local Open Scope string_scope.
Local Open Scope list_scope.

(** ** Exceptions *)

Inductive exn : Type :=
| ValueError (msg : string)
| IndexError (msg : string).

Inductive result (A : Type) : Type :=
| Ok (a : A)
| Raise (e : exn).

Arguments Ok {A} a.
Arguments Raise {A} e.

Definition bind {A B} (r : result A) (k : A -> result B) : result B :=
  match r with
  | Ok a => k a
  | Raise e => Raise e
  end.

Definition fmap {A B} (f : A -> B) (r : result A) : result B :=
  match r with
  | Ok a => Ok (f a)
  | Raise e => Raise e
  end.

Declare Scope result_scope.
Delimit Scope result_scope with result.
Notation "x <- r ;; k" := (bind r (fun x => k))
  (at level 61, r at next level, right associativity) : result_scope.
Open Scope result_scope.

(** ** xarray and numpy primitives *)

Module Xr.

Abbreviation cell := (option Q) (only parsing).
Abbreviation Array2 A := (list (list A)) (only parsing).
Abbreviation Array3 A := (list (list (list A))) (only parsing).
Abbreviation Field2 := (list (list (option Q))) (only parsing).
Abbreviation Field3 := (list (list (list (option Q)))) (only parsing).
Abbreviation Mask := (list (list bool)) (only parsing).
Abbreviation QArray2 := (list (list Q)) (only parsing).

(** Attributes of a labelled array: the [attrs] dictionary, in insertion
    order. *)
Abbreviation Attrs := (list (string * string)) (only parsing).

Fixpoint attrs_set (k v : string) (a : Attrs) : Attrs :=
  match a with
  | [] => [(k, v)]
  | (k', v') :: a' =>
      if String.eqb k k' then (k, v) :: a' else (k', v') :: attrs_set k v a'
  end.

Fixpoint attrs_get (k : string) (a : Attrs) : option string :=
  match a with
  | [] => None
  | (k', v') :: a' => if String.eqb k k' then Some v' else attrs_get k a'
  end.

Record DataArray (A : Type) : Type := mkDA {
  values : A;
  attrs : Attrs
}.

Arguments mkDA {A} values attrs.
Arguments values {A} d.
Arguments attrs {A} d.

(** *** Cell arithmetic: NaN is absorbing *)

Definition cell_lift2 (f : Q -> Q -> Q) (a b : cell) : cell :=
  match a, b with
  | Some x, Some y => Some (f x y)
  | _, _ => None
  end.

Definition cell_sub : cell -> cell -> cell := cell_lift2 Qminus.
Definition cell_add : cell -> cell -> cell := cell_lift2 Qplus.
Definition cell_mul : cell -> cell -> cell := cell_lift2 Qmult.
Definition cell_neg (a : cell) : cell := option_map Qopp a.
Definition cell_scale (c : Q) (a : cell) : cell :=
  option_map (fun x => Qmult x c) a.

(** *** Positional alignment *)

Definition align_msg : string :=
  "arguments without labels cannot be aligned because they have different dimension sizes".

(** Two lists along one dimension combine element by element; different
    sizes raise. *)
Fixpoint align_with {A B C} (f : A -> B -> result C)
         (l1 : list A) (l2 : list B) : result (list C) :=
  match l1, l2 with
  | [], [] => Ok []
  | a :: l1', b :: l2' =>
      c <- f a b ;;
      cs <- align_with f l1' l2' ;;
      Ok (c :: cs)
  | _, _ => Raise (ValueError align_msg)
  end.

Fixpoint mapM {A B} (f : A -> result B) (l : list A) : result (list B) :=
  match l with
  | [] => Ok []
  | a :: l' =>
      b <- f a ;;
      bs <- mapM f l' ;;
      Ok (b :: bs)
  end.

Definition pure2 {A B C} (f : A -> B -> C) (a : A) (b : B) : result C :=
  Ok (f a b).

Definition zip2 {A B C} (f : A -> B -> C)
  : Array2 A -> Array2 B -> result (Array2 C) :=
  align_with (align_with (pure2 f)).

Definition zip3 {A B C} (f : A -> B -> C)
  : Array3 A -> Array3 B -> result (Array3 C) :=
  align_with (zip2 f).

(** [da.where(mask)]: the value where the mask holds, NaN elsewhere.  The
    mask has the horizontal dimensions only and is broadcast along [z_t]. *)
Definition keep (c : cell) (b : bool) : cell := if b then c else None.

Definition where2 (da : Field2) (mask : Mask) : result Field2 :=
  zip2 keep da mask.

Definition where3 (da : Field3) (mask : Mask) : result Field3 :=
  mapM (fun slab => where2 slab mask) da.

Definition sub3 : Field3 -> Field3 -> result Field3 := zip3 cell_sub.
Definition add3 : Field3 -> Field3 -> result Field3 := zip3 cell_add.
Definition mul3 : Field3 -> Field3 -> result Field3 := zip3 cell_mul.

(** A horizontal array times a three-dimensional one: broadcast along
    [z_t]. *)
Definition mul3_2 (da : Field3) (n : Field2) : result Field3 :=
  mapM (fun slab => zip2 cell_mul slab n) da.

Definition neg3 (da : Field3) : Field3 := map (map (map cell_neg)) da.
Definition scale2 (c : Q) (da : Field2) : Field2 := map (map (cell_scale c)) da.
Definition scale3 (c : Q) (da : Field3) : Field3 := map (scale2 c) da.

(** [roll]: the element at position [i] moves to position [(i + shift) mod n]. *)
Definition roll {A} (shift : Z) (l : list A) : list A :=
  let n := Z.of_nat (List.length l) in
  let k := Z.to_nat ((- shift) mod n) in
  skipn k l ++ firstn k l.

Definition roll2_nlat {A} (shift : Z) (a : Array2 A) : Array2 A := roll shift a.
Definition roll2_nlon {A} (shift : Z) (a : Array2 A) : Array2 A :=
  map (roll shift) a.
Definition roll3_nlat {A} (shift : Z) (a : Array3 A) : Array3 A :=
  map (roll2_nlat shift) a.
Definition roll3_nlon {A} (shift : Z) (a : Array3 A) : Array3 A :=
  map (roll2_nlon shift) a.

(** [isel(dim=slice(0, stop))] on the leading dimension; a negative [stop]
    counts from the end. *)
Definition slice0 {A} (stop : Z) (l : list A) : list A :=
  if (stop <? 0)%Z
  then firstn (Z.to_nat (Z.of_nat (List.length l) + stop)) l
  else firstn (Z.to_nat stop) l.

(** [shift] along the leading dimension: the element at position [i] moves
    to [i + s]; what falls off is dropped and the vacated positions hold
    [fill] (NaN). *)
Definition shift {A} (fill : A) (s : Z) (l : list A) : list A :=
  let n := List.length l in
  if (s <? 0)%Z
  then let k := Nat.min (Z.to_nat (- s)) n in skipn k l ++ repeat fill k
  else let k := Nat.min (Z.to_nat s) n in repeat fill k ++ firstn (n - k) l.

Definition nan_like (slab : Field2) : Field2 := map (map (fun _ => @None Q)) slab.

Definition shift_z (s : Z) (da : Field3) : Field3 :=
  shift (nan_like (hd [] da)) s da.

Definition fillna (v : Q) (da : Field3) : Field3 :=
  map (map (map (fun c : cell =>
                   match c with Some x => Some x | None => Some v end))) da.

(** [sum('z_t')] with the default [skipna]: NaN counts as zero, and the sum
    of no layer at all is zero. *)
Definition nan_to_zero (c : cell) : Q :=
  match c with Some x => x | None => 0 end.

Fixpoint map2 {A B C} (f : A -> B -> C) (l1 : list A) (l2 : list B) : list C :=
  match l1, l2 with
  | a :: l1', b :: l2' => f a b :: map2 f l1' l2'
  | _, _ => []
  end.

Definition sum_cells (a : Q) (c : cell) : Q := Qplus a (nan_to_zero c).

(** The layers of one array have one shape, so the running sum is taken
    cell by cell over the shape of the first layer. *)
Definition sum_z (da : Field3) : Field2 :=
  let zeros := map (map (fun _ : cell => 0%Q)) (hd [] da) in
  map (map (@Some Q)) (fold_left (map2 (map2 sum_cells)) da zeros).

End Xr.

(** ** [pop_tools/budget.py] *)

Module Budget.
Import Xr.

Definition NMOLS_TO_MOLYR : Q := (1 # 1000000000) * 86400 * 365.

(** The grid variables that [_process_grid] keeps: cell area, cell volume,
    layer bottom depths [z] (cm) and the region classification. *)
Record Grid : Type := mkGrid {
  grid_area : Field2;
  grid_vol : Field3;
  grid_z : list Q;
  grid_mask : Array2 Z
}.

(** [argmin] of a boolean array ([False < True]): the position of the first
    occurrence of the least element; an empty array raises. *)
Fixpoint argmin_from (best_i : nat) (best : bool) (i : nat) (l : list bool) : nat :=
  match l with
  | [] => best_i
  | b :: l' =>
      if negb b && best
      then argmin_from i b (S i) l'
      else argmin_from best_i best (S i) l'
  end.

Definition argmin (l : list bool) : result nat :=
  match l with
  | [] => Raise (ValueError "attempt to get argmin of an empty sequence")
  | b :: l' => Ok (argmin_from 0 b 1 l')
  end.

(** [_compute_kmax(budget_depth, z)]; Python's [None] is [None]. *)
Definition _compute_kmax (budget_depth : Q) (z : list Q) : result (option Z) :=
  i <- argmin (map (fun zk => Qle_bool zk budget_depth) z) ;;
  let kmax := (Z.of_nat i - 1)%Z in
  Ok (if (kmax =? -1)%Z then None else Some kmax).

(** The normalizer of [_convert_to_tendency] is the cell area (horizontal)
    or the cell volume (with a [z_t] dimension). *)
Inductive Normalizer : Type :=
| Area (a : Field2)
| Vol (v : Field3).

(** [_convert_to_tendency(ds, normalizer, sign=1, kmax=None)].  The product
    is a new array, whose only attribute is the unit set here. *)
Definition _convert_to_tendency (ds : Field3) (normalizer : Normalizer)
           (sign : Z) (kmax : option Z) : result (DataArray Field3) :=
  let normalizer :=
    match kmax, normalizer with
    | Some k, Vol v => Vol (slice0 (k + 1) v)
    | _, _ => normalizer
    end in
  prod <- match normalizer with
          | Area a => mul3_2 ds a
          | Vol v => mul3 ds v
          end ;;
  Ok (mkDA (scale3 (inject_Z sign) prod) [("units", "nmol/s")]).

(** [_convert_units(ds)]: the in-place product keeps the attributes. *)
Definition _convert_units (ds : DataArray Field2) : DataArray Field2 :=
  mkDA (scale2 NMOLS_TO_MOLYR (values ds))
       (attrs_set "units" "mol/yr" (attrs ds)).

Definition direction_msg : string :=
  "Please input either 'zonal' or 'meridional' for direction.".

(** [_compute_horizontal_divergence(da, mask, direction=None)] *)
Definition _compute_horizontal_divergence (da : Field3) (mask : Mask)
           (direction : option string) : result Field3 :=
  match direction with
  | Some d =>
      if String.eqb d "zonal" then
        let mask_roll := roll2_nlon (-1) mask in
        a <- where3 da mask_roll ;;
        b <- where3 da mask ;;
        sub3 (roll3_nlon 1 a) b
      else if String.eqb d "meridional" then
        let mask_roll := roll2_nlat (-1) mask in
        a <- where3 da mask_roll ;;
        b <- where3 da mask ;;
        sub3 (roll3_nlon 1 a) b
      else Raise (ValueError direction_msg)
  | None => Raise (ValueError direction_msg)
  end.

(** [diff('z_t')] inside one array: each layer minus the one before it. *)
Definition diff_z (da : Field3) : Field3 :=
  map2 (map2 (map2 cell_sub)) (tl da) da.

(** [_compute_vertical_divergence(da)] *)
Definition _compute_vertical_divergence (da : Field3) : Field3 :=
  let ny := List.length (hd [] da) in
  let nx := List.length (hd [] (hd [] da)) in
  let zero_cap : Field2 := repeat (repeat (Some 0) nx) ny in
  let vdiv := zero_cap :: da in
  diff_z vdiv.

(** [_compute_lateral_advection], from the loaded fields [UE] and [VN]
    on. *)
Definition _compute_lateral_advection (UE VN vol : Field3) (mask : Mask)
           (kmax : option Z) : result (DataArray Field2) :=
  let UE := match kmax with
            | Some k => slice0 (k + 1) UE
            | None => UE
            end in
  let VN := match kmax with
            | Some k => slice0 (k + 1) VN
            | None => VN
            end in
  UE <- _convert_to_tendency UE (Vol vol) 1 kmax ;;
  VN <- _convert_to_tendency VN (Vol vol) 1 kmax ;;
  ladv_zonal <- _compute_horizontal_divergence (values UE) mask (Some "zonal") ;;
  ladv_merid <- _compute_horizontal_divergence (values VN) mask (Some "meridional") ;;
  ladv <- add3 ladv_zonal ladv_merid ;;
  let ladv := mkDA (sum_z ladv) [] in
  let ladv := _convert_units ladv in
  Ok (mkDA (values ladv) (attrs_set "long_name" "lateral advection" (attrs ladv))).

(** [_compute_vertical_advection], from the loaded field [WT] on: [WT] is
    what [_load_tracer_terms] returns for ['WT'], [vol] is [grid.vol]. *)
Definition _compute_vertical_advection (WT vol : Field3) (mask : Mask)
           (kmax : option Z) : result (DataArray Field2) :=
  let ds := match kmax with
            | Some k => slice0 (k + 2) WT
            | None => WT
            end in
  ds <- where3 ds mask ;;
  ds <- match kmax with
        | Some k => _convert_to_tendency ds (Vol vol) 1 (Some (k + 1)%Z)
        | None => _convert_to_tendency ds (Vol vol) 1 None
        end ;;
  let wt := values ds in
  vadv <- sub3 (fillna 0 (shift_z (-1) wt)) wt ;;
  let vadv := slice0 (-1) vadv in
  let vadv := mkDA (sum_z vadv) [] in
  let vadv := _convert_units vadv in
  Ok (mkDA (values vadv) (attrs_set "long_name" "vertical advection" (attrs vadv))).

Definition mask_int_msg : string :=
  "Please supply an integer for your mask via the `mask_int` keyword.".

(** [regional_tracer_budget], up to the terms: the region mask and the depth
    limit that every term is then computed with. *)
Definition regional_tracer_budget_setup (grid : Grid)
           (mask : option (Array2 Z)) (mask_int : option Z)
           (budget_depth : option Q) : result (Mask * option Z) :=
  let mask := match mask with
              | None => grid.(grid_mask)
              | Some m => m
              end in
  match mask_int with
  | None => Raise (ValueError mask_int_msg)
  | Some mask_int =>
      let mask := map (map (fun v => Z.eqb v mask_int)) mask in
      kmax <- match budget_depth with
              | Some budget_depth => _compute_kmax (budget_depth * 100) grid.(grid_z)
              | None => Ok None
              end ;;
      Ok (mask, kmax)
  end.

End Budget.

(** ** [pop_tools/grid.py] *)

Module Grid.
Import Xr.

Definition index_msg : string := "index is out of bounds".

(** [l[i]] for an integer [i]: a negative index counts from the end, an
    index outside the array raises [IndexError]. *)
Definition item {A} (l : list A) (i : Z) : result A :=
  let n := Z.of_nat (List.length l) in
  let i' := if (i <? 0)%Z then (i + n)%Z else i in
  if ((0 <=? i') && (i' <? n))%Z
  then match nth_error l (Z.to_nat i') with
       | Some x => Ok x
       | None => Raise (IndexError index_msg)
       end
  else Raise (IndexError index_msg).

(** [a[i, :]] and [a[:, j]] *)
Definition row {A} (a : Array2 A) (i : Z) : result (list A) := item a i.
Definition col {A} (a : Array2 A) (j : Z) : result (list A) :=
  mapM (fun r => item r j) a.

(** [0.5 * (x + y)], element by element *)
Definition half_sum (x y : Q) : Q := (1 # 2) * (x + y).
Definition half_sum1 : list Q -> list Q -> result (list Q) :=
  align_with (pure2 half_sum).
Definition half_sum2 : QArray2 -> QArray2 -> result QArray2 :=
  zip2 half_sum.

(** The four width arrays of [get_grid].  [HTN] and [HTE] have been
    reshaped to [(nlat, nlon)]; each result is assembled from the two
    slice assignments of the source, in their order. *)
Definition DXT (nlat : Z) (HTN : QArray2) : result QArray2 :=
  rest <- half_sum2 (slice0 (nlat - 1) HTN) (skipn 1 HTN) ;;
  r0 <- row HTN 0 ;;
  rl <- row HTN (nlat - 1) ;;
  first <- half_sum1 r0 rl ;;
  Ok (first :: rest).

Definition DYT (nlon : Z) (HTE : QArray2) : result QArray2 :=
  rest <- half_sum2 (map (slice0 (nlon - 1)) HTE) (map (skipn 1) HTE) ;;
  cl <- col HTE (nlon - 1) ;;
  c0 <- col HTE 0 ;;
  first <- half_sum1 cl c0 ;;
  align_with (pure2 cons) first rest.

Definition DXU (nlon : Z) (HTN : QArray2) : result QArray2 :=
  rest <- half_sum2 (map (slice0 (nlon - 1)) HTN) (map (skipn 1) HTN) ;;
  cl <- col HTN (nlon - 1) ;;
  c0 <- col HTN 0 ;;
  last <- half_sum1 cl c0 ;;
  align_with (pure2 (fun r x => r ++ [x])) rest last.

Definition DYU (nlat : Z) (HTE : QArray2) : result QArray2 :=
  rest <- half_sum2 (slice0 (nlat - 1) HTE) (skipn 1 HTE) ;;
  rl <- row HTE (nlat - 1) ;;
  r0 <- row HTE 0 ;;
  last <- half_sum1 rl r0 ;;
  Ok (rest ++ [last]).

(** [KMT[i, j]] in compiled code: a negative index wraps around once and
    bounds are not checked; every index that [_generate_KMU] forms is in
    range after the wrap. *)
Definition wrap (n : nat) (i : Z) : nat :=
  Z.to_nat (if (i <? 0)%Z then (i + Z.of_nat n)%Z else i).

Definition getitem2 (a : Array2 Z) (i j : Z) : Z :=
  let r := nth (wrap (List.length a) i) a [] in
  nth (wrap (List.length r) j) r 0%Z.

Definition min4 (a b c d : Z) : Z := Z.min (Z.min (Z.min a b) c) d.

(** [_generate_KMU(KMT)] *)
Definition _generate_KMU (KMT : Array2 Z) : Array2 Z :=
  let n0 := List.length KMT in
  let n1 := List.length (hd [] KMT) in
  map (fun i : nat =>
         map (fun j : nat =>
                let i := Z.of_nat i in
                let j := Z.of_nat j in
                min4 (getitem2 KMT i j) (getitem2 KMT (i - 1) j)
                     (getitem2 KMT i (j - 1)) (getitem2 KMT (i - 1) (j - 1)))
             (seq 0 n1))
      (seq 0 n0).

End Grid.

(** ** The specification's wording, as definitions *)

Module Spec.
Import Xr.

(** Equality of floating-point results: [Qeq] on numbers, NaN with NaN. *)
Definition cell_eq (a b : cell) : Prop :=
  match a, b with
  | Some x, Some y => x == y
  | None, None => True
  | _, _ => False
  end.

Definition field2_eq : Field2 -> Field2 -> Prop := Forall2 (Forall2 cell_eq).

(** An array of [n0] rows of [n1] elements. *)
Definition shape2 {A} (n0 n1 : nat) (a : Array2 A) : Prop :=
  List.length a = n0 /\ Forall (fun r => List.length r = n1) a.

Definition shape3 {A} (nz ny nx : nat) (a : Array3 A) : Prop :=
  List.length a = nz /\ Forall (shape2 ny nx) a.

(** Dividing every cell by the unit-conversion constant. *)
Definition per_molyr (da : Field2) : Field2 :=
  map (map (option_map (fun x => x / Budget.NMOLS_TO_MOLYR))) da.

(** The average of two widths. *)
Definition average (x y : Q) : Q := (x + y) / 2.

(** Reading one element; the defaults are never reached inside the shape. *)
Definition at2 {A} (d : A) (a : Array2 A) (i j : nat) : A :=
  nth j (nth i a []) d.

Definition at3 {A} (d : A) (a : Array3 A) (k i j : nat) : A :=
  at2 d (nth k a []) i j.

(** The neighbours one position back and one position on, on a periodic
    axis of [n] positions. *)
Definition prev_wrap (n i : nat) : nat :=
  match i with
  | O => n - 1
  | S i' => i'
  end.

Definition next_wrap (n i : nat) : nat :=
  if Nat.eqb (S i) n then O else S i.

(** The cell above the cell [(k, i, j)]: zero above the shallowest layer. *)
Definition cell_above (da : Field3) (k i j : nat) : cell :=
  match k with
  | O => Some 0
  | S k' => at3 None da k' i j
  end.

(** The meridional divergence as the latitudinal analogue of the zonal
    case: the mask rolled one row in the negative direction, applied, the
    result rolled one row back, minus the field masked directly. *)
Definition meridional_divergence (da : Field3) (mask : Mask) : result Field3 :=
  let mask_roll := roll2_nlat (-1) mask in
  a <- where3 da mask_roll ;;
  b <- where3 da mask ;;
  sub3 (roll3_nlat 1 a) b.

(** The first layer whose bottom depth exceeds the request. *)
Fixpoint first_exceeding (d : Q) (z : list Q) : option nat :=
  match z with
  | [] => None
  | zk :: z' =>
      if Qlt_le_dec d zk then Some O else option_map S (first_exceeding d z')
  end.

(** Stepping back one layer; nothing to step back to is the full-depth
    sentinel. *)
Definition step_back (first : option nat) : option Z :=
  match first with
  | Some (S k) => Some (Z.of_nat k)
  | _ => None
  end.

(** Each layer bottom is deeper than the one before it. *)
Fixpoint strictly_increasing (z : list Q) : Prop :=
  match z with
  | [] => True
  | zk :: z' =>
      match z' with
      | [] => True
      | zk' :: _ => zk < zk'
      end /\ strictly_increasing z'
  end.



End Spec.

(** ** Parts of the computed arrays that the proofs name *)

Module Parts.
Import Xr Spec.

(** The layer above layer [k]: the zero cap above the shallowest layer. *)
Definition layer_above (da : Field3) (k : nat) : Field2 :=
  match k with
  | O => repeat (repeat (Some 0) (List.length (hd [] (hd [] da))))
                (List.length (hd [] da))
  | S k' => nth k' da []
  end.

(** The averaged pairs of adjacent rows, and of adjacent columns. *)
Definition lat_pairs (a : QArray2) (nlat : nat) : QArray2 :=
  map2 (map2 Grid.half_sum) (firstn (nlat - 1) a) (skipn 1 a).

Definition lon_pairs (a : QArray2) (nlon : nat) : QArray2 :=
  map2 (map2 Grid.half_sum) (map (firstn (nlon - 1)) a) (map (skipn 1) a).

End Parts.

(** ** Small grids and fields, for the worked cases *)

Module Examples.
Import Xr Budget.

Definition flux_2x2 : Field3 := [[[Some 1; Some 2]; [Some 3; Some 4]]].

Definition mask_2x2 : Mask := [[true; false]; [false; false]].

Definition flux_3x1x2 : Field3 :=
  [[[Some 1; Some 2]]; [[Some 3; Some 4]]; [[Some 5; Some 6]]].

Definition z_three_layers : list Q := [10; 20; 30].

Definition grid_three_layers : Grid :=
  mkGrid [[Some 1; Some 1]]
         [[[Some 10; Some 10]]; [[Some 10; Some 10]]; [[Some 10; Some 10]]]
         z_three_layers
         [[1; 2]]%Z.

Definition vol_3x1x2 : Field3 :=
  [[[Some 1; Some 1]]; [[Some 1; Some 1]]; [[Some 1; Some 1]]].

Definition mask_1x2 : Mask := [[true; false]].

Definition htn_2x3 : QArray2 := [[1; 2; 3]; [4; 5; 6]].

Definition hte_2x3 : QArray2 := [[7; 8; 9]; [10; 11; 12]].

Definition kmt_2x3 : Array2 Z := [[1; 2; 3]; [4; 5; 6]]%Z.

End Examples.

(** ** More of [pop_tools/budget.py] *)

Module Terms.
Import Xr Budget.

(** The variable names of [_load_tracer_terms]: the budget term and the
    model variable it is read from, for a tracer. *)
Definition model_vars (tracer : string) : Attrs :=
  [ ("UE", "UE_" ++ tracer);
    ("VN", "VN_" ++ tracer);
    ("WT", "WT_" ++ tracer);
    ("HDIFE", "HDIFE_" ++ tracer);
    ("HDIFN", "HDIFN_" ++ tracer);
    ("HDIFB", "HDIFB_" ++ tracer);
    ("DIA_IMPVF", "DIA_IMPVF_" ++ tracer);
    ("KPP_SRC", "KPP_SRC_" ++ tracer);
    ("FvICE", "FvICE_" ++ tracer);
    ("FvPER", "FvPER_" ++ tracer);
    ("STF", "FG_CO2");
    ("SMS", "J_" ++ tracer) ]%string.

Definition is_key (d : Attrs) (k : string) : bool :=
  match attrs_get k d with
  | Some _ => true
  | None => false
  end.

(** How the name check of [_load_tracer_terms] ends: [set(None)] is a
    [TypeError]; a name that is no budget term is the [ValueError] whose
    message lists the mismatched names and the known ones; otherwise the
    dictionary [loadVars], in insertion order. *)
Inductive names_outcome : Type :=
| NamesTypeError
| NamesValueError (mismatched_var known : list string)
| LoadVars (loadVars : Attrs).

(** [dict((k, model_vars[k]) for k in var_list)]: a key met again keeps its
    place. *)
Definition loadVars_of (mv : Attrs) (var_list : list string) : Attrs :=
  fold_left (fun d k =>
               match attrs_get k mv with
               | Some v => attrs_set k v d
               | None => d
               end) var_list [].

(** [_load_tracer_terms], up to the files: the names that are opened. *)
Definition _load_tracer_terms_names (tracer : string)
           (var_list : option (list string)) : names_outcome :=
  let model_vars := model_vars tracer in
  match var_list with
  | None => NamesTypeError
  | Some var_list =>
      if forallb (is_key model_vars) var_list
      then LoadVars (loadVars_of model_vars var_list)
      else NamesValueError
             (filter (fun v => negb (is_key model_vars v)) var_list)
             (map fst model_vars)
  end.

(** [_process_grid], from the variables of [get_grid] it reads: the volume
    is the area times the layer thickness, broadcast over the layers. *)
Definition _process_grid (dz : list Q) (TAREA : QArray2) (z_w_bot : list Q)
           (REGION_MASK : Array2 Z) : Grid :=
  let area : Field2 := map (map (@Some Q)) TAREA in
  let vol : Field3 :=
    map (fun d => map (map (fun a => Some (a * d))) TAREA) dz in
  mkGrid area vol z_w_bot REGION_MASK.

(** [ds.isel(z_t=slice(0, kmax + 1))] when a depth limit is set. *)
Definition truncate (kmax : option Z) (da : Field3) : Field3 :=
  match kmax with
  | Some k => slice0 (k + 1) da
  | None => da
  end.

(** [_compute_lateral_mixing], from the loaded fields on. *)
Definition _compute_lateral_mixing (HDIFN HDIFE HDIFB vol : Field3)
           (mask : Mask) (kmax : option Z) : result (DataArray Field2) :=
  let HDIFN := truncate kmax HDIFN in
  let HDIFE := truncate kmax HDIFE in
  let HDIFB := truncate kmax HDIFB in
  HDIFN <- _convert_to_tendency HDIFN (Vol vol) (-1) kmax ;;
  HDIFE <- _convert_to_tendency HDIFE (Vol vol) (-1) kmax ;;
  HDIFB <- _convert_to_tendency HDIFB (Vol vol) (-1) kmax ;;
  lmix_zonal <- _compute_horizontal_divergence (values HDIFE) mask (Some "zonal") ;;
  lmix_merid <- _compute_horizontal_divergence (values HDIFN) mask (Some "meridional") ;;
  lmix_B <- where3 (values HDIFB) mask ;;
  let lmix_B := _compute_vertical_divergence lmix_B in
  lmix <- add3 lmix_merid lmix_zonal ;;
  lmix <- add3 lmix lmix_B ;;
  let lmix := mkDA (sum_z lmix) [] in
  let lmix := _convert_units lmix in
  Ok (mkDA (values lmix) (attrs_set "long_name" "lateral mixing" (attrs lmix))).

(** [_compute_vertical_mixing], from the loaded fields on; [area] is
    [grid.area]. *)
Definition _compute_vertical_mixing (DIA_IMPVF KPP_SRC : Field3)
           (area : Field2) (vol : Field3)
           (mask : Mask) (kmax : option Z) : result (DataArray Field2) :=
  let DIA_IMPVF := truncate kmax DIA_IMPVF in
  let KPP_SRC := truncate kmax KPP_SRC in
  DIA_IMPVF <- where3 DIA_IMPVF mask ;;
  KPP_SRC <- where3 KPP_SRC mask ;;
  DIA_IMPVF <- _convert_to_tendency DIA_IMPVF (Area area) (-1) kmax ;;
  KPP_SRC <- _convert_to_tendency KPP_SRC (Vol vol) 1 kmax ;;
  let diadiff := _compute_vertical_divergence (values DIA_IMPVF) in
  vmix <- add3 (values KPP_SRC) diadiff ;;
  let vmix := mkDA (sum_z vmix) [] in
  let vmix := _convert_units vmix in
  Ok (mkDA (values vmix) (attrs_set "long_name" "vertical mixing" (attrs vmix))).

End Terms.

(** ** More of [pop_tools/grid.py] *)

Module Geometry.
Import Xr Grid.

(** [np.cumsum]: the running sums, the first being the first element. *)
Fixpoint cumsum_from (acc : Q) (l : list Q) : list Q :=
  match l with
  | [] => []
  | x :: l' => (acc + x) :: cumsum_from (acc + x) l'
  end.

Definition cumsum (l : list Q) : list Q :=
  match l with
  | [] => []
  | x :: l' => x :: cumsum_from x l'
  end.

(** The vertical grid of [get_grid], from the layer thicknesses [dz]. *)
Definition depth_edges (dz : list Q) : list Q := 0 :: cumsum dz.
Definition z_w (dz : list Q) : list Q := slice0 (-1) (depth_edges dz).
Definition z_w_bot (dz : list Q) : list Q := skipn 1 (depth_edges dz).

(** [depth_edges[0:-1] + 0.5 * dz]: both have one element per layer. *)
Definition z_t (dz : list Q) : list Q :=
  map2 (fun e d => e + (1 # 2) * d) (z_w dz) dz.

(** [TAREA = DXT * DYT] and [UAREA = DXU * DYU] *)
Definition TAREA (nlat nlon : Z) (HTN HTE : QArray2) : result QArray2 :=
  dxt <- DXT nlat HTN ;;
  dyt <- DYT nlon HTE ;;
  zip2 Qmult dxt dyt.

Definition UAREA (nlat nlon : Z) (HTN HTE : QArray2) : result QArray2 :=
  dxu <- DXU nlon HTN ;;
  dyu <- DYU nlat HTE ;;
  zip2 Qmult dxu dyu.

(** Arithmetic on [int32] wraps around. *)
Definition int32 (k : Z) : Z :=
  ((k + 2147483648) mod 4294967296 - 2147483648)%Z.

(** [KMT - 1] with [-1] replaced by [0] *)
Definition reidx (k : Z) : Z :=
  let r := int32 (k - 1) in
  if (r =? -1)%Z then 0%Z else r.

(** [z_w[KM_reidx]]: the depth of each column, by the index of its deepest
    layer; an index outside [z_w] raises [IndexError]. *)
Definition column_depth (z_w : list Q) (KM : Array2 Z) : result QArray2 :=
  mapM (mapM (fun k => item z_w (reidx k))) KM.

Definition HT (z_w : list Q) (KMT : Array2 Z) : result QArray2 :=
  column_depth z_w KMT.

Definition HU (z_w : list Q) (KMT : Array2 Z) : result QArray2 :=
  column_depth z_w (_generate_KMU KMT).

(** [x - (y - x)], row by row: the row below the first, extrapolated. *)
Definition extrapolate (x y : Q) : Q := x - (y - x).

(** The four corners of [_compute_corners] for one coordinate array [U]
    (the latitudes, and with the same statements the longitudes): NE, NW,
    SW and SE.  In SW and SE the rows 1 .. nlat - 1 are assigned first; row
    0 is then read off the rows 1 and 2 of the same array. *)
Record Corners : Type := mkCorners {
  NE : QArray2;
  NW : QArray2;
  SW : QArray2;
  SE : QArray2
}.

Definition below_first (rows_from_1 : QArray2) : result (list Q) :=
  r1 <- item rows_from_1 0 ;;
  r2 <- item rows_from_1 1 ;;
  align_with (pure2 extrapolate) r1 r2.

Definition corner_arrays (U : QArray2) : result Corners :=
  let nlat := Z.of_nat (List.length U) in
  let ne := U in
  let nw := map (roll 1) ne in
  let sw_from_1 := slice0 (nlat - 1) nw in
  sw_0 <- below_first sw_from_1 ;;
  let se_from_1 := slice0 (nlat - 1) ne in
  se_0 <- below_first se_from_1 ;;
  Ok (mkCorners ne nw (sw_0 :: sw_from_1) (se_0 :: se_from_1)).

End Geometry.

(** ** The call of [regional_tracer_budget] *)

Module Entry.
Import Xr Budget.

Definition newline : string := String (Ascii.ascii_of_nat 10) EmptyString.

(** [list(grid_defs.keys())] as an f-string prints it, for grid names
    without quotes or escapes, as the names of the grid definitions are. *)
Definition repr_names (names : list string) : string :=
  ("[" ++ String.concat ", " (map (fun n => "'" ++ n ++ "'") names) ++ "]")%string.

(** The message of [get_grid] for a name that is not in [grid_defs]. *)
Definition unknown_grid_msg (grid_name : string) (names : list string) : string :=
  ("Unknown grid: " ++ grid_name ++ newline
   ++ "             Please select from the following: "
   ++ repr_names names)%string.

(** [_process_grid(grid)] for a grid name.  [get_grid] first looks the name
    up in [grid_defs], the grid definitions of the package, and raises
    [ValueError] for a name that is not there.  For a known name it fetches
    and reads the files that the definition names and derives the grid, and
    [_process_grid] keeps the area, the volume, the layer bottoms and the
    region classification: this part is [read_grid], with the errors it can
    raise. *)
Definition _process_grid_by_name {A : Type} (grid_defs : list (string * A))
           (read_grid : A -> result Grid) (grid : string) : result Grid :=
  match find (fun d => String.eqb grid (fst d)) grid_defs with
  | None => Raise (ValueError (unknown_grid_msg grid (map fst grid_defs)))
  | Some grid_attrs => read_grid (snd grid_attrs)
  end.

(** [regional_tracer_budget] from its first line to the region mask and the
    depth limit: the grid is loaded before [mask] and [mask_int] are looked
    at. *)
Definition regional_tracer_budget_call {A : Type}
           (grid_defs : list (string * A)) (read_grid : A -> result Grid)
           (grid : string) (mask : option (Array2 Z)) (mask_int : option Z)
           (budget_depth : option Q) : result (Mask * option Z) :=
  grid <- _process_grid_by_name grid_defs read_grid grid ;;
  regional_tracer_budget_setup grid mask mask_int budget_depth.

End Entry.

(** ** The staggering of the corner points *)

Module Staggering.
Import Xr Grid Spec.

(** The center-point cells that bound the corner point (i, j).  In
    [_compute_TLAT_TLONG] the center point (j, i) is the mean of the corner
    points (j - 1, i - 1), (j - 1, i), (j, i - 1) and (j, i), its SW, SE, NW
    and NE corners, and in [_compute_corners] the NE corner of a cell is its
    own corner point.  So the corner point (i, j) is the NE corner of the
    cell (i, j), the NW corner of the cell (i, j + 1), the SE corner of the
    cell (i + 1, j) and the SW corner of the cell (i + 1, j + 1); the
    longitude is periodic, and the row i + 1 exists below the last row. *)
Definition bounding_T_cells (nlon i j : nat) : list (nat * nat) :=
  [(i, j); (i, next_wrap nlon j); (S i, j); (S i, next_wrap nlon j)].

(** The least number of layers among the cells that bound the corner point
    (i, j). *)
Definition shallowest_bounding (KMT : Array2 Z) (nlon i j : nat) : Z :=
  min4 (at2 0%Z KMT i j) (at2 0%Z KMT i (next_wrap nlon j))
       (at2 0%Z KMT (S i) j) (at2 0%Z KMT (S i) (next_wrap nlon j)).

End Staggering.

(** ** More small inputs, for the worked cases *)

Module MoreExamples.
Import Xr Budget.

Definition dz_three_layers : list Q := [10; 10; 10].

Definition uniform_2x2 : Field3 := [[[Some 5; Some 5]; [Some 5; Some 5]]].

Definition dz_six_layers : list Q := [10; 10; 20; 20; 40; 40].

(** A basin of five layers with one shallow cell in the last row. *)
Definition kmt_3x3 : Array2 Z := [[5; 5; 5]; [5; 5; 5]; [5; 1; 5]]%Z.

(** Grid definitions with a single grid, whose files read without error. *)
Definition grid_defs_one : list (string * Grid) :=
  [("three_layers"%string, Examples.grid_three_layers)].

End MoreExamples.

(** * Properties *)

(** ** Facts about the array primitives *)

Module XrFacts.
Import Xr Spec Parts.

(** Alignment commutes with maps on the arguments and on the result. *)
Lemma align_with_natural {A A' B B' C C'}
      (f1 : A -> A') (f2 : B -> B') (h : C -> C')
      (g : A' -> B' -> result C') (g' : A -> B -> result C) :
  (forall a b, g (f1 a) (f2 b) = fmap h (g' a b)) ->
  forall l1 l2,
    align_with g (map f1 l1) (map f2 l2) = fmap (map h) (align_with g' l1 l2).
Proof.
  intros Hg; induction l1 as [|a l1 IH]; intros [|b l2]; simpl; try reflexivity.
  rewrite Hg, IH.
  destruct (g' a b); simpl; [|reflexivity].
  destruct (align_with g' l1 l2); reflexivity.
Qed.

Lemma mapM_natural {A A' B B'} (f : A -> A') (h : B -> B')
      (g : A' -> result B') (g' : A -> result B) :
  (forall a, g (f a) = fmap h (g' a)) ->
  forall l, mapM g (map f l) = fmap (map h) (mapM g' l).
Proof.
  intros Hg; induction l as [|a l IH]; simpl; [reflexivity|].
  rewrite Hg, IH.
  destruct (g' a); simpl; [|reflexivity].
  destruct (mapM g' l); reflexivity.
Qed.

Lemma align_with_pure2 {A B C} (f : A -> B -> C) l1 l2 :
  List.length l1 = List.length l2 ->
  align_with (pure2 f) l1 l2 = Ok (map2 f l1 l2).
Proof.
  revert l2; induction l1 as [|a l1 IH]; intros [|b l2]; simpl;
    try discriminate; [reflexivity|].
  intros H; injection H as H; rewrite (IH _ H); reflexivity.
Qed.

Lemma roll_map {A B} (f : A -> B) s (l : list A) :
  roll s (map f l) = map f (roll s l).
Proof.
  unfold roll; rewrite length_map, map_app, skipn_map, firstn_map; reflexivity.
Qed.

Lemma length_map2 {A B C} (f : A -> B -> C) l1 l2 :
  List.length (map2 f l1 l2) = Nat.min (List.length l1) (List.length l2).
Proof.
  revert l2; induction l1 as [|a l1 IH]; intros [|b l2]; simpl; auto.
Qed.

Lemma nth_map2 {A B C} (f : A -> B -> C) l1 l2 i d1 d2 d :
  (i < List.length l1)%nat -> (i < List.length l2)%nat ->
  nth i (map2 f l1 l2) d = f (nth i l1 d1) (nth i l2 d2).
Proof.
  revert l2 i; induction l1 as [|a l1 IH]; intros [|b l2] [|i]; simpl;
    try lia; [reflexivity|].
  intros H1 H2; apply IH; lia.
Qed.

Lemma Forall_map2 {A B C} (P : A -> Prop) (Q : B -> Prop) (R : C -> Prop)
      (f : A -> B -> C) l1 l2 :
  (forall a b, P a -> Q b -> R (f a b)) ->
  Forall P l1 -> Forall Q l2 -> Forall R (map2 f l1 l2).
Proof.
  intros Hf H1; revert l2; induction H1 as [|a l1 Ha H1 IH];
    intros l2 H2; simpl; [constructor|].
  destruct H2 as [|b l2 Hb H2]; constructor; auto.
Qed.

Lemma nth_repeat_lt {A} (x d : A) n i :
  (i < n)%nat -> nth i (repeat x n) d = x.
Proof.
  revert i; induction n as [|n IH]; intros [|i] H; simpl; try lia; auto.
  apply IH; lia.
Qed.

Lemma shape3_layer {A} nz ny nx (a : Array3 A) k :
  shape3 nz ny nx a -> (k < nz)%nat -> shape2 ny nx (nth k a []).
Proof.
  intros [Hl Hf] Hk.
  rewrite Forall_forall in Hf; apply Hf, nth_In; lia.
Qed.

Lemma shape2_row {A} ny nx (a : Array2 A) i :
  shape2 ny nx a -> (i < ny)%nat -> List.length (nth i a []) = nx.
Proof.
  intros [Hl Hf] Hi.
  rewrite Forall_forall in Hf; apply Hf, nth_In; lia.
Qed.

Lemma shape2_repeat {A} ny nx (x : A) : shape2 ny nx (repeat (repeat x nx) ny).
Proof.
  split; [apply repeat_length|].
  apply Forall_forall; intros r Hr.
  apply repeat_spec in Hr; subst; apply repeat_length.
Qed.

Lemma map2_shape2 {A B C} (f : A -> B -> C) ny nx
      (a : Array2 A) (b : Array2 B) :
  shape2 ny nx a -> shape2 ny nx b -> shape2 ny nx (map2 (map2 f) a b).
Proof.
  intros [Ha Fa] [Hb Fb]; split.
  - rewrite length_map2; lia.
  - apply Forall_map2 with (2 := Fa) (3 := Fb); cbv beta.
    intros r1 r2 H1 H2; rewrite length_map2; lia.
Qed.

Lemma at2_map2 {A B C} (f : A -> B -> C) (d1 : A) (d2 : B) (d : C) ny nx
      (a : Array2 A) (b : Array2 B) i j :
  shape2 ny nx a -> shape2 ny nx b -> (i < ny)%nat -> (j < nx)%nat ->
  at2 d (map2 (map2 f) a b) i j = f (at2 d1 a i j) (at2 d2 b i j).
Proof.
  intros Ha Hb Hi Hj; unfold at2.
  pose proof (shape2_row ny nx a i Ha Hi) as Ra.
  pose proof (shape2_row ny nx b i Hb Hi) as Rb.
  destruct Ha as [La _], Hb as [Lb _].
  rewrite nth_map2 with (d1 := []) (d2 := []) by lia.
  apply nth_map2; lia.
Qed.

Lemma shape2_same_rows {A B} ny nx (a : Array2 A) (b : Array2 B) :
  shape2 ny nx a -> shape2 ny nx b ->
  Forall2 (fun r1 r2 => List.length r1 = List.length r2) a b.
Proof.
  intros [Ha Fa]; revert ny Ha b.
  induction Fa as [|r a Hr Fa IH]; intros ny Ha b [Hb Fb].
  - destruct b; [constructor | simpl in *; lia].
  - destruct b as [|r' b]; [simpl in *; lia|].
    inversion Fb; subst; constructor; [lia|].
    apply IH with (ny := List.length a); [reflexivity|].
    split; [simpl in *; lia | assumption].
Qed.

Lemma zip2_ok {A B C} (f : A -> B -> C) (a : Array2 A) (b : Array2 B) :
  Forall2 (fun r1 r2 => List.length r1 = List.length r2) a b ->
  zip2 f a b = Ok (map2 (map2 f) a b).
Proof.
  unfold zip2; induction 1 as [|r1 r2 a b Hr Hab IH]; simpl; [reflexivity|].
  rewrite (align_with_pure2 f r1 r2 Hr), IH; reflexivity.
Qed.

Lemma shape2_firstn {A} ny nx k (a : Array2 A) :
  shape2 ny nx a -> (k <= ny)%nat -> shape2 k nx (firstn k a).
Proof.
  intros [Ha Fa] Hk; split; [rewrite length_firstn; lia|].
  apply Forall_forall; intros r Hr.
  rewrite Forall_forall in Fa; apply Fa.
  rewrite <- (firstn_skipn k a); apply in_or_app; left; exact Hr.
Qed.

Lemma shape2_skipn {A} ny nx k (a : Array2 A) :
  shape2 ny nx a -> shape2 (ny - k) nx (skipn k a).
Proof.
  intros [Ha Fa]; split; [rewrite length_skipn; lia|].
  apply Forall_forall; intros r Hr.
  rewrite Forall_forall in Fa; apply Fa.
  rewrite <- (firstn_skipn k a); apply in_or_app; right; exact Hr.
Qed.

Lemma shape2_map {A B} (g : list A -> list B) ny nx nx' (a : Array2 A) :
  (forall r, List.length r = nx -> List.length (g r) = nx') ->
  shape2 ny nx a -> shape2 ny nx' (map g a).
Proof.
  intros Hg [Ha Fa]; split; [rewrite length_map; exact Ha|].
  apply Forall_forall; intros r Hr.
  apply in_map_iff in Hr; destruct Hr as (r0 & <- & Hr0).
  rewrite Forall_forall in Fa; apply Hg, Fa, Hr0.
Qed.

Lemma at2_map {A B} (g : list A -> list B) (d : A) (d' : B)
      (a : Array2 A) i j :
  (i < List.length a)%nat ->
  at2 d' (map g a) i j = nth j (g (nth i a [])) d'.
Proof.
  intros Hi; unfold at2; f_equal.
  rewrite nth_indep with (d' := g []) by (rewrite length_map; exact Hi).
  apply map_nth.
Qed.

Lemma slice0_nonneg {A} (stop : Z) (l : list A) :
  (0 <= stop)%Z -> slice0 stop l = firstn (Z.to_nat stop) l.
Proof.
  intros H; unfold slice0.
  destruct (Z.ltb_spec stop 0); [lia|reflexivity].
Qed.

End XrFacts.

(** ** The divergence helpers *)

Module DivergenceProofs.
Import Xr XrFacts Budget Spec Examples.

Lemma cell_sub_neg (a b : cell) :
  cell_sub (cell_neg a) (cell_neg b) = cell_neg (cell_sub a b).
Proof.
  destruct a as [[xn xd]|], b as [[yn yd]|]; simpl; try reflexivity.
  unfold Qminus, Qplus, Qopp; simpl.
  do 2 f_equal; ring.
Qed.

Lemma where2_neg (slab : Field2) (m : Mask) :
  where2 (map (map cell_neg) slab) m = fmap (map (map cell_neg)) (where2 slab m).
Proof.
  unfold where2, zip2.
  rewrite <- (map_id m) at 1.
  apply align_with_natural; intros r bs.
  rewrite <- (map_id bs) at 1.
  apply align_with_natural; intros c b.
  destruct b; reflexivity.
Qed.

Lemma where3_neg (da : Field3) (m : Mask) :
  where3 (neg3 da) m = fmap neg3 (where3 da m).
Proof.
  unfold where3, neg3.
  apply mapM_natural with (g' := fun slab => where2 slab m).
  intros slab; apply where2_neg.
Qed.

Lemma sub3_neg (a b : Field3) :
  sub3 (neg3 a) (neg3 b) = fmap neg3 (sub3 a b).
Proof.
  unfold sub3, zip3, zip2, neg3.
  apply align_with_natural; intros s1 s2.
  apply align_with_natural; intros r1 r2.
  apply align_with_natural; intros c1 c2.
  unfold pure2; simpl; rewrite cell_sub_neg; reflexivity.
Qed.

Lemma roll3_nlon_neg s (a : Field3) :
  roll3_nlon s (neg3 a) = neg3 (roll3_nlon s a).
Proof.
  unfold roll3_nlon, roll2_nlon, neg3.
  rewrite !map_map; apply map_ext; intros slab.
  rewrite !map_map; apply map_ext; intros r.
  apply roll_map.
Qed.

(** The body shared by the two branches of the source: the result of the
    shifted mask rolled one column on, minus the field masked directly. *)
Lemma masked_difference_neg (da : Field3) (m_roll m : Mask) :
  (a <- where3 (neg3 da) m_roll ;;
   b <- where3 (neg3 da) m ;;
   sub3 (roll3_nlon 1 a) b)
  = fmap neg3 (a <- where3 da m_roll ;;
               b <- where3 da m ;;
               sub3 (roll3_nlon 1 a) b).
Proof.
  rewrite !where3_neg.
  destruct (where3 da m_roll) as [a|e]; simpl; [|reflexivity].
  destruct (where3 da m) as [b|e]; simpl; [|reflexivity].
  rewrite roll3_nlon_neg; apply sub3_neg.
Qed.

(** C8. For every flux field, mask and valid direction, the horizontal
    divergence of the negated field is the negation of the horizontal
    divergence of the field, cell by cell (and the one raises exactly when
    the other does). *)
Theorem horizontal_divergence_antisymmetric
        (da : Field3) (mask : Mask) (direction : string) :
  direction = "zonal" \/ direction = "meridional" ->
  _compute_horizontal_divergence (neg3 da) mask (Some direction)
  = fmap neg3 (_compute_horizontal_divergence da mask (Some direction)).
Proof.
  intros [-> | ->]; unfold _compute_horizontal_divergence; simpl String.eqb;
    cbv iota; apply masked_difference_neg.
Qed.

Lemma horizontal_divergence_antisymmetric_witness :
  ("zonal" = "zonal" \/ "zonal" = "meridional")
  /\ _compute_horizontal_divergence (neg3 flux_2x2) mask_2x2 (Some "zonal")
     = fmap neg3 (_compute_horizontal_divergence flux_2x2 mask_2x2 (Some "zonal")).
Proof.
  split; [left; reflexivity|].
  apply horizontal_divergence_antisymmetric; left; reflexivity.
Defined.

(** C1. On the 2 x 2 field [[1, 2], [3, 4]] with only the cell (0, 0) in the
    region, the meridional branch of the source returns NaN everywhere,
    whereas the latitudinal analogue of the zonal case has 3 - 1 = 2 at the
    cell (0, 0): the source rolls the masked field back along [nlon], not
    along [nlat]. *)
Theorem meridional_divergence_rolls_longitude :
  _compute_horizontal_divergence flux_2x2 mask_2x2 (Some "meridional")
  = Ok [[[None; None]; [None; None]]]
  /\ meridional_divergence flux_2x2 mask_2x2
     = Ok [[[Some 2; None]; [None; None]]]
  /\ _compute_horizontal_divergence flux_2x2 mask_2x2 (Some "meridional")
     <> meridional_divergence flux_2x2 mask_2x2.
Proof.
  repeat split; try reflexivity.
  vm_compute; discriminate.
Qed.

End DivergenceProofs.

(** ** Vertical divergence *)

Module VerticalDivergenceProofs.
Import Xr XrFacts Budget Spec Examples Parts.

Lemma sub_layers_shape ny nx (a b : Field2) :
  shape2 ny nx a -> shape2 ny nx b ->
  shape2 ny nx (map2 (map2 cell_sub) a b).
Proof. apply map2_shape2. Qed.

Lemma sub_layers_at ny nx (a b : Field2) i j :
  shape2 ny nx a -> shape2 ny nx b -> (i < ny)%nat -> (j < nx)%nat ->
  at2 None (map2 (map2 cell_sub) a b) i j
  = cell_sub (at2 None a i j) (at2 None b i j).
Proof. apply at2_map2. Qed.

Lemma layer_above_shape nz ny nx (da : Field3) k :
  shape3 nz ny nx da -> (k < nz)%nat -> shape2 ny nx (layer_above da k).
Proof.
  intros H Hk; destruct k as [|k]; simpl.
  - assert (Hz : (0 < nz)%nat) by lia.
    pose proof (shape3_layer nz ny nx da O H Hz) as Hs.
    destruct da as [|s da]; [destruct H; simpl in *; lia|].
    cbn [hd nth] in *; destruct Hs as [Hl Hf]; subst ny.
    destruct s as [|r s]; [split; [reflexivity|constructor]|].
    cbn [hd]; inversion Hf; subst; apply shape2_repeat.
  - apply shape3_layer with (nz := nz); [assumption|lia].
Qed.

Lemma vertical_divergence_layer (da : Field3) k :
  (k < List.length da)%nat ->
  nth k (_compute_vertical_divergence da) []
  = map2 (map2 cell_sub) (nth k da []) (layer_above da k).
Proof.
  intros Hk; unfold _compute_vertical_divergence, diff_z; simpl tl.
  rewrite nth_map2 with (d1 := []) (d2 := []);
    [destruct k; reflexivity | exact Hk | simpl; apply Nat.lt_lt_succ_r; exact Hk].
Qed.
Lemma zero_cap_at nz ny nx (da : Field3) i j :
  shape3 nz ny nx da -> (0 < nz)%nat -> (i < ny)%nat -> (j < nx)%nat ->
  at2 None (layer_above da 0) i j = Some 0.
Proof.
  intros H Hz Hi Hj.
  pose proof (shape3_layer nz ny nx da O H Hz) as Hs.
  destruct da as [|s da]; [destruct H; simpl in *; lia|].
  cbn [hd nth layer_above] in *; destruct Hs as [Hl Hf]; subst ny.
  destruct s as [|r s]; [simpl in Hi; lia|].
  cbn [hd]; inversion Hf; subst.
  unfold at2.
  rewrite nth_repeat_lt by exact Hi.
  apply nth_repeat_lt; exact Hj.
Qed.

Lemma cell_sub_zero (c : cell) : cell_eq (cell_sub c (Some 0)) c.
Proof. destruct c as [x|]; simpl; [ring|exact I]. Qed.

Lemma cell_sub_zeros (a b : cell) :
  cell_eq a (Some 0) -> cell_eq b (Some 0) -> cell_eq (cell_sub a b) (Some 0).
Proof.
  destruct a as [x|], b as [y|]; simpl; try contradiction.
  intros Hx Hy; rewrite Hx, Hy; ring.
Qed.

Lemma vertical_divergence_at nz ny nx (da : Field3) k i j :
  shape3 nz ny nx da -> (k < nz)%nat -> (i < ny)%nat -> (j < nx)%nat ->
  at3 None (_compute_vertical_divergence da) k i j
  = cell_sub (at3 None da k i j) (cell_above da k i j).
Proof.
  intros H Hk Hi Hj; unfold at3.
  rewrite vertical_divergence_layer by (destruct H as [-> _]; exact Hk).
  rewrite sub_layers_at with (ny := ny) (nx := nx);
    [ | apply shape3_layer with (nz := nz); assumption
      | apply layer_above_shape with (nz := nz); assumption
      | assumption | assumption ].
  f_equal; destruct k as [|k]; [|reflexivity].
  apply zero_cap_at with (nz := nz) (ny := ny) (nx := nx); assumption.
Qed.

(** C7. On a field of [nz] layers the vertical divergence has the shape of
    the field; at layer [k] it is the field at layer [k] minus the field at
    layer [k - 1], with zero above the shallowest layer, so that layer 0 of
    the output equals layer 0 of the input; and on a field that is zero
    everywhere it is zero everywhere. *)
Theorem vertical_divergence_layers (nz ny nx : nat) (da : Field3) :
  shape3 nz ny nx da ->
  shape3 nz ny nx (_compute_vertical_divergence da)
  /\ (forall k i j, (k < nz)%nat -> (i < ny)%nat -> (j < nx)%nat ->
        at3 None (_compute_vertical_divergence da) k i j
        = cell_sub (at3 None da k i j) (cell_above da k i j))
  /\ (forall i j, (0 < nz)%nat -> (i < ny)%nat -> (j < nx)%nat ->
        cell_eq (at3 None (_compute_vertical_divergence da) 0 i j)
                (at3 None da 0 i j))
  /\ ((forall k i j, (k < nz)%nat -> (i < ny)%nat -> (j < nx)%nat ->
         cell_eq (at3 None da k i j) (Some 0)) ->
      forall k i j, (k < nz)%nat -> (i < ny)%nat -> (j < nx)%nat ->
        cell_eq (at3 None (_compute_vertical_divergence da) k i j) (Some 0)).
Proof.
  intros H; repeat split.
  - unfold _compute_vertical_divergence, diff_z; simpl tl.
    rewrite length_map2; destruct H as [Hl _]; simpl; lia.
  - apply Forall_forall; intros s Hs.
    destruct (In_nth _ _ [] Hs) as (k & Hk & <-).
    assert (Hlen : List.length (_compute_vertical_divergence da) = nz).
    { unfold _compute_vertical_divergence, diff_z; simpl tl.
      rewrite length_map2; destruct H as [Hl _]; simpl; lia. }
    rewrite Hlen in Hk.
    rewrite vertical_divergence_layer by (destruct H as [-> _]; exact Hk).
    apply sub_layers_shape;
      [ apply shape3_layer with (nz := nz) | apply layer_above_shape with (nz := nz) ];
      assumption.
  - intros k i j Hk Hi Hj; apply vertical_divergence_at with (1 := H); assumption.
  - intros i j Hz Hi Hj.
    rewrite vertical_divergence_at with (1 := H) by assumption.
    apply cell_sub_zero.
  - intros Hzero k i j Hk Hi Hj.
    rewrite vertical_divergence_at with (1 := H) by assumption.
    apply cell_sub_zeros; [apply Hzero; assumption|].
    destruct k as [|k]; simpl; [reflexivity|].
    apply Hzero; [lia|assumption|assumption].
Qed.

Lemma vertical_divergence_layers_witness :
  shape3 3 1 2 flux_3x1x2
  /\ at3 None (_compute_vertical_divergence flux_3x1x2) 1 0 1
     = cell_sub (Some 4) (Some 2).
Proof.
  assert (H : shape3 3 1 2 flux_3x1x2).
  { split; [reflexivity|].
    repeat constructor. }
  split; [exact H|].
  destruct (vertical_divergence_layers 3 1 2 flux_3x1x2 H) as (_ & Hat & _).
  apply (Hat 1%nat 0%nat 1%nat); lia.
Defined.

End VerticalDivergenceProofs.

(** ** The depth limit and the region mask *)

Module DepthLimitProofs.
Import Xr XrFacts Budget Spec Examples.

Lemma strictly_increasing_tail x z :
  strictly_increasing (x :: z) -> forall y, In y z -> x < y.
Proof.
  revert x; induction z as [|y z IH]; intros x [Hxy Hz] y' Hin;
    [destruct Hin|].
  destruct Hin as [<- | Hin]; [exact Hxy|].
  apply Qlt_trans with y; [exact Hxy|].
  apply IH; assumption.
Qed.

Lemma strictly_increasing_nth z :
  strictly_increasing z ->
  forall i j zi zj,
    nth_error z i = Some zi -> nth_error z j = Some zj ->
    (i < j)%nat -> zi < zj.
Proof.
  induction z as [|x z IH]; intros Hz i j zi zj Hi Hj Hlt.
  - destruct i; discriminate.
  - destruct j as [|j]; [lia|].
    destruct i as [|i]; simpl in Hi, Hj.
    + injection Hi as <-.
      apply strictly_increasing_tail with z; [exact Hz|].
      apply nth_error_In with j; exact Hj.
    + apply IH with i j; try assumption; [apply Hz | lia].
Qed.

(** What [argmin] finds on the array [z <= d]: the first layer deeper than
    [d], unless a [False] has been seen already. *)
Lemma argmin_from_exceeding d z :
  forall best_i best i,
    argmin_from best_i best i (map (fun zk => Qle_bool zk d) z)
    = if best
      then match first_exceeding d z with
           | Some k => (i + k)%nat
           | None => best_i
           end
      else best_i.
Proof.
  induction z as [|zk z IH]; intros best_i best i; simpl.
  - destruct best; reflexivity.
  - destruct (Qlt_le_dec d zk) as [Hlt | Hle].
    + assert (Hb : Qle_bool zk d = false).
      { destruct (Qle_bool zk d) eqn:E; [|reflexivity].
        apply Qle_bool_iff in E; exfalso; revert Hlt; apply Qle_not_lt, E. }
      rewrite Hb; simpl.
      destruct best; simpl; rewrite IH; [f_equal; lia | reflexivity].
    + assert (Hb : Qle_bool zk d = true) by (apply Qle_bool_iff, Hle).
      rewrite Hb; simpl; rewrite IH.
      destruct best; [|reflexivity].
      destruct (first_exceeding d z); simpl; [lia|reflexivity].
Qed.

(** The source's [argmin] minus one is the specification's search. *)
Lemma compute_kmax_first_exceeding d z :
  z <> [] -> _compute_kmax d z = Ok (step_back (first_exceeding d z)).
Proof.
  destruct z as [|zk z]; [congruence|intros _].
  unfold _compute_kmax; simpl map; unfold argmin.
  rewrite argmin_from_exceeding; cbn [first_exceeding bind].
  destruct (Qlt_le_dec d zk) as [Hlt | Hle].
  - assert (Hb : Qle_bool zk d = false).
    { destruct (Qle_bool zk d) eqn:E; [|reflexivity].
      apply Qle_bool_iff in E; exfalso; revert Hlt; apply Qle_not_lt, E. }
    rewrite Hb; reflexivity.
  - assert (Hb : Qle_bool zk d = true) by (apply Qle_bool_iff, Hle).
    rewrite Hb.
    destruct (first_exceeding d z) as [k|]; cbn [option_map step_back];
      [|reflexivity].
    replace (Z.of_nat (1 + k) - 1)%Z with (Z.of_nat k) by lia.
    destruct (Z.eqb_spec (Z.of_nat k) (-1)); [lia | reflexivity].
Qed.

Lemma first_exceeding_intro d z :
  forall n zn,
    nth_error z n = Some zn -> d < zn ->
    (forall i zi, (i < n)%nat -> nth_error z i = Some zi -> zi <= d) ->
    first_exceeding d z = Some n.
Proof.
  induction z as [|x z IH]; intros n zn Hn Hlt Hbefore.
  - destruct n; discriminate.
  - simpl; destruct n as [|n]; simpl in Hn.
    + injection Hn as ->.
      destruct (Qlt_le_dec d zn) as [_|Hle]; [reflexivity|].
      exfalso; revert Hlt; apply Qle_not_lt, Hle.
    + destruct (Qlt_le_dec d x) as [Hdx|_].
      * exfalso; revert Hdx; apply Qle_not_lt.
        apply (Hbefore O x); [lia|reflexivity].
      * rewrite (IH n zn Hn Hlt); [reflexivity|].
        intros i zi Hi Hzi; apply (Hbefore (S i) zi); [lia|exact Hzi].
Qed.

Lemma first_exceeding_none d z :
  (forall zk, In zk z -> zk <= d) -> first_exceeding d z = None.
Proof.
  induction z as [|x z IH]; intros Hall; simpl; [reflexivity|].
  destruct (Qlt_le_dec d x) as [Hdx|_].
  - exfalso; revert Hdx; apply Qle_not_lt, Hall; left; reflexivity.
  - rewrite IH; [reflexivity|].
    intros zk Hin; apply Hall; right; exact Hin.
Qed.

Lemma exceeding_after_layer z d k zk :
  strictly_increasing z ->
  nth_error z k = Some zk -> zk == d -> (S k < List.length z)%nat ->
  first_exceeding d z = Some (S k).
Proof.
  intros Hz Hk Hd Hlen.
  destruct (nth_error z (S k)) as [zn|] eqn:Hn;
    [|apply nth_error_None in Hn; lia].
  apply first_exceeding_intro with zn; [exact Hn | |].
  - rewrite <- Hd.
    apply strictly_increasing_nth with (z := z) (i := k) (j := S k);
      [assumption|assumption|assumption|lia].
  - intros i zi Hi Hzi.
    destruct (Nat.eq_dec i k) as [->|Hne].
    + rewrite Hk in Hzi; injection Hzi as <-; rewrite Hd; apply Qle_refl.
    + rewrite <- Hd; apply Qlt_le_weak.
      apply strictly_increasing_nth with (z := z) (i := i) (j := k);
        [assumption|assumption|assumption|lia].
Qed.

Lemma none_exceeding_deepest z d deepest :
  strictly_increasing z ->
  nth_error z (List.length z - 1) = Some deepest -> deepest <= d ->
  first_exceeding d z = None.
Proof.
  intros Hz Hlast Hd; apply first_exceeding_none; intros zk Hin.
  apply In_nth_error in Hin; destruct Hin as [i Hi].
  assert (Hlt : (i < List.length z)%nat)
    by (apply nth_error_Some; rewrite Hi; discriminate).
  destruct (Nat.eq_dec i (List.length z - 1)) as [->|Hne].
  - rewrite Hlast in Hi; injection Hi as <-; exact Hd.
  - apply Qle_trans with deepest; [|exact Hd].
    apply Qlt_le_weak.
    apply strictly_increasing_nth
      with (z := z) (i := i) (j := (List.length z - 1)%nat);
      [assumption|assumption|assumption|lia].
Qed.

(** C2 (amended). For strictly increasing layer bottoms [z], the depth
    limit is found by locating the first layer deeper than [d] and stepping
    back one, the full-depth sentinel standing for "no such layer" and for
    "nothing to step back to"; if [d] is the bottom of a layer [k] other
    than the deepest then [kmax = k]; and if [d] is at least the bottom of
    the deepest layer, equal to it included, then [kmax] is the sentinel. *)
Theorem compute_kmax_depth_limit (z : list Q) (d : Q) :
  strictly_increasing z -> z <> [] ->
  _compute_kmax d z = Ok (step_back (first_exceeding d z))
  /\ (forall k zk,
        nth_error z k = Some zk -> zk == d -> (S k < List.length z)%nat ->
        _compute_kmax d z = Ok (Some (Z.of_nat k)))
  /\ (forall deepest,
        nth_error z (List.length z - 1) = Some deepest -> deepest <= d ->
        _compute_kmax d z = Ok None).
Proof.
  intros Hz Hne; repeat split.
  - apply compute_kmax_first_exceeding, Hne.
  - intros k zk Hk Hd Hlen.
    rewrite compute_kmax_first_exceeding by exact Hne.
    rewrite (exceeding_after_layer z d k zk Hz Hk Hd Hlen); reflexivity.
  - intros deepest Hlast Hd.
    rewrite compute_kmax_first_exceeding by exact Hne.
    rewrite (none_exceeding_deepest z d deepest Hz Hlast Hd); reflexivity.
Qed.

Lemma z_three_layers_increasing : strictly_increasing z_three_layers.
Proof. simpl; repeat split; reflexivity. Qed.

Lemma compute_kmax_depth_limit_witness :
  (strictly_increasing z_three_layers /\ z_three_layers <> [])
  /\ _compute_kmax 20 z_three_layers = Ok (Some 1%Z).
Proof.
  assert (Hne : z_three_layers <> []) by discriminate.
  split; [split; [exact z_three_layers_increasing | exact Hne]|].
  destruct (compute_kmax_depth_limit z_three_layers 20
                                     z_three_layers_increasing Hne)
    as (_ & Hlayer & _).
  apply (Hlayer 1%nat 20); [reflexivity | reflexivity | simpl; lia].
Defined.

(** C2, as stated, fails at the deepest layer: the request equal to the
    bottom depth of layer 2 of three layers gives the sentinel, not 2. *)
Lemma compute_kmax_deepest_layer_counterexample :
  strictly_increasing z_three_layers
  /\ nth_error z_three_layers 2 = Some 30
  /\ _compute_kmax 30 z_three_layers = Ok None
  /\ _compute_kmax 30 z_three_layers <> Ok (Some 2%Z).
Proof.
  split; [exact z_three_layers_increasing|].
  repeat split; vm_compute; discriminate.
Qed.

(** C10. A requested depth that, in centimetres, is shallower than the
    bottom of the shallowest layer gives the full-depth sentinel, and the
    budget is set up exactly as with no depth limit: it is neither truncated
    to no layer nor an error. *)
Theorem shallow_request_is_full_depth
        (grid : Grid) (mask : option (Array2 Z)) (mask_int : option Z)
        (budget_depth z0 : Q) :
  hd_error (grid_z grid) = Some z0 -> budget_depth * 100 < z0 ->
  _compute_kmax (budget_depth * 100) (grid_z grid) = Ok None
  /\ regional_tracer_budget_setup grid mask mask_int (Some budget_depth)
     = regional_tracer_budget_setup grid mask mask_int None.
Proof.
  intros Hhd Hlt.
  assert (Hk : _compute_kmax (budget_depth * 100) (grid_z grid) = Ok None).
  { destruct (grid_z grid) as [|x z]; [discriminate|].
    injection Hhd as ->.
    rewrite compute_kmax_first_exceeding by discriminate.
    simpl; destruct (Qlt_le_dec (budget_depth * 100) z0) as [_|Hle];
      [reflexivity|].
    exfalso; revert Hlt; apply Qle_not_lt, Hle. }
  split; [exact Hk|].
  unfold regional_tracer_budget_setup.
  destruct mask_int; [rewrite Hk|]; reflexivity.
Qed.

Lemma shallow_request_is_full_depth_witness :
  (hd_error (grid_z grid_three_layers) = Some 10 /\ (5 # 100) * 100 < 10)
  /\ regional_tracer_budget_setup grid_three_layers None (Some 1%Z) (Some (5 # 100))
     = Ok ([[true; false]], None).
Proof.
  assert (H1 : hd_error (grid_z grid_three_layers) = Some 10) by reflexivity.
  assert (H2 : (5 # 100) * 100 < 10) by reflexivity.
  split; [split; assumption|].
  destruct (shallow_request_is_full_depth grid_three_layers None (Some 1%Z)
                                          (5 # 100) 10 H1 H2)
    as [_ ->].
  reflexivity.
Defined.

(** On a grid that is loaded, the set-up fails with the
    missing-mask-integer error exactly when no classification integer is
    supplied, whether the mask is the default classification or supplied by
    the caller; and the mask used is always the equality test of the
    classification field, default or supplied, against the integer. *)
Lemma setup_requires_mask_int
        (grid : Grid) (mask : option (Array2 Z)) (mask_int : option Z)
        (budget_depth : option Q) :
  (regional_tracer_budget_setup grid mask mask_int budget_depth
   = Raise (ValueError mask_int_msg) <-> mask_int = None)
  /\ (forall k m kmax,
        mask_int = Some k ->
        regional_tracer_budget_setup grid mask mask_int budget_depth = Ok (m, kmax) ->
        m = map (map (fun v => Z.eqb v k))
                (match mask with None => grid_mask grid | Some s => s end))
  /\ (forall k,
        regional_tracer_budget_setup grid mask (Some k) None
        = Ok (map (map (fun v => Z.eqb v k))
                  (match mask with None => grid_mask grid | Some s => s end),
              None)).
Proof.
  split; [split|split].
  - destruct mask_int as [k|]; [|reflexivity].
    unfold regional_tracer_budget_setup.
    destruct budget_depth as [bd|]; [|discriminate].
    unfold _compute_kmax, argmin.
    destruct (map _ (grid_z grid)); simpl; discriminate.
  - intros ->; reflexivity.
  - intros k m kmax -> H.
    unfold regional_tracer_budget_setup in H.
    destruct (match budget_depth with Some _ => _ | None => _ end);
      simpl in H; [|discriminate].
    injection H as <- _; destruct mask; reflexivity.
  - intros k; destruct mask; reflexivity.
Qed.

End DepthLimitProofs.

(** ** Unit conversion *)

Module UnitProofs.
Import Xr XrFacts Budget Spec.

Lemma attrs_get_set k v (a : Attrs) : attrs_get k (attrs_set k v a) = Some v.
Proof.
  induction a as [|[k' v'] a IH]; simpl.
  - rewrite String.eqb_refl; reflexivity.
  - destruct (String.eqb k k') eqn:E; simpl.
    + rewrite String.eqb_refl; reflexivity.
    + rewrite E; exact IH.
Qed.

Lemma field2_eq_map (f : cell -> cell) (da : Field2) :
  (forall c, cell_eq (f c) c) -> field2_eq (map (map f) da) da.
Proof.
  intros Hf; induction da as [|r da IH]; constructor; [|exact IH].
  induction r as [|c r IHr]; constructor; [apply Hf | exact IHr].
Qed.

Lemma NMOLS_TO_MOLYR_nonzero : ~ NMOLS_TO_MOLYR == 0.
Proof. discriminate. Qed.

(** C9. The unit conversion multiplies every value by the constant
    1e-9 x 86400 x 365 (0.031536) and labels the result 'mol/yr'; dividing
    the converted values by the same constant gives the values back, exactly
    over the rationals. *)
Theorem convert_units_round_trip (ds : DataArray Field2) :
  values (_convert_units ds)
  = map (map (option_map (fun v => v * ((1 # 1000000000) * 86400 * 365))))
        (values ds)
  /\ NMOLS_TO_MOLYR == 31536 # 1000000
  /\ attrs_get "units" (attrs (_convert_units ds)) = Some "mol/yr"
  /\ field2_eq (per_molyr (values (_convert_units ds))) (values ds).
Proof.
  repeat split.
  - apply attrs_get_set.
  - unfold per_molyr, _convert_units; cbn [values].
    unfold scale2; rewrite map_map.
    rewrite (map_ext _ _ (fun r => map_map _ _ r)).
    apply field2_eq_map with
      (f := fun c => option_map (fun x => x / NMOLS_TO_MOLYR)
                                (cell_scale NMOLS_TO_MOLYR c)).
    intros [x|]; simpl; [|exact I].
    apply Qdiv_mult_l, NMOLS_TO_MOLYR_nonzero.
Qed.

End UnitProofs.

(** ** Depth truncation of the advection terms *)

Module AdvectionProofs.
Import Xr XrFacts Budget Spec Examples.


Lemma slice0_drop_last {A} (l : list A) : slice0 (-1) l = removelast l.
Proof.
  unfold slice0; change (-1 <? 0)%Z with true; cbv iota.
  rewrite removelast_firstn_len; f_equal; lia.
Qed.

Lemma shift_z_shallower (top : Field2) (below : Field3) :
  shift_z (-1) (top :: below) = below ++ [nan_like top].
Proof. reflexivity. Qed.

Lemma fillna_shifted (top : Field2) (below : Field3) :
  fillna 0 (shift_z (-1) (top :: below))
  = fillna 0 below ++ [map (map (fun _ => Some 0)) top].
Proof.
  rewrite shift_z_shallower; unfold fillna, nan_like.
  rewrite map_app; simpl; do 2 f_equal.
  rewrite map_map; apply map_ext; intros r.
  rewrite map_map; reflexivity.
Qed.






End AdvectionProofs.

(** ** Grid geometry *)

Module GridProofs.
Import Xr XrFacts Grid Spec Examples Parts.

Lemma item_ok {A} (l : list A) (i : nat) (d : A) :
  (i < List.length l)%nat -> item l (Z.of_nat i) = Ok (nth i l d).
Proof.
  intros Hi; unfold item.
  destruct (Z.ltb_spec (Z.of_nat i) 0) as [H|_]; [lia|].
  destruct (Z.leb_spec 0 (Z.of_nat i)) as [_|H]; [|lia].
  destruct (Z.ltb_spec (Z.of_nat i) (Z.of_nat (List.length l))) as [_|H]; [|lia].
  simpl andb; cbv iota.
  rewrite Nat2Z.id, (nth_error_nth' l d Hi); reflexivity.
Qed.

Lemma col_ok {A} ny nx (a : Array2 A) (j : nat) (d : A) :
  shape2 ny nx a -> (j < nx)%nat ->
  col a (Z.of_nat j) = Ok (map (fun r => nth j r d) a).
Proof.
  intros [_ Fa] Hj; unfold col.
  induction Fa as [|r a Hr Fa IH]; simpl; [reflexivity|].
  rewrite (item_ok r j d) by lia.
  cbn [bind]; rewrite IH; reflexivity.
Qed.

Lemma half_sum_average x y : half_sum x y == average x y.
Proof. unfold half_sum, average; field. Qed.

Lemma half_sum_average_sym x y : half_sum x y == average y x.
Proof. unfold half_sum, average; field. Qed.

(** The arrays that the slice assignments of [get_grid] build. *)
Lemma DXT_value nlat nlon (HTN : QArray2) :
  (0 < nlat)%nat -> shape2 nlat nlon HTN ->
  DXT (Z.of_nat nlat) HTN
  = Ok (map2 half_sum (nth 0 HTN []) (nth (nlat - 1) HTN [])
        :: map2 (map2 half_sum) (firstn (nlat - 1) HTN) (skipn 1 HTN)).
Proof.
  intros Hn H; unfold DXT, half_sum2, half_sum1, row.
  rewrite slice0_nonneg by lia.
  replace (Z.to_nat (Z.of_nat nlat - 1)) with (nlat - 1)%nat by lia.
  rewrite zip2_ok
    by (apply shape2_same_rows with (ny := (nlat - 1)%nat) (nx := nlon);
        [apply shape2_firstn with (ny := nlat); [exact H | lia]
        | apply shape2_skipn; exact H]).
  cbn [bind].
  destruct H as [Hl Hf] eqn:EH; clear EH.
  change 0%Z with (Z.of_nat 0).
  rewrite (item_ok HTN 0 []) by lia.
  replace (Z.of_nat nlat - 1)%Z with (Z.of_nat (nlat - 1)) by lia.
  rewrite (item_ok HTN (nlat - 1) []) by lia.
  cbn [bind].
  rewrite align_with_pure2; [reflexivity|].
  rewrite (shape2_row nlat nlon HTN 0), (shape2_row nlat nlon HTN (nlat - 1));
    try reflexivity; try (split; assumption); lia.
Qed.

Lemma DYU_value nlat nlon (HTE : QArray2) :
  (0 < nlat)%nat -> shape2 nlat nlon HTE ->
  DYU (Z.of_nat nlat) HTE
  = Ok (map2 (map2 half_sum) (firstn (nlat - 1) HTE) (skipn 1 HTE)
        ++ [map2 half_sum (nth (nlat - 1) HTE []) (nth 0 HTE [])]).
Proof.
  intros Hn H; unfold DYU, half_sum2, half_sum1, row.
  rewrite slice0_nonneg by lia.
  replace (Z.to_nat (Z.of_nat nlat - 1)) with (nlat - 1)%nat by lia.
  rewrite zip2_ok
    by (apply shape2_same_rows with (ny := (nlat - 1)%nat) (nx := nlon);
        [apply shape2_firstn with (ny := nlat); [exact H | lia]
        | apply shape2_skipn; exact H]).
  cbn [bind].
  destruct H as [Hl Hf] eqn:EH; clear EH.
  replace (Z.of_nat nlat - 1)%Z with (Z.of_nat (nlat - 1)) by lia.
  rewrite (item_ok HTE (nlat - 1) []) by lia.
  change 0%Z with (Z.of_nat 0).
  rewrite (item_ok HTE 0 []) by lia.
  cbn [bind].
  rewrite align_with_pure2; [reflexivity|].
  rewrite (shape2_row nlat nlon HTE 0), (shape2_row nlat nlon HTE (nlat - 1));
    try reflexivity; try (split; assumption); lia.
Qed.

Lemma nth_map_lt {A B} (f : A -> B) (l : list A) (d : A) (d' : B) i :
  (i < List.length l)%nat -> nth i (map f l) d' = f (nth i l d).
Proof.
  intros Hi.
  rewrite nth_indep with (d' := f d) by (rewrite length_map; exact Hi).
  apply map_nth.
Qed.

Lemma at2_firstn {A} (d : A) k (a : Array2 A) i j :
  (i < k)%nat -> at2 d (firstn k a) i j = at2 d a i j.
Proof.
  intros Hi; unfold at2; rewrite nth_firstn.
  destruct (Nat.ltb_spec i k); [reflexivity|lia].
Qed.

Lemma at2_skipn {A} (d : A) k (a : Array2 A) i j :
  at2 d (skipn k a) i j = at2 d a (k + i) j.
Proof. unfold at2; rewrite nth_skipn; reflexivity. Qed.

Lemma DYT_value nlat nlon (HTE : QArray2) :
  (0 < nlon)%nat -> shape2 nlat nlon HTE ->
  DYT (Z.of_nat nlon) HTE
  = Ok (map2 cons
             (map2 half_sum (map (fun r => nth (nlon - 1) r 0) HTE)
                            (map (fun r => nth 0 r 0) HTE))
             (map2 (map2 half_sum) (map (firstn (nlon - 1)) HTE)
                                   (map (skipn 1) HTE))).
Proof.
  intros Hn H; unfold DYT, half_sum2, half_sum1.
  rewrite (map_ext (slice0 (Z.of_nat nlon - 1)) (firstn (nlon - 1)))
    by (intros r; rewrite slice0_nonneg by lia; f_equal; lia).
  rewrite zip2_ok
    by (apply shape2_same_rows with (ny := nlat) (nx := (nlon - 1)%nat);
        apply shape2_map with (nx := nlon); try exact H; intros r Hr;
        [rewrite length_firstn | rewrite length_skipn]; lia).
  cbn [bind].
  replace (Z.of_nat nlon - 1)%Z with (Z.of_nat (nlon - 1)) by lia.
  rewrite (col_ok nlat nlon HTE (nlon - 1) 0 H) by lia.
  change 0%Z with (Z.of_nat 0).
  rewrite (col_ok nlat nlon HTE 0 0 H) by lia.
  cbn [bind].
  rewrite align_with_pure2 by (rewrite !length_map; reflexivity).
  cbn [bind].
  apply align_with_pure2.
  rewrite !length_map2, !length_map; lia.
Qed.

Lemma DXU_value nlat nlon (HTN : QArray2) :
  (0 < nlon)%nat -> shape2 nlat nlon HTN ->
  DXU (Z.of_nat nlon) HTN
  = Ok (map2 (fun r x => r ++ [x])
             (map2 (map2 half_sum) (map (firstn (nlon - 1)) HTN)
                                   (map (skipn 1) HTN))
             (map2 half_sum (map (fun r => nth (nlon - 1) r 0) HTN)
                            (map (fun r => nth 0 r 0) HTN))).
Proof.
  intros Hn H; unfold DXU, half_sum2, half_sum1.
  rewrite (map_ext (slice0 (Z.of_nat nlon - 1)) (firstn (nlon - 1)))
    by (intros r; rewrite slice0_nonneg by lia; f_equal; lia).
  rewrite zip2_ok
    by (apply shape2_same_rows with (ny := nlat) (nx := (nlon - 1)%nat);
        apply shape2_map with (nx := nlon); try exact H; intros r Hr;
        [rewrite length_firstn | rewrite length_skipn]; lia).
  cbn [bind].
  replace (Z.of_nat nlon - 1)%Z with (Z.of_nat (nlon - 1)) by lia.
  rewrite (col_ok nlat nlon HTN (nlon - 1) 0 H) by lia.
  change 0%Z with (Z.of_nat 0).
  rewrite (col_ok nlat nlon HTN 0 0 H) by lia.
  cbn [bind].
  rewrite align_with_pure2 by (rewrite !length_map; reflexivity).
  cbn [bind].
  apply align_with_pure2.
  rewrite !length_map2, !length_map; lia.
Qed.

(** Adjacent rows and columns of one array of shape nlat x nlon. *)
Section PairAverages.

Variables (nlat nlon : nat) (a : QArray2).
Hypothesis Hshape : shape2 nlat nlon a.

Lemma lat_pairs_shape : shape2 (nlat - 1) nlon (lat_pairs a nlat).
Proof.
  apply map2_shape2.
  - apply shape2_firstn with (ny := nlat); [exact Hshape | lia].
  - apply shape2_skipn; exact Hshape.
Qed.

Lemma lat_pairs_at i j :
  (i < nlat - 1)%nat -> (j < nlon)%nat ->
  at2 0 (lat_pairs a nlat) i j = half_sum (at2 0 a i j) (at2 0 a (S i) j).
Proof.
  intros Hi Hj; unfold lat_pairs.
  rewrite at2_map2 with (d1 := 0) (d2 := 0) (ny := (nlat - 1)%nat) (nx := nlon);
    [ | apply shape2_firstn with (ny := nlat); [exact Hshape | lia]
      | apply shape2_skipn; exact Hshape | exact Hi | exact Hj ].
  rewrite at2_firstn by exact Hi.
  rewrite at2_skipn; reflexivity.
Qed.

Lemma lon_pairs_shape : shape2 nlat (nlon - 1) (lon_pairs a nlon).
Proof.
  apply map2_shape2;
    apply shape2_map with (nx := nlon); try exact Hshape; intros r Hr;
    [rewrite length_firstn | rewrite length_skipn]; lia.
Qed.

Lemma lon_pairs_at i j :
  (i < nlat)%nat -> (j < nlon - 1)%nat ->
  at2 0 (lon_pairs a nlon) i j = half_sum (at2 0 a i j) (at2 0 a i (S j)).
Proof.
  intros Hi Hj; unfold lon_pairs.
  rewrite at2_map2 with (d1 := 0) (d2 := 0) (ny := nlat) (nx := (nlon - 1)%nat);
    [ | apply shape2_map with (nx := nlon); try exact Hshape; intros r Hr;
        rewrite length_firstn; lia
      | apply shape2_map with (nx := nlon); try exact Hshape; intros r Hr;
        rewrite length_skipn; lia
      | exact Hi | exact Hj ].
  destruct Hshape as [Hl _].
  rewrite !at2_map with (d := 0) by lia.
  rewrite nth_firstn, nth_skipn.
  destruct (Nat.ltb_spec j (nlon - 1)); [reflexivity|lia].
Qed.

Lemma lat_wrap_at p q j :
  (p < nlat)%nat -> (q < nlat)%nat -> (j < nlon)%nat ->
  nth j (map2 half_sum (nth p a []) (nth q a [])) 0
  = half_sum (at2 0 a p j) (at2 0 a q j).
Proof.
  intros Hp Hq Hj.
  apply nth_map2;
    [rewrite (shape2_row nlat nlon a p Hshape Hp)
    | rewrite (shape2_row nlat nlon a q Hshape Hq)]; exact Hj.
Qed.

Lemma lon_wrap_at p q i :
  (i < nlat)%nat ->
  nth i (map2 half_sum (map (fun r => nth p r 0) a)
                       (map (fun r => nth q r 0) a)) 0
  = half_sum (at2 0 a i p) (at2 0 a i q).
Proof.
  intros Hi; destruct Hshape as [Hl _].
  rewrite nth_map2 with (d1 := 0) (d2 := 0) by (rewrite length_map; lia).
  rewrite !nth_map_lt with (d := []) by lia; reflexivity.
Qed.

End PairAverages.

Lemma next_wrap_last n i : S i = n -> next_wrap n i = O.
Proof. intros <-; unfold next_wrap; rewrite Nat.eqb_refl; reflexivity. Qed.

Lemma next_wrap_inside n i : S i <> n -> next_wrap n i = S i.
Proof.
  intros H; unfold next_wrap.
  destruct (Nat.eqb_spec (S i) n); [contradiction|reflexivity].
Qed.

Lemma DXT_at nlat nlon (HTN : QArray2) i j :
  shape2 nlat nlon HTN -> (i < nlat)%nat -> (j < nlon)%nat ->
  at2 0 (map2 half_sum (nth 0 HTN []) (nth (nlat - 1) HTN [])
         :: lat_pairs HTN nlat) i j
  == average (at2 0 HTN i j) (at2 0 HTN (prev_wrap nlat i) j).
Proof.
  intros H Hi Hj; destruct i as [|i]; cbn [prev_wrap].
  - change (at2 0 (?r :: ?a) 0 j) with (nth j r 0).
    rewrite lat_wrap_at with (nlat := nlat) (nlon := nlon)
      by (assumption || lia).
    apply half_sum_average.
  - change (at2 0 (?r :: ?a) (S i) j) with (at2 0 a i j).
    rewrite lat_pairs_at with (nlon := nlon) by (assumption || lia).
    apply half_sum_average_sym.
Qed.

Lemma DYU_at nlat nlon (HTE : QArray2) i j :
  shape2 nlat nlon HTE -> (i < nlat)%nat -> (j < nlon)%nat ->
  at2 0 (lat_pairs HTE nlat
         ++ [map2 half_sum (nth (nlat - 1) HTE []) (nth 0 HTE [])]) i j
  == average (at2 0 HTE i j) (at2 0 HTE (next_wrap nlat i) j).
Proof.
  intros H Hi Hj.
  pose proof (lat_pairs_shape nlat nlon HTE H) as [Hlen _].
  destruct (Nat.eq_dec (S i) nlat) as [E|E].
  - rewrite (next_wrap_last nlat i E).
    unfold at2 at 1; rewrite app_nth2 by lia.
    replace (i - List.length (lat_pairs HTE nlat))%nat with O by lia.
    cbn [nth].
    rewrite lat_wrap_at with (nlat := nlat) (nlon := nlon)
      by (assumption || lia).
    replace (nlat - 1)%nat with i by lia.
    apply half_sum_average.
  - rewrite (next_wrap_inside nlat i E).
    unfold at2 at 1; rewrite app_nth1 by lia.
    change (nth j (nth i (lat_pairs HTE nlat) []) 0)
      with (at2 0 (lat_pairs HTE nlat) i j).
    rewrite lat_pairs_at with (nlon := nlon) by (assumption || lia).
    apply half_sum_average.
Qed.

Lemma DYT_at nlat nlon (HTE : QArray2) i j :
  shape2 nlat nlon HTE -> (i < nlat)%nat -> (j < nlon)%nat ->
  at2 0 (map2 cons
              (map2 half_sum (map (fun r => nth (nlon - 1) r 0) HTE)
                             (map (fun r => nth 0 r 0) HTE))
              (lon_pairs HTE nlon)) i j
  == average (at2 0 HTE i j) (at2 0 HTE i (prev_wrap nlon j)).
Proof.
  intros H Hi Hj.
  pose proof (lon_pairs_shape nlat nlon HTE H) as [Hlen _].
  pose proof H as [Hl _].
  unfold at2 at 1.
  rewrite nth_map2 with (d1 := 0) (d2 := [])
    by (rewrite ?length_map2, ?length_map; lia).
  rewrite lon_wrap_at with (nlat := nlat) (nlon := nlon) by assumption.
  destruct j as [|j]; cbn [nth prev_wrap].
  - apply half_sum_average_sym.
  - change (nth j (nth i (lon_pairs HTE nlon) []) 0)
      with (at2 0 (lon_pairs HTE nlon) i j).
    rewrite lon_pairs_at with (nlat := nlat) by (assumption || lia).
    apply half_sum_average_sym.
Qed.

Lemma DXU_at nlat nlon (HTN : QArray2) i j :
  shape2 nlat nlon HTN -> (i < nlat)%nat -> (j < nlon)%nat ->
  at2 0 (map2 (fun r x => r ++ [x])
              (lon_pairs HTN nlon)
              (map2 half_sum (map (fun r => nth (nlon - 1) r 0) HTN)
                             (map (fun r => nth 0 r 0) HTN))) i j
  == average (at2 0 HTN i j) (at2 0 HTN i (next_wrap nlon j)).
Proof.
  intros H Hi Hj.
  pose proof (lon_pairs_shape nlat nlon HTN H) as Hs.
  pose proof (shape2_row nlat (nlon - 1) (lon_pairs HTN nlon) i Hs Hi) as Hrow.
  destruct Hs as [Hlen _].
  pose proof H as [Hl _].
  unfold at2 at 1.
  rewrite nth_map2 with (d1 := []) (d2 := 0)
    by (rewrite ?length_map2, ?length_map; lia).
  rewrite lon_wrap_at with (nlat := nlat) (nlon := nlon) by assumption.
  destruct (Nat.eq_dec (S j) nlon) as [E|E].
  - rewrite (next_wrap_last nlon j E).
    rewrite app_nth2 by lia.
    replace (j - List.length (nth i (lon_pairs HTN nlon) []))%nat with O by lia.
    cbn [nth].
    replace (nlon - 1)%nat with j by lia.
    apply half_sum_average.
  - rewrite (next_wrap_inside nlon j E).
    rewrite app_nth1 by lia.
    change (nth j (nth i (lon_pairs HTN nlon) []) 0)
      with (at2 0 (lon_pairs HTN nlon) i j).
    rewrite lon_pairs_at with (nlat := nlat) by (assumption || lia).
    apply half_sum_average.
Qed.

(** C5. On raw widths of shape nlat x nlon the four width arrays are
    defined, and every cell is the average of two adjacent raw widths along
    one axis, with these boundary rules: the center-point widths take the
    neighbour one position back and wrap from row 0 to row nlat - 1 ([DXT])
    and from column 0 to column nlon - 1 ([DYT]); the corner-point widths
    take the neighbour one position on and wrap from column nlon - 1 to
    column 0 ([DXU]) and from row nlat - 1 to row 0 ([DYU]). *)
Theorem cell_width_boundaries (nlat nlon : nat) (HTN HTE : QArray2) :
  (0 < nlat)%nat -> (0 < nlon)%nat ->
  shape2 nlat nlon HTN -> shape2 nlat nlon HTE ->
  exists dxt dyt dxu dyu,
    DXT (Z.of_nat nlat) HTN = Ok dxt
    /\ DYT (Z.of_nat nlon) HTE = Ok dyt
    /\ DXU (Z.of_nat nlon) HTN = Ok dxu
    /\ DYU (Z.of_nat nlat) HTE = Ok dyu
    /\ forall i j, (i < nlat)%nat -> (j < nlon)%nat ->
         at2 0 dxt i j
         == average (at2 0 HTN i j) (at2 0 HTN (prev_wrap nlat i) j)
         /\ at2 0 dyt i j
            == average (at2 0 HTE i j) (at2 0 HTE i (prev_wrap nlon j))
         /\ at2 0 dxu i j
            == average (at2 0 HTN i j) (at2 0 HTN i (next_wrap nlon j))
         /\ at2 0 dyu i j
            == average (at2 0 HTE i j) (at2 0 HTE (next_wrap nlat i) j).
Proof.
  intros Hlat Hlon HN HE.
  do 4 eexists.
  split; [apply DXT_value with (nlon := nlon); assumption|].
  split; [apply DYT_value with (nlat := nlat); assumption|].
  split; [apply DXU_value with (nlat := nlat); assumption|].
  split; [apply DYU_value with (nlon := nlon); assumption|].
  intros i j Hi Hj.
  split; [apply DXT_at with (nlon := nlon); assumption|].
  split; [apply DYT_at with (nlat := nlat); assumption|].
  split; [apply DXU_at with (nlat := nlat); assumption|].
  apply DYU_at with (nlon := nlon); assumption.
Qed.

Lemma cell_width_boundaries_witness :
  ((0 < 2)%nat /\ (0 < 3)%nat /\ shape2 2 3 htn_2x3 /\ shape2 2 3 hte_2x3)
  /\ exists dxt dyt dxu dyu,
       DXT 2 htn_2x3 = Ok dxt
       /\ DYT 3 hte_2x3 = Ok dyt
       /\ DXU 3 htn_2x3 = Ok dxu
       /\ DYU 2 hte_2x3 = Ok dyu
       /\ forall i j, (i < 2)%nat -> (j < 3)%nat ->
            at2 0 dxt i j
            == average (at2 0 htn_2x3 i j) (at2 0 htn_2x3 (prev_wrap 2 i) j)
            /\ at2 0 dyt i j
               == average (at2 0 hte_2x3 i j) (at2 0 hte_2x3 i (prev_wrap 3 j))
            /\ at2 0 dxu i j
               == average (at2 0 htn_2x3 i j) (at2 0 htn_2x3 i (next_wrap 3 j))
            /\ at2 0 dyu i j
               == average (at2 0 hte_2x3 i j) (at2 0 hte_2x3 (next_wrap 2 i) j).
Proof.
  assert (HN : shape2 2 3 htn_2x3) by (split; [reflexivity|repeat constructor]).
  assert (HE : shape2 2 3 hte_2x3) by (split; [reflexivity|repeat constructor]).
  assert (H2 : (0 < 2)%nat) by lia.
  assert (H3 : (0 < 3)%nat) by lia.
  split; [split; [|split; [|split]]; assumption|].
  exact (cell_width_boundaries 2 3 htn_2x3 hte_2x3 H2 H3 HN HE).
Defined.

Lemma wrap_same n i : wrap n (Z.of_nat i) = i.
Proof.
  unfold wrap; destruct (Z.ltb_spec (Z.of_nat i) 0); lia.
Qed.

Lemma wrap_back n i : (i < n)%nat -> wrap n (Z.of_nat i - 1) = prev_wrap n i.
Proof.
  intros Hi; unfold wrap, prev_wrap.
  destruct (Z.ltb_spec (Z.of_nat i - 1) 0); destruct i; lia.
Qed.

Lemma prev_wrap_lt n i : (i < n)%nat -> (prev_wrap n i < n)%nat.
Proof. destruct i; simpl; lia. Qed.

Lemma getitem2_at nlat nlon (KMT : Array2 Z) (zi zj : Z) :
  shape2 nlat nlon KMT -> (wrap nlat zi < nlat)%nat ->
  getitem2 KMT zi zj = at2 0%Z KMT (wrap nlat zi) (wrap nlon zj).
Proof.
  intros H Hi; unfold getitem2, at2.
  pose proof H as [Hl _]; rewrite Hl.
  rewrite (shape2_row nlat nlon KMT (wrap nlat zi) H Hi); reflexivity.
Qed.

Lemma generate_KMU_at nlat nlon (KMT : Array2 Z) i j :
  shape2 nlat nlon KMT -> (i < nlat)%nat -> (j < nlon)%nat ->
  at2 0%Z (_generate_KMU KMT) i j
  = min4 (at2 0%Z KMT i j)
         (at2 0%Z KMT (prev_wrap nlat i) j)
         (at2 0%Z KMT i (prev_wrap nlon j))
         (at2 0%Z KMT (prev_wrap nlat i) (prev_wrap nlon j)).
Proof.
  intros H Hi Hj.
  assert (Hhd : List.length (hd [] KMT) = nlon).
  { destruct KMT as [|r KMT]; [destruct H; simpl in *; lia|].
    exact (shape2_row nlat nlon (r :: KMT) 0 H ltac:(lia)). }
  pose proof H as [Hl _].
  unfold _generate_KMU, at2; rewrite Hl, Hhd.
  rewrite nth_map_lt with (d := O) by (rewrite length_seq; exact Hi).
  rewrite nth_map_lt with (d := O) by (rewrite length_seq; exact Hj).
  rewrite !seq_nth by assumption; cbn [Nat.add].
  rewrite !getitem2_at with (nlat := nlat) (nlon := nlon);
    rewrite ?wrap_same, ?wrap_back; try assumption;
    try apply prev_wrap_lt; try assumption.
  reflexivity.
Qed.

(** The cells that [_generate_KMU] reads.  On a topography of shape
    nlat x nlon, the corner-point index at the
    cell (i, j) is the minimum of the center-point indices of the four
    cells (i, j), (i - 1, j), (i, j - 1) and (i - 1, j - 1), the row before
    row 0 being the last row and the column before column 0 the last
    column; hence it is at most each of the four and equal to one of
    them. *)
Lemma KMU_min_of_four (nlat nlon : nat) (KMT : Array2 Z) (i j : nat) :
  shape2 nlat nlon KMT -> (i < nlat)%nat -> (j < nlon)%nat ->
  at2 0%Z (_generate_KMU KMT) i j
  = Z.min (Z.min (at2 0%Z KMT i j) (at2 0%Z KMT (prev_wrap nlat i) j))
          (Z.min (at2 0%Z KMT i (prev_wrap nlon j))
                 (at2 0%Z KMT (prev_wrap nlat i) (prev_wrap nlon j)))
  /\ (at2 0%Z (_generate_KMU KMT) i j <= at2 0%Z KMT i j)%Z
  /\ (at2 0%Z (_generate_KMU KMT) i j <= at2 0%Z KMT (prev_wrap nlat i) j)%Z
  /\ (at2 0%Z (_generate_KMU KMT) i j <= at2 0%Z KMT i (prev_wrap nlon j))%Z
  /\ (at2 0%Z (_generate_KMU KMT) i j
      <= at2 0%Z KMT (prev_wrap nlat i) (prev_wrap nlon j))%Z
  /\ shape2 nlat nlon (_generate_KMU KMT).
Proof.
  intros H Hi Hj.
  rewrite (generate_KMU_at nlat nlon KMT i j H Hi Hj); unfold min4.
  repeat split; try lia.
  - unfold _generate_KMU; rewrite length_map, length_seq; apply H.
  - apply Forall_forall; intros r Hr.
    unfold _generate_KMU in Hr.
    apply in_map_iff in Hr; destruct Hr as (i' & <- & _).
    rewrite length_map, length_seq.
    destruct KMT as [|r KMT]; [destruct H; simpl in *; lia|].
    exact (shape2_row nlat nlon (r :: KMT) 0 H ltac:(lia)).
Qed.

Lemma KMU_min_of_four_witness :
  (shape2 2 3 kmt_2x3 /\ (0 < 2)%nat /\ (1 < 3)%nat)
  /\ at2 0%Z (_generate_KMU kmt_2x3) 0 1 = 1%Z.
Proof.
  assert (H : shape2 2 3 kmt_2x3) by (split; [reflexivity|repeat constructor]).
  assert (Hi : (0 < 2)%nat) by lia.
  assert (Hj : (1 < 3)%nat) by lia.
  split; [split; [|split]; assumption|].
  destruct (KMU_min_of_four 2 3 kmt_2x3 0 1 H Hi Hj) as [-> _].
  reflexivity.
Defined.

End GridProofs.

(** ** The vertical grid *)

Module VerticalGridProofs.
Import Xr XrFacts Budget Geometry Spec MoreExamples.

Lemma length_cumsum_from acc l :
  List.length (cumsum_from acc l) = List.length l.
Proof.
  revert acc; induction l as [|x l IH]; intros acc; simpl; [reflexivity|].
  rewrite IH; reflexivity.
Qed.

Lemma length_cumsum l : List.length (cumsum l) = List.length l.
Proof. destruct l; simpl; [reflexivity|rewrite length_cumsum_from; reflexivity]. Qed.

Lemma z_w_firstn dz : z_w dz = firstn (List.length dz) (0 :: cumsum dz).
Proof.
  unfold z_w, depth_edges, slice0; change (-1 <? 0)%Z with true; cbv iota.
  f_equal; cbn [List.length]; rewrite length_cumsum; lia.
Qed.

Lemma length_z_w dz : List.length (z_w dz) = List.length dz.
Proof.
  rewrite z_w_firstn, length_firstn; cbn [List.length].
  rewrite length_cumsum; lia.
Qed.

Lemma length_z_w_bot dz : List.length (z_w_bot dz) = List.length dz.
Proof. apply length_cumsum. Qed.

Lemma nth_z_w dz k :
  (k < List.length dz)%nat -> nth k (z_w dz) 0 = nth k (0 :: cumsum dz) 0.
Proof.
  intros Hk; rewrite z_w_firstn, nth_firstn.
  destruct (Nat.ltb_spec k (List.length dz)); [reflexivity|lia].
Qed.

Lemma nth_cumsum_from l :
  forall acc k, (k < List.length l)%nat ->
    nth k (cumsum_from acc l) 0
    = nth k (acc :: cumsum_from acc l) 0 + nth k l 0.
Proof.
  induction l as [|x l IH]; intros acc k Hk; simpl in Hk; [lia|].
  destruct k as [|k]; [reflexivity|].
  cbn [cumsum_from nth].
  rewrite IH by lia; reflexivity.
Qed.

Lemma cumsum_step dz k :
  (S k < List.length dz)%nat ->
  nth (S k) (cumsum dz) 0 = nth k (cumsum dz) 0 + nth (S k) dz 0.
Proof.
  destruct dz as [|x l]; simpl List.length; intros Hk; [lia|].
  cbn [cumsum nth].
  rewrite nth_cumsum_from by lia; reflexivity.
Qed.

Lemma bottom_is_top_plus_thickness dz k :
  (k < List.length dz)%nat ->
  nth k (z_w_bot dz) 0 == nth k (z_w dz) 0 + nth k dz 0.
Proof.
  intros Hk; rewrite nth_z_w by exact Hk.
  unfold z_w_bot, depth_edges; cbn [skipn].
  destruct k as [|k]; cbn [nth].
  - destruct dz as [|x l]; [simpl in Hk; lia|]; cbn [cumsum nth]; ring.
  - rewrite cumsum_step by exact Hk; reflexivity.
Qed.

(** X1. The layer depths that [get_grid] derives from the thicknesses [dz]:
    there is one top, one bottom and one mid depth per layer; the first
    layer starts at depth zero; every layer starts where the layer above it
    ends; and the bottom of a layer is its top plus its thickness. *)
Theorem vertical_grid_edges (dz : list Q) (k : nat) :
  (k < List.length dz)%nat ->
  List.length (z_w dz) = List.length dz
  /\ List.length (z_w_bot dz) = List.length dz
  /\ List.length (z_t dz) = List.length dz
  /\ nth 0 (z_w dz) 0 = 0
  /\ ((S k < List.length dz)%nat ->
      nth (S k) (z_w dz) 0 = nth k (z_w_bot dz) 0)
  /\ nth k (z_w_bot dz) 0 == nth k (z_w dz) 0 + nth k dz 0.
Proof.
  intros Hk.
  split; [apply length_z_w|].
  split; [apply length_z_w_bot|].
  split; [unfold z_t; rewrite length_map2, length_z_w; lia|].
  split; [rewrite nth_z_w by lia; reflexivity|].
  split; [intros HS; rewrite nth_z_w by lia; reflexivity|].
  apply bottom_is_top_plus_thickness; exact Hk.
Qed.

Lemma vertical_grid_edges_witness :
  (1 < List.length dz_three_layers)%nat
  /\ nth 1 (z_w_bot dz_three_layers) 0 == nth 1 (z_w dz_three_layers) 0 + 10.
Proof.
  assert (H : (1 < List.length dz_three_layers)%nat) by (simpl; lia).
  split; [exact H|].
  destruct (vertical_grid_edges dz_three_layers 1 H) as (_ & _ & _ & _ & _ & E).
  exact E.
Defined.

Lemma cumsum_from_increasing l :
  forall acc, Forall (fun d => 0 < d) l ->
    strictly_increasing (acc :: cumsum_from acc l).
Proof.
  induction l as [|x l IH]; intros acc Hpos; [simpl; auto|].
  inversion Hpos as [|? ? Hx Hl]; subst.
  cbn [cumsum_from]; split; [|apply IH; exact Hl].
  rewrite <- (Qplus_0_r acc) at 1.
  apply Qplus_lt_r; exact Hx.
Qed.

Lemma z_w_bot_increasing (dz : list Q) :
  Forall (fun d => 0 < d) dz -> strictly_increasing (z_w_bot dz).
Proof.
  intros Hpos; unfold z_w_bot, depth_edges; cbn [skipn].
  destruct dz as [|x l]; [exact I|].
  inversion Hpos; subst.
  apply cumsum_from_increasing; assumption.
Qed.

(** X2. When every layer has a positive thickness, the layer bottom depths
    are strictly increasing, as the depth-limit search assumes. *)
Theorem layer_bottoms_increasing (dz : list Q) :
  Forall (fun d => 0 < d) dz -> strictly_increasing (z_w_bot dz).
Proof. apply z_w_bot_increasing. Qed.

Lemma layer_bottoms_increasing_witness :
  Forall (fun d => 0 < d) dz_three_layers
  /\ strictly_increasing (z_w_bot dz_three_layers).
Proof.
  assert (H : Forall (fun d => 0 < d) dz_three_layers)
    by (repeat constructor).
  split; [exact H|].
  exact (layer_bottoms_increasing dz_three_layers H).
Defined.

(** X3. The mid depth of a layer is half-way between its top and its
    bottom. *)
Theorem mid_depth_is_midpoint (dz : list Q) (k : nat) :
  (k < List.length dz)%nat ->
  nth k (z_t dz) 0 == (nth k (z_w dz) 0 + nth k (z_w_bot dz) 0) / 2.
Proof.
  intros Hk.
  rewrite (bottom_is_top_plus_thickness dz k Hk); unfold z_t.
  rewrite nth_map2 with (d1 := 0) (d2 := 0) by (rewrite ?length_z_w; exact Hk).
  field.
Qed.

Lemma mid_depth_is_midpoint_witness :
  (1 < List.length dz_three_layers)%nat
  /\ nth 1 (z_t dz_three_layers) 0
     == (nth 1 (z_w dz_three_layers) 0 + nth 1 (z_w_bot dz_three_layers) 0) / 2.
Proof.
  assert (H : (1 < List.length dz_three_layers)%nat) by (simpl; lia).
  split; [exact H|].
  exact (mid_depth_is_midpoint dz_three_layers 1 H).
Defined.

(** X4. On a grid whose layers all have a positive thickness, a budget
    depth (in metres) that is exactly the bottom depth (in centimetres) of a
    layer [k] other than the deepest sets the depth limit to [k], and the
    region mask to the cells of the classification that equal [mask_int]. *)
Theorem depth_request_at_layer_bottom
        (dz : list Q) (TAREA : QArray2) (REGION_MASK : Array2 Z)
        (mask_int : Z) (budget_depth : Q) (k : nat) :
  Forall (fun d => 0 < d) dz ->
  (S k < List.length dz)%nat ->
  budget_depth * 100 == nth k (z_w_bot dz) 0 ->
  regional_tracer_budget_setup
    (Terms._process_grid dz TAREA (z_w_bot dz) REGION_MASK)
    None (Some mask_int) (Some budget_depth)
  = Ok (map (map (fun v => Z.eqb v mask_int)) REGION_MASK, Some (Z.of_nat k)).
Proof.
  intros Hpos Hk Hd.
  unfold regional_tracer_budget_setup, Terms._process_grid; cbn [grid_z grid_mask].
  assert (Hne : z_w_bot dz <> []).
  { intros E; pose proof (length_z_w_bot dz) as L; rewrite E in L; simpl in L; lia. }
  rewrite DepthLimitProofs.compute_kmax_first_exceeding by exact Hne.
  rewrite (DepthLimitProofs.exceeding_after_layer
             (z_w_bot dz) (budget_depth * 100) k (nth k (z_w_bot dz) 0)).
  - reflexivity.
  - apply z_w_bot_increasing; exact Hpos.
  - apply nth_error_nth'; rewrite length_z_w_bot; lia.
  - symmetry; exact Hd.
  - rewrite length_z_w_bot; exact Hk.
Qed.

Lemma depth_request_at_layer_bottom_witness :
  (Forall (fun d => 0 < d) dz_three_layers
   /\ (2 < List.length dz_three_layers)%nat
   /\ (2 # 10) * 100 == nth 1 (z_w_bot dz_three_layers) 0)
  /\ regional_tracer_budget_setup
       (Terms._process_grid dz_three_layers [[1; 1]]
                            (z_w_bot dz_three_layers) [[1; 2]]%Z)
       None (Some 2%Z) (Some (2 # 10))
     = Ok ([[false; true]], Some 1%Z).
Proof.
  assert (H1 : Forall (fun d => 0 < d) dz_three_layers) by (repeat constructor).
  assert (H2 : (2 < List.length dz_three_layers)%nat) by (simpl; lia).
  assert (H3 : (2 # 10) * 100 == nth 1 (z_w_bot dz_three_layers) 0)
    by reflexivity.
  split; [split; [|split]; assumption|].
  exact (depth_request_at_layer_bottom dz_three_layers [[1; 1]] [[1; 2]]%Z
                                       2%Z (2 # 10) 1 H1 H2 H3).
Defined.

End VerticalGridProofs.

(** ** More facts about the array primitives *)

Module ArrayFacts.
Import Xr XrFacts Spec.

Lemma length_roll {A} s (l : list A) : List.length (roll s l) = List.length l.
Proof.
  unfold roll; rewrite length_app, length_skipn, length_firstn; lia.
Qed.

Lemma prev_wrap_in_range n i : (i < n)%nat -> (prev_wrap n i < n)%nat.
Proof. destruct i; simpl; lia. Qed.

Lemma next_wrap_in_range n i : (i < n)%nat -> (next_wrap n i < n)%nat.
Proof.
  intros Hi; unfold next_wrap; destruct (Nat.eqb_spec (S i) n); lia.
Qed.

Lemma next_prev_wrap n i : (i < n)%nat -> next_wrap n (prev_wrap n i) = i.
Proof.
  intros Hi; unfold next_wrap, prev_wrap; destruct i as [|i].
  - replace (S (n - 1)) with n by lia; rewrite Nat.eqb_refl; reflexivity.
  - destruct (Nat.eqb_spec (S i) n); [lia|reflexivity].
Qed.

(** [roll] by one position: the element comes from the position before, the
    first from the last. *)
Lemma nth_roll_forward {A} (l : list A) (d : A) i :
  (i < List.length l)%nat ->
  nth i (roll 1 l) d = nth (prev_wrap (List.length l) i) l d.
Proof.
  intros Hi; unfold roll; cbv zeta.
  set (n := List.length l) in *.
  assert (Hk : Z.to_nat ((- 1) mod Z.of_nat n) = (n - 1)%nat).
  { assert (E : ((- 1) mod Z.of_nat n = Z.of_nat n - 1)%Z).
    { symmetry; apply Z.mod_unique with (q := (-1)%Z); lia. }
    rewrite E; lia. }
  change (Z.opp 1) with (-1)%Z; rewrite Hk.
  destruct i as [|i]; cbn [prev_wrap].
  - rewrite app_nth1 by (rewrite length_skipn; fold n; lia).
    rewrite nth_skipn; f_equal; lia.
  - rewrite app_nth2 by (rewrite length_skipn; fold n; lia).
    rewrite length_skipn; fold n.
    rewrite nth_firstn.
    replace (S i - (n - (n - 1)))%nat with i by lia.
    destruct (Nat.ltb_spec i (n - 1)); [reflexivity|lia].
Qed.

(** [roll] by minus one position: the element comes from the position
    after, the last from the first. *)
Lemma nth_roll_backward {A} (l : list A) (d : A) i :
  (i < List.length l)%nat ->
  nth i (roll (-1) l) d = nth (next_wrap (List.length l) i) l d.
Proof.
  intros Hi; unfold roll; cbv zeta.
  set (n := List.length l) in *.
  change (Z.opp (-1)) with 1%Z.
  destruct (Nat.eq_dec n 1) as [E1|E1].
  - rewrite E1; change (Z.to_nat (1 mod Z.of_nat 1)) with O.
    cbn [skipn firstn]; rewrite app_nil_r.
    assert (i = O) by lia; subst i; reflexivity.
  - assert (Hk : Z.to_nat (1 mod Z.of_nat n) = 1%nat).
    { rewrite Z.mod_small by lia; reflexivity. }
    rewrite Hk; unfold next_wrap.
    destruct (Nat.eqb_spec (S i) n) as [E|E].
    + rewrite app_nth2 by (rewrite length_skipn; fold n; lia).
      rewrite length_skipn; fold n.
      replace (i - (n - 1))%nat with O by lia.
      subst n; destruct l; [simpl in Hi; lia|reflexivity].
    + rewrite app_nth1 by (rewrite length_skipn; fold n; lia).
      rewrite nth_skipn; reflexivity.
Qed.

Lemma mapM_ok {A B} (f : A -> result B) (g : A -> B) (l : list A) :
  Forall (fun a => f a = Ok (g a)) l -> mapM f l = Ok (map g l).
Proof.
  induction 1 as [|a l Ha Hl IH]; simpl; [reflexivity|].
  rewrite Ha, IH; reflexivity.
Qed.

Lemma align_with_ok {A B C} (f : A -> B -> result C) (g : A -> B -> C)
      (l1 : list A) (l2 : list B) :
  Forall2 (fun a b => f a b = Ok (g a b)) l1 l2 ->
  align_with f l1 l2 = Ok (map2 g l1 l2).
Proof.
  induction 1 as [|a b l1 l2 Hab Hl IH]; simpl; [reflexivity|].
  rewrite Hab, IH; reflexivity.
Qed.

Lemma shape3_layers_aligned {A B} nz ny nx (a : Array3 A) (b : Array3 B) :
  shape3 nz ny nx a -> shape3 nz ny nx b ->
  Forall2 (fun s1 s2 => shape2 ny nx s1 /\ shape2 ny nx s2) a b.
Proof.
  intros [Ha Fa]; revert nz Ha b.
  induction Fa as [|s a Hs Fa IH]; intros nz Ha b [Hb Fb].
  - destruct b; [constructor | simpl in *; lia].
  - destruct b as [|s' b]; [simpl in *; lia|].
    inversion Fb; subst; constructor; [split; assumption|].
    apply IH with (nz := List.length a); [reflexivity|].
    split; [simpl in *; lia | assumption].
Qed.

Lemma zip3_ok {A B C} (f : A -> B -> C) nz ny nx
      (a : Array3 A) (b : Array3 B) :
  shape3 nz ny nx a -> shape3 nz ny nx b ->
  zip3 f a b = Ok (map2 (map2 (map2 f)) a b).
Proof.
  intros Ha Hb; unfold zip3.
  apply align_with_ok.
  eapply Forall2_impl; [|apply (shape3_layers_aligned nz ny nx a b Ha Hb)].
  intros s1 s2 [H1 H2]; cbv beta.
  apply zip2_ok, shape2_same_rows with (ny := ny) (nx := nx); assumption.
Qed.

Lemma map2_shape3 {A B C} (f : A -> B -> C) nz ny nx
      (a : Array3 A) (b : Array3 B) :
  shape3 nz ny nx a -> shape3 nz ny nx b ->
  shape3 nz ny nx (map2 (map2 (map2 f)) a b).
Proof.
  intros [Ha Fa] [Hb Fb]; split; [rewrite length_map2; lia|].
  apply Forall_map2 with (2 := Fa) (3 := Fb); cbv beta.
  intros s1 s2; apply map2_shape2.
Qed.

Lemma at3_map2 {A B C} (f : A -> B -> C) (d1 : A) (d2 : B) (d : C) nz ny nx
      (a : Array3 A) (b : Array3 B) k i j :
  shape3 nz ny nx a -> shape3 nz ny nx b ->
  (k < nz)%nat -> (i < ny)%nat -> (j < nx)%nat ->
  at3 d (map2 (map2 (map2 f)) a b) k i j = f (at3 d1 a k i j) (at3 d2 b k i j).
Proof.
  intros Ha Hb Hk Hi Hj; unfold at3.
  pose proof (shape3_layer nz ny nx a k Ha Hk) as Sa.
  pose proof (shape3_layer nz ny nx b k Hb Hk) as Sb.
  destruct Ha as [La _], Hb as [Lb _].
  rewrite nth_map2 with (d1 := []) (d2 := []) by lia.
  apply at2_map2 with (ny := ny) (nx := nx); assumption.
Qed.

Lemma where3_ok nz ny nx (da : Field3) (mask : Mask) :
  shape3 nz ny nx da -> shape2 ny nx mask ->
  where3 da mask = Ok (map (fun slab => map2 (map2 keep) slab mask) da).
Proof.
  intros [_ Fa] Hm; unfold where3.
  apply mapM_ok.
  eapply Forall_impl; [|exact Fa].
  intros slab Hs; cbv beta; unfold where2.
  apply zip2_ok, shape2_same_rows with (ny := ny) (nx := nx); assumption.
Qed.

Lemma where3_shape nz ny nx (da : Field3) (mask : Mask) :
  shape3 nz ny nx da -> shape2 ny nx mask ->
  shape3 nz ny nx (map (fun slab => map2 (map2 keep) slab mask) da).
Proof.
  intros [La Fa] Hm; split; [rewrite length_map; exact La|].
  rewrite Forall_forall in *; intros s Hs.
  apply in_map_iff in Hs; destruct Hs as (s0 & <- & H0).
  apply map2_shape2; [apply Fa, H0 | exact Hm].
Qed.

Lemma where3_at nz ny nx (da : Field3) (mask : Mask) k i j :
  shape3 nz ny nx da -> shape2 ny nx mask ->
  (k < nz)%nat -> (i < ny)%nat -> (j < nx)%nat ->
  at3 None (map (fun slab => map2 (map2 keep) slab mask) da) k i j
  = keep (at3 None da k i j) (at2 false mask i j).
Proof.
  intros Ha Hm Hk Hi Hj; unfold at3.
  pose proof (shape3_layer nz ny nx da k Ha Hk) as Sa.
  destruct Ha as [La _].
  rewrite nth_indep with (d' := map2 (map2 keep) [] mask)
    by (rewrite length_map; lia).
  rewrite (map_nth (fun slab => map2 (map2 keep) slab mask)).
  apply at2_map2 with (ny := ny) (nx := nx); assumption.
Qed.

End ArrayFacts.

(** ** Horizontal divergence, cell by cell *)

Module HorizontalProofs.
Import Xr XrFacts ArrayFacts Budget Spec Examples MoreExamples.

Lemma roll_shape2_rows {A} s ny nx (a : Array2 A) :
  shape2 ny nx a -> shape2 ny nx (roll s a).
Proof.
  intros [La Fa]; split; [rewrite length_roll; exact La|].
  rewrite Forall_forall in *; intros r Hr; apply Fa.
  unfold roll in Hr; apply in_app_or in Hr.
  rewrite <- (firstn_skipn (Z.to_nat ((- s) mod Z.of_nat (List.length a))) a).
  apply in_or_app; tauto.
Qed.

Lemma roll_shape2_cols {A} s ny nx (a : Array2 A) :
  shape2 ny nx a -> shape2 ny nx (map (roll s) a).
Proof.
  apply shape2_map; intros r Hr; rewrite length_roll; exact Hr.
Qed.

Lemma roll3_nlon_shape {A} s nz ny nx (a : Array3 A) :
  shape3 nz ny nx a -> shape3 nz ny nx (roll3_nlon s a).
Proof.
  intros [La Fa]; split; [unfold roll3_nlon; rewrite length_map; exact La|].
  rewrite Forall_forall in *; intros slab Hs.
  apply in_map_iff in Hs; destruct Hs as (s0 & <- & H0).
  apply roll_shape2_cols, Fa, H0.
Qed.

Lemma at2_roll_cols_forward {A} (d : A) ny nx (a : Array2 A) i j :
  shape2 ny nx a -> (i < ny)%nat -> (j < nx)%nat ->
  at2 d (map (roll 1) a) i j = at2 d a i (prev_wrap nx j).
Proof.
  intros H Hi Hj.
  pose proof (shape2_row ny nx a i H Hi) as Hr.
  destruct H as [La _].
  rewrite at2_map with (d := d) by lia.
  rewrite nth_roll_forward by lia.
  rewrite Hr; reflexivity.
Qed.

Lemma at2_roll_cols_backward {A} (d : A) ny nx (a : Array2 A) i j :
  shape2 ny nx a -> (i < ny)%nat -> (j < nx)%nat ->
  at2 d (map (roll (-1)) a) i j = at2 d a i (next_wrap nx j).
Proof.
  intros H Hi Hj.
  pose proof (shape2_row ny nx a i H Hi) as Hr.
  destruct H as [La _].
  rewrite at2_map with (d := d) by lia.
  rewrite nth_roll_backward by lia.
  rewrite Hr; reflexivity.
Qed.

Lemma at2_roll_rows_backward {A} (d : A) ny nx (a : Array2 A) i j :
  shape2 ny nx a -> (i < ny)%nat ->
  at2 d (roll (-1) a) i j = at2 d a (next_wrap ny i) j.
Proof.
  intros [La _] Hi; unfold at2.
  rewrite nth_roll_backward by lia.
  rewrite La; reflexivity.
Qed.

Lemma at3_roll3_nlon_forward {A} (d : A) nz ny nx (a : Array3 A) k i j :
  shape3 nz ny nx a -> (k < nz)%nat -> (i < ny)%nat -> (j < nx)%nat ->
  at3 d (roll3_nlon 1 a) k i j = at3 d a k i (prev_wrap nx j).
Proof.
  intros H Hk Hi Hj; unfold at3, roll3_nlon, roll2_nlon.
  pose proof (shape3_layer nz ny nx a k H Hk) as Hs.
  destruct H as [La _].
  rewrite nth_indep with (d' := map (roll 1) []) by (rewrite length_map; lia).
  rewrite (map_nth (map (roll 1))).
  apply at2_roll_cols_forward with (ny := ny); assumption.
Qed.

(** The body that the two branches of the source share, for a shifted mask
    of the shape of the mask. *)
Lemma masked_difference_at nz ny nx (da : Field3) (m_roll mask : Mask) :
  shape3 nz ny nx da -> shape2 ny nx m_roll -> shape2 ny nx mask ->
  exists r,
    (a <- where3 da m_roll ;;
     b <- where3 da mask ;;
     sub3 (roll3_nlon 1 a) b) = Ok r
    /\ shape3 nz ny nx r
    /\ forall k i j, (k < nz)%nat -> (i < ny)%nat -> (j < nx)%nat ->
         at3 None r k i j
         = cell_sub (keep (at3 None da k i (prev_wrap nx j))
                          (at2 false m_roll i (prev_wrap nx j)))
                    (keep (at3 None da k i j) (at2 false mask i j)).
Proof.
  intros Hda Hroll Hmask.
  rewrite (where3_ok nz ny nx da m_roll Hda Hroll).
  rewrite (where3_ok nz ny nx da mask Hda Hmask).
  cbn [bind].
  pose proof (where3_shape nz ny nx da m_roll Hda Hroll) as Sa.
  pose proof (where3_shape nz ny nx da mask Hda Hmask) as Sb.
  pose proof (roll3_nlon_shape 1 nz ny nx _ Sa) as Sr.
  unfold sub3; rewrite (zip3_ok cell_sub nz ny nx _ _ Sr Sb).
  eexists; split; [reflexivity|].
  split; [apply map2_shape3; assumption|].
  intros k i j Hk Hi Hj.
  rewrite at3_map2 with (d1 := None) (d2 := None) (nz := nz) (ny := ny) (nx := nx)
    by assumption.
  rewrite at3_roll3_nlon_forward with (nz := nz) (ny := ny) (nx := nx)
    by assumption.
  rewrite !where3_at with (nz := nz) (ny := ny) (nx := nx);
    try assumption; try (apply prev_wrap_in_range; assumption).
  reflexivity.
Qed.

(** X5. The zonal divergence of a field of shape nz x ny x nx under a mask
    of shape ny x nx is defined and has the shape of the field; in a cell of
    the region it is the flux of the western neighbour, which for the first
    column is the last column, minus the flux of the cell; outside the
    region it is NaN. *)
Theorem zonal_divergence_cells (nz ny nx : nat) (da : Field3) (mask : Mask) :
  shape3 nz ny nx da -> shape2 ny nx mask ->
  exists r,
    _compute_horizontal_divergence da mask (Some "zonal") = Ok r
    /\ shape3 nz ny nx r
    /\ forall k i j, (k < nz)%nat -> (i < ny)%nat -> (j < nx)%nat ->
         at3 None r k i j
         = if at2 false mask i j
           then cell_sub (at3 None da k i (prev_wrap nx j)) (at3 None da k i j)
           else None.
Proof.
  intros Hda Hmask.
  destruct (masked_difference_at nz ny nx da (roll2_nlon (-1) mask) mask Hda
              (roll_shape2_cols (-1) ny nx mask Hmask) Hmask)
    as (r & Hr & Hs & Hat).
  exists r; split; [exact Hr|]; split; [exact Hs|].
  intros k i j Hk Hi Hj.
  rewrite (Hat k i j Hk Hi Hj); unfold roll2_nlon.
  rewrite at2_roll_cols_backward with (ny := ny) (nx := nx);
    try assumption; try (apply prev_wrap_in_range; assumption).
  rewrite next_prev_wrap by exact Hj.
  destruct (at2 false mask i j); reflexivity.
Qed.

Lemma shape_1x2x2 (a b c d : cell) : shape3 1 2 2 [[[a; b]; [c; d]]].
Proof. split; [reflexivity|]; repeat constructor. Qed.

Lemma shape_2x2 {A} (a b c d : A) : shape2 2 2 [[a; b]; [c; d]].
Proof. split; [reflexivity|]; repeat constructor. Qed.

Lemma zonal_divergence_cells_witness :
  (shape3 1 2 2 flux_2x2 /\ shape2 2 2 mask_2x2)
  /\ exists r,
       _compute_horizontal_divergence flux_2x2 mask_2x2 (Some "zonal") = Ok r
       /\ shape3 1 2 2 r
       /\ forall k i j, (k < 1)%nat -> (i < 2)%nat -> (j < 2)%nat ->
            at3 None r k i j
            = if at2 false mask_2x2 i j
              then cell_sub (at3 None flux_2x2 k i (prev_wrap 2 j))
                            (at3 None flux_2x2 k i j)
              else None.
Proof.
  split; [split; [apply shape_1x2x2 | apply shape_2x2]|].
  exact (zonal_divergence_cells 1 2 2 flux_2x2 mask_2x2
           (shape_1x2x2 _ _ _ _) (shape_2x2 _ _ _ _)).
Defined.

(** X6. On a spatially uniform field, every cell of the horizontal
    divergence, zonal or meridional, is zero or NaN. *)
Theorem uniform_flux_no_divergence
        (nz ny nx : nat) (da : Field3) (mask : Mask) (v : Q) (direction : string) :
  shape3 nz ny nx da -> shape2 ny nx mask ->
  (forall k i j, (k < nz)%nat -> (i < ny)%nat -> (j < nx)%nat ->
     cell_eq (at3 None da k i j) (Some v)) ->
  direction = "zonal" \/ direction = "meridional" ->
  exists r,
    _compute_horizontal_divergence da mask (Some direction) = Ok r
    /\ shape3 nz ny nx r
    /\ forall k i j, (k < nz)%nat -> (i < ny)%nat -> (j < nx)%nat ->
         at3 None r k i j = None \/ cell_eq (at3 None r k i j) (Some 0).
Proof.
  intros Hda Hmask Hv Hdir.
  assert (Hbody : forall m_roll, shape2 ny nx m_roll ->
    exists r,
      (a <- where3 da m_roll ;; b <- where3 da mask ;; sub3 (roll3_nlon 1 a) b)
      = Ok r
      /\ shape3 nz ny nx r
      /\ forall k i j, (k < nz)%nat -> (i < ny)%nat -> (j < nx)%nat ->
           at3 None r k i j = None \/ cell_eq (at3 None r k i j) (Some 0)).
  { intros m_roll Hroll.
    destruct (masked_difference_at nz ny nx da m_roll mask Hda Hroll Hmask)
      as (r & Hr & Hs & Hat).
    exists r; split; [exact Hr|]; split; [exact Hs|].
    intros k i j Hk Hi Hj; rewrite (Hat k i j Hk Hi Hj).
    pose proof (Hv k i (prev_wrap nx j) Hk Hi (prev_wrap_in_range nx j Hj)) as Hw.
    pose proof (Hv k i j Hk Hi Hj) as Hc.
    destruct (at3 None da k i (prev_wrap nx j)) as [w|]; [|contradiction].
    destruct (at3 None da k i j) as [c|]; [|contradiction].
    simpl in Hw, Hc.
    destruct (at2 false m_roll i (prev_wrap nx j)), (at2 false mask i j);
      simpl; auto.
    right; rewrite Hw, Hc; ring. }
  destruct Hdir as [-> | ->]; unfold _compute_horizontal_divergence;
    simpl String.eqb; cbv iota; apply Hbody.
  - apply roll_shape2_cols; exact Hmask.
  - apply roll_shape2_rows; exact Hmask.
Qed.

Lemma uniform_2x2_cells :
  forall k i j, (k < 1)%nat -> (i < 2)%nat -> (j < 2)%nat ->
    cell_eq (at3 None uniform_2x2 k i j) (Some 5).
Proof.
  intros k i j Hk Hi Hj.
  destruct k as [|k]; [|lia].
  destruct i as [|[|i]]; [| |lia]; destruct j as [|[|j]]; try lia; reflexivity.
Qed.

Lemma uniform_flux_no_divergence_witness :
  (shape3 1 2 2 uniform_2x2 /\ shape2 2 2 mask_2x2
   /\ (forall k i j, (k < 1)%nat -> (i < 2)%nat -> (j < 2)%nat ->
         cell_eq (at3 None uniform_2x2 k i j) (Some 5))
   /\ ("meridional" = "zonal" \/ "meridional" = "meridional"))
  /\ exists r,
       _compute_horizontal_divergence uniform_2x2 mask_2x2 (Some "meridional")
       = Ok r
       /\ shape3 1 2 2 r
       /\ forall k i j, (k < 1)%nat -> (i < 2)%nat -> (j < 2)%nat ->
            at3 None r k i j = None \/ cell_eq (at3 None r k i j) (Some 0).
Proof.
  split;
    [split; [apply shape_1x2x2|split; [apply shape_2x2|split;
       [exact uniform_2x2_cells | right; reflexivity]]]|].
  exact (uniform_flux_no_divergence 1 2 2 uniform_2x2 mask_2x2 5 "meridional"
           (shape_1x2x2 _ _ _ _) (shape_2x2 _ _ _ _) uniform_2x2_cells
           (or_intror eq_refl)).
Defined.

(** X7. Any direction other than 'zonal' and 'meridional', the default
    [None] included, raises the [ValueError] that asks for one of the two,
    whatever the field and the mask. *)
Theorem invalid_direction_raises
        (da : Field3) (mask : Mask) (direction : option string) :
  direction <> Some "zonal" -> direction <> Some "meridional" ->
  _compute_horizontal_divergence da mask direction
  = Raise (ValueError direction_msg).
Proof.
  intros Hz Hm; unfold _compute_horizontal_divergence.
  destruct direction as [d|]; [|reflexivity].
  destruct (String.eqb_spec d "zonal") as [->|_]; [congruence|].
  destruct (String.eqb_spec d "meridional") as [->|_]; [congruence|].
  reflexivity.
Qed.

Lemma invalid_direction_raises_witness :
  (Some "vertical" <> Some "zonal" /\ Some "vertical" <> Some "meridional")
  /\ _compute_horizontal_divergence flux_2x2 mask_2x2 (Some "vertical")
     = Raise (ValueError direction_msg).
Proof.
  assert (H1 : Some "vertical" <> Some "zonal") by discriminate.
  assert (H2 : Some "vertical" <> Some "meridional") by discriminate.
  split; [split; assumption|].
  exact (invalid_direction_raises flux_2x2 mask_2x2 (Some "vertical") H1 H2).
Defined.

End HorizontalProofs.

(** ** Depth limits at or below the deepest layer *)

Module FullDepthProofs.
Import Xr XrFacts ArrayFacts Budget Terms Spec Examples.

Lemma slice0_all {A} (stop : Z) (l : list A) :
  (Z.of_nat (List.length l) <= stop)%Z -> slice0 stop l = l.
Proof.
  intros H; rewrite slice0_nonneg by lia.
  apply firstn_all2; lia.
Qed.

Lemma convert_to_tendency_all (ds : Field3) (n : Normalizer) (sign k : Z) :
  match n with
  | Vol v => (Z.of_nat (List.length v) <= k + 1)%Z
  | Area _ => True
  end ->
  _convert_to_tendency ds n sign (Some k) = _convert_to_tendency ds n sign None.
Proof.
  intros H; unfold _convert_to_tendency.
  destruct n as [a|v]; [reflexivity|].
  rewrite slice0_all by exact H; reflexivity.
Qed.

(** X8. A depth limit whose extra layer [kmax + 1] is the deepest layer of
    the grid or lies below it gives the vertical advection of no depth
    limit at all; in particular the term without depth limit is the term
    with the limit at the second deepest layer. *)
Theorem vertical_advection_full_depth
        (WT vol : Field3) (mask : Mask) (kmax : Z) :
  (Z.of_nat (List.length WT) <= kmax + 2)%Z ->
  (Z.of_nat (List.length vol) <= kmax + 2)%Z ->
  _compute_vertical_advection WT vol mask (Some kmax)
  = _compute_vertical_advection WT vol mask None.
Proof.
  intros HW Hv; unfold _compute_vertical_advection.
  rewrite slice0_all by exact HW.
  destruct (where3 WT mask) as [ds|e]; [|reflexivity].
  cbn [bind].
  rewrite convert_to_tendency_all by (cbv beta iota; lia).
  reflexivity.
Qed.

Lemma vertical_advection_full_depth_witness :
  ((Z.of_nat (List.length flux_3x1x2) <= 1 + 2)%Z
   /\ (Z.of_nat (List.length vol_3x1x2) <= 1 + 2)%Z)
  /\ _compute_vertical_advection flux_3x1x2 vol_3x1x2 mask_1x2 (Some 1%Z)
     = _compute_vertical_advection flux_3x1x2 vol_3x1x2 mask_1x2 None.
Proof.
  assert (H1 : (Z.of_nat (List.length flux_3x1x2) <= 1 + 2)%Z) by (simpl; lia).
  assert (H2 : (Z.of_nat (List.length vol_3x1x2) <= 1 + 2)%Z) by (simpl; lia).
  split; [split; assumption|].
  exact (vertical_advection_full_depth flux_3x1x2 vol_3x1x2 mask_1x2 1 H1 H2).
Defined.

(** X9. A depth limit at the deepest layer of the grid or below it gives
    the lateral advection of no depth limit at all. *)
Theorem lateral_advection_full_depth
        (UE VN vol : Field3) (mask : Mask) (kmax : Z) :
  (Z.of_nat (List.length UE) <= kmax + 1)%Z ->
  (Z.of_nat (List.length VN) <= kmax + 1)%Z ->
  (Z.of_nat (List.length vol) <= kmax + 1)%Z ->
  _compute_lateral_advection UE VN vol mask (Some kmax)
  = _compute_lateral_advection UE VN vol mask None.
Proof.
  intros HU HV Hv; unfold _compute_lateral_advection.
  rewrite !slice0_all by assumption.
  rewrite !convert_to_tendency_all by (cbv beta iota; lia).
  reflexivity.
Qed.

Lemma lateral_advection_full_depth_witness :
  ((Z.of_nat (List.length flux_3x1x2) <= 2 + 1)%Z
   /\ (Z.of_nat (List.length flux_3x1x2) <= 2 + 1)%Z
   /\ (Z.of_nat (List.length vol_3x1x2) <= 2 + 1)%Z)
  /\ _compute_lateral_advection flux_3x1x2 flux_3x1x2 vol_3x1x2 mask_1x2 (Some 2%Z)
     = _compute_lateral_advection flux_3x1x2 flux_3x1x2 vol_3x1x2 mask_1x2 None.
Proof.
  assert (H1 : (Z.of_nat (List.length flux_3x1x2) <= 2 + 1)%Z) by (simpl; lia).
  assert (H2 : (Z.of_nat (List.length vol_3x1x2) <= 2 + 1)%Z) by (simpl; lia).
  split; [split; [|split]; assumption|].
  exact (lateral_advection_full_depth flux_3x1x2 flux_3x1x2 vol_3x1x2 mask_1x2
                                      2 H1 H1 H2).
Defined.

(** X10. A depth limit at the deepest layer of the grid or below it gives
    the lateral mixing and the vertical mixing of no depth limit at all. *)
Theorem mixing_full_depth
        (HDIFN HDIFE HDIFB DIA_IMPVF KPP_SRC vol : Field3) (area : Field2)
        (mask : Mask) (kmax : Z) :
  (forall da, In da [HDIFN; HDIFE; HDIFB; DIA_IMPVF; KPP_SRC; vol] ->
     (Z.of_nat (List.length da) <= kmax + 1)%Z) ->
  _compute_lateral_mixing HDIFN HDIFE HDIFB vol mask (Some kmax)
  = _compute_lateral_mixing HDIFN HDIFE HDIFB vol mask None
  /\ _compute_vertical_mixing DIA_IMPVF KPP_SRC area vol mask (Some kmax)
     = _compute_vertical_mixing DIA_IMPVF KPP_SRC area vol mask None.
Proof.
  intros H.
  assert (Hl : forall da,
             In da [HDIFN; HDIFE; HDIFB; DIA_IMPVF; KPP_SRC; vol] ->
             slice0 (kmax + 1) da = da)
    by (intros da Hin; apply slice0_all, H, Hin).
  assert (Hv : (Z.of_nat (List.length vol) <= kmax + 1)%Z)
    by (apply H; simpl; tauto).
  split.
  - unfold _compute_lateral_mixing, truncate.
    rewrite !Hl by (simpl; tauto).
    rewrite !convert_to_tendency_all by (cbv beta iota; lia).
    reflexivity.
  - unfold _compute_vertical_mixing, truncate.
    rewrite !Hl by (simpl; tauto).
    destruct (where3 DIA_IMPVF mask) as [d|e]; [|reflexivity].
    destruct (where3 KPP_SRC mask) as [s|e]; [|reflexivity].
    cbn [bind].
    rewrite !convert_to_tendency_all by (cbv beta iota; trivial; lia).
    reflexivity.
Qed.

Lemma mixing_full_depth_witness :
  (forall da,
     In da [flux_3x1x2; flux_3x1x2; flux_3x1x2; flux_3x1x2; flux_3x1x2; vol_3x1x2] ->
     (Z.of_nat (List.length da) <= 2 + 1)%Z)
  /\ _compute_lateral_mixing flux_3x1x2 flux_3x1x2 flux_3x1x2 vol_3x1x2 mask_1x2
                            (Some 2%Z)
     = _compute_lateral_mixing flux_3x1x2 flux_3x1x2 flux_3x1x2 vol_3x1x2 mask_1x2
                               None.
Proof.
  assert (H : forall da,
     In da [flux_3x1x2; flux_3x1x2; flux_3x1x2; flux_3x1x2; flux_3x1x2; vol_3x1x2] ->
     (Z.of_nat (List.length da) <= 2 + 1)%Z).
  { intros da Hin; simpl in Hin.
    repeat (destruct Hin as [<- | Hin]; [simpl; lia|]); destruct Hin. }
  split; [exact H|].
  exact (proj1 (mixing_full_depth flux_3x1x2 flux_3x1x2 flux_3x1x2 flux_3x1x2
                                  flux_3x1x2 vol_3x1x2 [[Some 1; Some 1]]
                                  mask_1x2 2 H)).
Defined.

End FullDepthProofs.

(** ** Sums over depth, column by column *)

Module ColumnProofs.
Import Xr XrFacts ArrayFacts Budget Spec Parts Examples.

(** The cells of one horizontal position, from the top layer down. *)
Definition column (da : Field3) (i j : nat) : list cell :=
  map (fun slab => at2 None slab i j) da.

Lemma nth_column (da : Field3) i j k :
  (k < List.length da)%nat -> nth k (column da i j) None = at3 None da k i j.
Proof.
  intros Hk; unfold column, at3.
  rewrite nth_indep with (d' := at2 None [] i j) by (rewrite length_map; exact Hk).
  rewrite (map_nth (fun slab => at2 None slab i j)); reflexivity.
Qed.

Lemma running_sum_at ny nx i j (da : Field3) :
  (i < ny)%nat -> (j < nx)%nat ->
  forall acc : QArray2,
    shape2 ny nx acc -> Forall (shape2 ny nx) da ->
    shape2 ny nx (fold_left (map2 (map2 sum_cells)) da acc)
    /\ at2 0 (fold_left (map2 (map2 sum_cells)) da acc) i j
       = fold_left sum_cells (column da i j) (at2 0 acc i j).
Proof.
  intros Hi Hj; induction da as [|slab da IH]; intros acc Hacc Hda.
  - split; [exact Hacc|reflexivity].
  - inversion Hda as [|? ? Hs Hrest]; subst.
    cbn [fold_left column map].
    destruct (IH (map2 (map2 sum_cells) acc slab)
                 (map2_shape2 sum_cells ny nx acc slab Hacc Hs) Hrest)
      as [Hshape Hat].
    split; [exact Hshape|].
    unfold column in Hat; rewrite Hat.
    rewrite at2_map2 with (d1 := 0) (d2 := None) (ny := ny) (nx := nx)
      by assumption.
    reflexivity.
Qed.

Lemma nth_zeros {A} (l : list A) j : nth j (map (fun _ => 0) l) 0 = 0.
Proof.
  revert j; induction l as [|a l IH]; intros [|j]; simpl; auto.
Qed.

(** [sum('z_t')] at one horizontal position is the sum of the column, NaN
    counting as zero. *)
Lemma sum_z_at nz ny nx (da : Field3) i j :
  shape3 nz ny nx da -> (0 < nz)%nat -> (i < ny)%nat -> (j < nx)%nat ->
  at2 None (sum_z da) i j = Some (fold_left sum_cells (column da i j) 0).
Proof.
  intros [La Fa] Hz Hi Hj; unfold sum_z.
  destruct da as [|top da]; [simpl in La; lia|].
  cbn [hd].
  assert (Htop : shape2 ny nx top) by (inversion Fa; assumption).
  set (zeros := map (map (fun _ : cell => 0)) top).
  assert (Hzeros : shape2 ny nx zeros).
  { apply shape2_map with (nx := nx); [|exact Htop].
    intros r Hr; rewrite length_map; exact Hr. }
  assert (Hz0 : at2 0 zeros i j = 0).
  { unfold zeros.
    pose proof (shape2_row ny nx top i Htop Hi) as Hr.
    destruct Htop as [Lt _].
    rewrite at2_map with (d := None) by lia.
    apply nth_zeros. }
  destruct (running_sum_at ny nx i j (top :: da) Hi Hj zeros Hzeros Fa)
    as [Hshape Hat].
  set (total := fold_left (map2 (map2 sum_cells)) (top :: da) zeros) in *.
  pose proof (shape2_row ny nx total i Hshape Hi) as Hr.
  destruct Hshape as [Lt _].
  rewrite at2_map with (d := 0) by lia.
  rewrite nth_indep with (d' := Some 0) by (rewrite length_map; lia).
  rewrite (map_nth (@Some Q)).
  fold (at2 0 total i j); rewrite Hat, Hz0; reflexivity.
Qed.

(** The differences of a column with the cell above each cell, [prev] being
    above the first. *)
Fixpoint diffs (prev : cell) (l : list cell) : list cell :=
  match l with
  | [] => []
  | c :: l' => cell_sub c prev :: diffs c l'
  end.

(** The last cell of a column, [prev] if there is none. *)
Definition last_or (prev : cell) (l : list cell) : cell :=
  fold_left (fun _ c => c) l prev.

Lemma length_diffs prev l : List.length (diffs prev l) = List.length l.
Proof.
  revert prev; induction l as [|c l IH]; intros prev; simpl; [reflexivity|].
  rewrite IH; reflexivity.
Qed.

Lemma nth_diffs l :
  forall prev k, (k < List.length l)%nat ->
    nth k (diffs prev l) None
    = cell_sub (nth k l None)
               (match k with O => prev | S k' => nth k' l None end).
Proof.
  induction l as [|c l IH]; intros prev k Hk; simpl in Hk; [lia|].
  destruct k as [|k]; [reflexivity|].
  cbn [diffs nth]; rewrite IH by lia.
  destruct k; reflexivity.
Qed.

Lemma last_or_nth l :
  forall prev, (0 < List.length l)%nat ->
    last_or prev l = nth (List.length l - 1) l None.
Proof.
  induction l as [|c l IH]; intros prev Hl; simpl in Hl; [lia|].
  unfold last_or; cbn [fold_left].
  destruct l as [|c' l']; [reflexivity|].
  fold (last_or c (c' :: l')).
  rewrite IH by (simpl; lia).
  cbn [List.length]; replace (S (S (List.length l')) - 1)%nat
    with (S (S (List.length l') - 1)) by lia.
  reflexivity.
Qed.

(** The differences of a column without NaN sum up to its last cell minus
    the cell above the first. *)
Lemma sum_diffs_telescopes l :
  forall p acc,
    Forall (fun c => c <> None) l ->
    fold_left sum_cells (diffs (Some p) l) acc
    == acc + (nan_to_zero (last_or (Some p) l) - p).
Proof.
  induction l as [|c l IH]; intros p acc Hl.
  - unfold last_or; simpl; ring.
  - inversion Hl as [|? ? Hc Hrest]; subst.
    destruct c as [x|]; [|congruence].
    cbn [diffs fold_left].
    unfold last_or; cbn [fold_left]; fold (last_or (Some x) l).
    rewrite (IH x _ Hrest).
    unfold sum_cells at 1; simpl; ring.
Qed.

Lemma vertical_divergence_column nz ny nx (da : Field3) i j :
  shape3 nz ny nx da -> (i < ny)%nat -> (j < nx)%nat ->
  column (_compute_vertical_divergence da) i j
  = diffs (Some 0) (column da i j).
Proof.
  intros H Hi Hj.
  assert (Hlen : List.length (_compute_vertical_divergence da) = nz).
  { unfold _compute_vertical_divergence, diff_z; simpl tl.
    rewrite length_map2; destruct H as [Hl _]; simpl; lia. }
  pose proof H as [La _].
  apply nth_ext with (d := None) (d' := None).
  - rewrite length_diffs; unfold column; rewrite !length_map; lia.
  - intros k Hk.
    unfold column in Hk; rewrite length_map, Hlen in Hk.
    rewrite nth_column by lia.
    rewrite nth_diffs by (unfold column; rewrite length_map; lia).
    rewrite VerticalDivergenceProofs.vertical_divergence_at
      with (nz := nz) (ny := ny) (nx := nx) by assumption.
    rewrite nth_column by lia.
    destruct k as [|k]; cbn [cell_above]; [reflexivity|].
    rewrite nth_column by lia; reflexivity.
Qed.

(** X11. Over a column without NaN, the vertical divergence summed over
    depth is the flux at the deepest layer: the differences between
    successive layers cancel, and nothing enters through the top. *)
Theorem vertical_divergence_sums_to_bottom_flux
        (nz ny nx : nat) (da : Field3) (i j : nat) :
  shape3 nz ny nx da -> (0 < nz)%nat -> (i < ny)%nat -> (j < nx)%nat ->
  (forall k, (k < nz)%nat -> at3 None da k i j <> None) ->
  exists total,
    at2 None (sum_z (_compute_vertical_divergence da)) i j = Some total
    /\ cell_eq (Some total) (at3 None da (nz - 1) i j).
Proof.
  intros H Hz Hi Hj Hsome.
  pose proof H as [La _].
  assert (Hshape : shape3 nz ny nx (_compute_vertical_divergence da)).
  { split.
    - unfold _compute_vertical_divergence, diff_z; simpl tl.
      rewrite length_map2; simpl; lia.
    - apply Forall_forall; intros s Hs.
      destruct (In_nth _ _ [] Hs) as (k & Hk & <-).
      assert (Hlen : List.length (_compute_vertical_divergence da) = nz).
      { unfold _compute_vertical_divergence, diff_z; simpl tl.
        rewrite length_map2; simpl; lia. }
      rewrite Hlen in Hk.
      rewrite VerticalDivergenceProofs.vertical_divergence_layer by lia.
      apply VerticalDivergenceProofs.sub_layers_shape;
        [ apply shape3_layer with (nz := nz)
        | apply VerticalDivergenceProofs.layer_above_shape with (nz := nz) ];
        assumption. }
  eexists; split; [apply sum_z_at with (nz := nz) (ny := ny) (nx := nx); assumption|].
  rewrite (vertical_divergence_column nz ny nx da i j H Hi Hj).
  assert (Hcol : Forall (fun c => c <> None) (column da i j)).
  { apply Forall_forall; intros c Hc.
    destruct (In_nth _ _ None Hc) as (k & Hk & <-).
    unfold column in Hk; rewrite length_map in Hk.
    rewrite nth_column by exact Hk; apply Hsome; lia. }
  pose proof (sum_diffs_telescopes (column da i j) 0 0 Hcol) as E.
  rewrite last_or_nth in E by (unfold column; rewrite length_map; lia).
  unfold column in E at 2; rewrite length_map, La in E.
  rewrite nth_column in E by lia.
  specialize (Hsome (nz - 1)%nat ltac:(lia)).
  destruct (at3 None da (nz - 1) i j) as [x|]; [|congruence].
  simpl in E |- *; rewrite E; ring.
Qed.

Lemma vertical_divergence_sums_to_bottom_flux_witness :
  (shape3 3 1 2 flux_3x1x2 /\ (0 < 3)%nat /\ (0 < 1)%nat /\ (1 < 2)%nat
   /\ (forall k, (k < 3)%nat -> at3 None flux_3x1x2 k 0 1 <> None))
  /\ exists total,
       at2 None (sum_z (_compute_vertical_divergence flux_3x1x2)) 0 1 = Some total
       /\ cell_eq (Some total) (at3 None flux_3x1x2 (3 - 1) 0 1).
Proof.
  assert (H : shape3 3 1 2 flux_3x1x2) by (split; [reflexivity|repeat constructor]).
  assert (H3 : (0 < 3)%nat) by lia.
  assert (H1 : (0 < 1)%nat) by lia.
  assert (H2 : (1 < 2)%nat) by lia.
  assert (Hs : forall k, (k < 3)%nat -> at3 None flux_3x1x2 k 0 1 <> None).
  { intros k Hk; destruct k as [|[|[|k]]]; [| | |lia]; discriminate. }
  split; [split; [|split; [|split; [|split]]]; assumption|].
  exact (vertical_divergence_sums_to_bottom_flux 3 1 2 flux_3x1x2 0 1
           H H3 H1 H2 Hs).
Defined.

End ColumnProofs.

(** ** Vertical advection, column by column *)

Module VerticalAdvectionCells.
Import Xr XrFacts ArrayFacts ColumnProofs Budget Spec Parts Examples.

Lemma shape3_map3 {A B} (f : A -> B) nz ny nx (a : Array3 A) :
  shape3 nz ny nx a -> shape3 nz ny nx (map (map (map f)) a).
Proof.
  intros [La Fa]; split; [rewrite length_map; exact La|].
  rewrite Forall_forall in *; intros s Hs.
  apply in_map_iff in Hs; destruct Hs as (s0 & <- & H0).
  apply shape2_map with (nx := nx); [|apply Fa, H0].
  intros r Hr; rewrite length_map; exact Hr.
Qed.

Lemma at2_map_cells {A B} (f : A -> B) (d : A) (d' : B) ny nx
      (a : Array2 A) i j :
  shape2 ny nx a -> (i < ny)%nat -> (j < nx)%nat ->
  at2 d' (map (map f) a) i j = f (at2 d a i j).
Proof.
  intros H Hi Hj.
  pose proof (shape2_row ny nx a i H Hi) as Hr.
  destruct H as [La _].
  rewrite at2_map with (d := d) by lia.
  rewrite nth_indep with (d' := f d) by (rewrite length_map; lia).
  apply map_nth.
Qed.

Lemma at3_map3 {A B} (f : A -> B) (d : A) (d' : B) nz ny nx
      (a : Array3 A) k i j :
  shape3 nz ny nx a -> (k < nz)%nat -> (i < ny)%nat -> (j < nx)%nat ->
  at3 d' (map (map (map f)) a) k i j = f (at3 d a k i j).
Proof.
  intros H Hk Hi Hj; unfold at3.
  pose proof (shape3_layer nz ny nx a k H Hk) as Hs.
  destruct H as [La _].
  rewrite nth_indep with (d' := map (map f) []) by (rewrite length_map; lia).
  rewrite (map_nth (map (map f))).
  apply at2_map_cells with (ny := ny) (nx := nx); assumption.
Qed.

Lemma shape3_firstn {A} nz ny nx m (a : Array3 A) :
  shape3 nz ny nx a -> shape3 (Nat.min m nz) ny nx (firstn m a).
Proof.
  intros [La Fa]; split; [rewrite length_firstn; lia|].
  rewrite Forall_forall in *; intros s Hs; apply Fa.
  rewrite <- (firstn_skipn m a); apply in_or_app; left; exact Hs.
Qed.

Lemma at3_firstn {A} (d : A) m (a : Array3 A) k i j :
  (k < m)%nat -> at3 d (firstn m a) k i j = at3 d a k i j.
Proof.
  intros Hk; unfold at3; rewrite nth_firstn.
  destruct (Nat.ltb_spec k m); [reflexivity|lia].
Qed.

Definition fill0 (c : cell) : cell :=
  match c with
  | Some x => Some x
  | None => Some 0
  end.

(** The term from the loaded layers and the volume of these layers on. *)
Definition vadv_core (loaded voln : Field3) (mask : Mask)
  : result (DataArray Field2) :=
  masked <- where3 loaded mask ;;
  prod <- mul3 masked voln ;;
  let tend := scale3 1 prod in
  diff <- sub3 (fillna 0 (shift_z (-1) tend)) tend ;;
  Ok (mkDA (scale2 NMOLS_TO_MOLYR (sum_z (slice0 (-1) diff)))
           [("units", "mol/yr"); ("long_name", "vertical advection")]).

Lemma vertical_advection_core (WT vol : Field3) (mask : Mask) (kmax : option Z) :
  _compute_vertical_advection WT vol mask kmax
  = vadv_core (match kmax with Some k => slice0 (k + 2) WT | None => WT end)
              (match kmax with Some k => slice0 (k + 2) vol | None => vol end)
              mask.
Proof.
  unfold _compute_vertical_advection, vadv_core, _convert_to_tendency.
  destruct kmax as [k|].
  - replace (k + 1 + 1)%Z with (k + 2)%Z by lia.
    destruct (where3 (slice0 (k + 2) WT) mask) as [m|e]; [|reflexivity].
    cbn [bind].
    destruct (mul3 m (slice0 (k + 2) vol)) as [p|e]; reflexivity.
  - destruct (where3 WT mask) as [m|e]; [|reflexivity].
    cbn [bind].
    destruct (mul3 m vol) as [p|e]; reflexivity.
Qed.

(** The tendency of one cell: masked, times the volume, times the sign. *)
Definition tendency_cell (loaded voln : Field3) (mask : Mask) (k i j : nat) : cell :=
  cell_scale 1 (cell_mul (keep (at3 None loaded k i j) (at2 false mask i j))
                         (at3 None voln k i j)).

(** The tendency of the loaded layers, and the layer differences that are
    summed. *)
Definition vadv_tend (loaded voln : Field3) (mask : Mask) : Field3 :=
  map (map (map (cell_scale 1)))
      (map2 (map2 (map2 cell_mul))
            (map (fun slab => map2 (map2 keep) slab mask) loaded) voln).

Definition vadv_kept (loaded voln : Field3) (mask : Mask) : Field3 :=
  slice0 (-1)
         (map2 (map2 (map2 cell_sub))
               (fillna 0 (shift_z (-1) (vadv_tend loaded voln mask)))
               (vadv_tend loaded voln mask)).

Section Core.

Variables (n ny nx : nat) (loaded voln : Field3) (mask : Mask).
Hypothesis Hloaded : shape3 (S n) ny nx loaded.
Hypothesis Hvoln : shape3 (S n) ny nx voln.
Hypothesis Hmask : shape2 ny nx mask.

Local Abbreviation tend := (vadv_tend loaded voln mask).
Local Abbreviation shifted := (fillna 0 (shift_z (-1) tend)).
Local Abbreviation diff := (map2 (map2 (map2 cell_sub)) shifted tend).
Local Abbreviation kept := (vadv_kept loaded voln mask).

Lemma tend_shape : shape3 (S n) ny nx tend.
Proof.
  apply shape3_map3, map2_shape3; [|exact Hvoln].
  apply where3_shape; assumption.
Qed.

Lemma tend_at k i j :
  (k < S n)%nat -> (i < ny)%nat -> (j < nx)%nat ->
  at3 None tend k i j = tendency_cell loaded voln mask k i j.
Proof.
  intros Hk Hi Hj; unfold vadv_tend, tendency_cell.
  rewrite at3_map3 with (d := None) (nz := S n) (ny := ny) (nx := nx);
    [ | apply map2_shape3; [apply where3_shape|]; assumption
      | assumption | assumption | assumption ].
  rewrite at3_map2 with (d1 := None) (d2 := None) (nz := S n) (ny := ny) (nx := nx);
    [ | apply where3_shape; assumption | assumption
      | assumption | assumption | assumption ].
  rewrite where3_at with (nz := S n) (ny := ny) (nx := nx) by assumption.
  reflexivity.
Qed.

Lemma shifted_shape : shape3 (S n) ny nx shifted.
Proof.
  pose proof tend_shape as [Lt Ft].
  destruct tend as [|top below] eqn:E; [simpl in Lt; lia|].
  rewrite AdvectionProofs.fillna_shifted.
  inversion Ft as [|? ? Htop Hbelow]; subst.
  split.
  - rewrite length_app; unfold fillna; rewrite length_map; simpl in *; lia.
  - apply Forall_app; split.
    + apply (shape3_map3 _ (List.length below) ny nx below).
      split; [reflexivity|exact Hbelow].
    + constructor; [|constructor].
      apply shape2_map with (nx := nx); [|exact Htop].
      intros r Hr; rewrite length_map; exact Hr.
Qed.

Lemma shifted_at k i j :
  (k < n)%nat -> (i < ny)%nat -> (j < nx)%nat ->
  at3 None shifted k i j = fill0 (at3 None tend (S k) i j).
Proof.
  intros Hk Hi Hj.
  pose proof tend_shape as [Lt Ft].
  destruct tend as [|top below] eqn:E; [simpl in Lt; lia|].
  rewrite AdvectionProofs.fillna_shifted.
  inversion Ft as [|? ? Htop Hbelow]; subst.
  assert (Lb : List.length below = n) by (simpl in Lt; lia).
  unfold at3 at 1.
  rewrite app_nth1 by (unfold fillna; rewrite length_map; lia).
  fold (at3 None (fillna 0 below) k i j).
  unfold fillna.
  rewrite at3_map3 with (d := None) (nz := n) (ny := ny) (nx := nx);
    [ | split; assumption | assumption | assumption | assumption ].
  reflexivity.
Qed.

Lemma diff_length : List.length diff = S n.
Proof.
  rewrite length_map2.
  destruct shifted_shape as [-> _], tend_shape as [-> _]; lia.
Qed.

Lemma kept_shape : shape3 n ny nx kept.
Proof.
  unfold vadv_kept.
  rewrite AdvectionProofs.slice0_drop_last, removelast_firstn_len.
  rewrite diff_length; cbn [Nat.pred].
  replace n with (Nat.min n (S n)) at 1 by lia.
  apply shape3_firstn, map2_shape3; [apply shifted_shape | apply tend_shape].
Qed.

Lemma kept_at k i j :
  (k < n)%nat -> (i < ny)%nat -> (j < nx)%nat ->
  at3 None kept k i j
  = cell_sub (fill0 (tendency_cell loaded voln mask (S k) i j))
             (tendency_cell loaded voln mask k i j).
Proof.
  intros Hk Hi Hj.
  unfold vadv_kept.
  rewrite AdvectionProofs.slice0_drop_last, removelast_firstn_len.
  rewrite diff_length; cbn [Nat.pred].
  rewrite at3_firstn by exact Hk.
  rewrite at3_map2 with (d1 := None) (d2 := None) (nz := S n) (ny := ny) (nx := nx);
    [ | apply shifted_shape | apply tend_shape | lia | assumption | assumption ].
  rewrite shifted_at by assumption.
  rewrite !tend_at by (assumption || lia).
  reflexivity.
Qed.

Lemma vadv_core_value :
  vadv_core loaded voln mask
  = Ok (mkDA (scale2 NMOLS_TO_MOLYR (sum_z kept))
             [("units", "mol/yr"); ("long_name", "vertical advection")]).
Proof.
  unfold vadv_core.
  rewrite (where3_ok (S n) ny nx loaded mask Hloaded Hmask); cbn [bind].
  unfold mul3.
  rewrite (zip3_ok cell_mul (S n) ny nx _ voln
                   (where3_shape (S n) ny nx loaded mask Hloaded Hmask) Hvoln).
  cbn [bind].
  unfold sub3.
  change (scale3 1 (map2 (map2 (map2 cell_mul))
                         (map (fun slab => map2 (map2 keep) slab mask) loaded)
                         voln))
    with tend.
  rewrite (zip3_ok cell_sub (S n) ny nx _ tend shifted_shape tend_shape).
  reflexivity.
Qed.

(** The value of the term at one horizontal position: the sum of the
    column of layer differences, converted. *)
Lemma vadv_core_at i j :
  (0 < n)%nat -> (i < ny)%nat -> (j < nx)%nat ->
  exists r,
    vadv_core loaded voln mask = Ok r
    /\ at2 None (values r) i j
       = Some (fold_left sum_cells (column kept i j) 0 * NMOLS_TO_MOLYR).
Proof.
  intros Hn Hi Hj.
  eexists; split; [apply vadv_core_value|].
  cbn [values]; unfold scale2.
  assert (Hs : shape2 ny nx (sum_z kept)).
  { unfold sum_z.
    pose proof kept_shape as [Lk Fk].
    destruct kept as [|top rest] eqn:E; [simpl in Lk; lia|].
    cbn [hd].
    assert (Htop : shape2 ny nx top) by (inversion Fk; assumption).
    assert (Hz : shape2 ny nx (map (map (fun _ : cell => 0)) top)).
    { apply shape2_map with (nx := nx); [|exact Htop].
      intros r Hr; rewrite length_map; exact Hr. }
    destruct (running_sum_at ny nx i j (top :: rest) Hi Hj _ Hz Fk) as [Hsh _].
    apply shape2_map with (nx := nx); [|exact Hsh].
    intros r Hr; rewrite length_map; exact Hr. }
  rewrite at2_map_cells with (d := None) (ny := ny) (nx := nx) by assumption.
  rewrite sum_z_at with (nz := n) (ny := ny) (nx := nx);
    [reflexivity | apply kept_shape | assumption | assumption | assumption].
Qed.

End Core.

Lemma column_Forall (P : cell -> Prop) (da : Field3) i j :
  (forall k, (k < List.length da)%nat -> P (at3 None da k i j)) ->
  Forall P (column da i j).
Proof.
  intros H; apply Forall_forall; intros c Hc.
  destruct (In_nth _ _ None Hc) as (k & Hk & <-).
  unfold column in Hk; rewrite length_map in Hk.
  rewrite nth_column by exact Hk; apply H, Hk.
Qed.

Lemma sum_of_nan l :
  forall acc, Forall (fun c => c = None) l -> fold_left sum_cells l acc == acc.
Proof.
  induction l as [|c l IH]; intros acc Hl; [reflexivity|].
  inversion Hl as [|? ? Hc Hrest]; subst.
  cbn [fold_left]; rewrite (IH _ Hrest).
  unfold sum_cells; simpl; ring.
Qed.

Lemma cell_sub_nan (c : cell) : cell_sub c None = None.
Proof. destruct c; reflexivity. Qed.

Lemma core_outside n ny nx (loaded voln : Field3) (mask : Mask) i j :
  shape3 (S n) ny nx loaded -> shape3 (S n) ny nx voln -> shape2 ny nx mask ->
  (0 < n)%nat -> (i < ny)%nat -> (j < nx)%nat ->
  at2 false mask i j = false ->
  exists r,
    vadv_core loaded voln mask = Ok r
    /\ cell_eq (at2 None (values r) i j) (Some 0).
Proof.
  intros Hl Hv Hm Hn Hi Hj Hout.
  destruct (vadv_core_at n ny nx loaded voln mask Hl Hv Hm i j Hn Hi Hj)
    as (r & Hr & Hat).
  exists r; split; [exact Hr|].
  rewrite Hat; simpl.
  rewrite sum_of_nan; [ring|].
  apply column_Forall; intros k Hk.
  destruct (kept_shape n ny nx loaded voln mask Hl Hv Hm) as [Lk _].
  rewrite Lk in Hk.
  rewrite (kept_at n ny nx loaded voln mask Hl Hv Hm k i j Hk Hi Hj).
  unfold tendency_cell; rewrite Hout.
  cbn [keep cell_mul cell_lift2 cell_scale option_map].
  apply cell_sub_nan.
Qed.

(** The flux of one cell times its volume, NaN counting as zero. *)
Definition column_flux (WT vol : Field3) (k i j : nat) : Q :=
  nan_to_zero (cell_mul (at3 None WT k i j) (at3 None vol k i j)).

Lemma core_inside n ny nx (loaded voln : Field3) (mask : Mask) i j :
  shape3 (S n) ny nx loaded -> shape3 (S n) ny nx voln -> shape2 ny nx mask ->
  (0 < n)%nat -> (i < ny)%nat -> (j < nx)%nat ->
  at2 false mask i j = true ->
  (forall k, (k < S n)%nat ->
     at3 None loaded k i j <> None /\ at3 None voln k i j <> None) ->
  exists r,
    vadv_core loaded voln mask = Ok r
    /\ cell_eq (at2 None (values r) i j)
               (Some ((column_flux loaded voln n i j
                       - column_flux loaded voln 0 i j) * NMOLS_TO_MOLYR)).
Proof.
  intros Hl Hv Hm Hn Hi Hj Hin Hsome.
  destruct (vadv_core_at n ny nx loaded voln mask Hl Hv Hm i j Hn Hi Hj)
    as (r & Hr & Hat).
  exists r; split; [exact Hr|].
  rewrite Hat; clear Hat r Hr.
  set (T := fun k => tendency_cell loaded voln mask k i j).
  assert (HT : forall k, (k < S n)%nat ->
             exists t, T k = Some t /\ t == column_flux loaded voln k i j).
  { intros k Hk; destruct (Hsome k Hk) as [Hw Hvv].
    unfold T, tendency_cell, column_flux; rewrite Hin.
    destruct (at3 None loaded k i j) as [w|]; [|congruence].
    destruct (at3 None voln k i j) as [v|]; [|congruence].
    eexists; split; [reflexivity|]; simpl; ring. }
  set (below := map (fun k => T (S k)) (seq 0 n)).
  assert (Lb : List.length below = n)
    by (unfold below; rewrite length_map, length_seq; reflexivity).
  assert (Nb : forall k, (k < n)%nat -> nth k below None = T (S k)).
  { intros k Hk; unfold below.
    rewrite nth_indep with (d' := T (S O))
      by (rewrite length_map, length_seq; exact Hk).
    rewrite (map_nth (fun k => T (S k))), seq_nth by exact Hk; reflexivity. }
  destruct (kept_shape n ny nx loaded voln mask Hl Hv Hm) as [Lk _].
  assert (Hcol : column (vadv_kept loaded voln mask) i j = diffs (T O) below).
  { apply nth_ext with (d := None) (d' := None).
    - rewrite length_diffs; unfold column; rewrite length_map; lia.
    - intros k Hk; unfold column in Hk; rewrite length_map, Lk in Hk.
      rewrite nth_column by lia.
      rewrite nth_diffs by lia.
      rewrite (kept_at n ny nx loaded voln mask Hl Hv Hm k i j Hk Hi Hj).
      rewrite (Nb k Hk).
      destruct (HT (S k) ltac:(lia)) as (t & Ht & _); fold (T (S k)); rewrite Ht.
      cbn [fill0]; f_equal.
      destruct k as [|k]; [reflexivity|].
      rewrite Nb by lia; reflexivity. }
  rewrite Hcol.
  destruct (HT O ltac:(lia)) as (t0 & Ht0 & E0).
  destruct (HT n ltac:(lia)) as (tn & Htn & En).
  rewrite Ht0.
  assert (Hall : Forall (fun c => c <> None) below).
  { apply Forall_forall; intros c Hc.
    destruct (In_nth _ _ None Hc) as (k & Hk & <-).
    rewrite Lb in Hk; rewrite (Nb k Hk).
    destruct (HT (S k) ltac:(lia)) as (t & Ht & _); rewrite Ht; discriminate. }
  pose proof (sum_diffs_telescopes below t0 0 Hall) as E.
  rewrite last_or_nth in E by lia.
  rewrite Lb, Nb in E by lia.
  replace (S (n - 1)) with n in E by lia.
  rewrite Htn in E; simpl in E |- *.
  rewrite E, E0, En; ring.
Qed.

(** X12. With a depth limit or without, the vertical advection of a cell
    outside the region is zero, not NaN: the masked layers drop out of the
    sum over depth. *)
Theorem vertical_advection_outside_region
        (nz ny nx : nat) (WT vol : Field3) (mask : Mask)
        (kmax : option nat) (i j : nat) :
  shape3 nz ny nx WT -> shape3 nz ny nx vol -> shape2 ny nx mask ->
  (2 <= nz)%nat -> (i < ny)%nat -> (j < nx)%nat ->
  at2 false mask i j = false ->
  exists r,
    _compute_vertical_advection WT vol mask (option_map Z.of_nat kmax) = Ok r
    /\ cell_eq (at2 None (values r) i j) (Some 0).
Proof.
  intros HW HV Hm Hz Hi Hj Hout.
  rewrite vertical_advection_core.
  destruct kmax as [k|]; cbn [option_map].
  - rewrite !slice0_nonneg by lia.
    replace (Z.to_nat (Z.of_nat k + 2)) with (k + 2)%nat by lia.
    pose proof (shape3_firstn nz ny nx (k + 2) WT HW) as HW'.
    pose proof (shape3_firstn nz ny nx (k + 2) vol HV) as HV'.
    destruct (Nat.min (k + 2) nz) as [|n] eqn:E; [lia|].
    apply core_outside with (n := n) (ny := ny) (nx := nx);
      try assumption; lia.
  - destruct nz as [|n]; [lia|].
    apply core_outside with (n := n) (ny := ny) (nx := nx);
      try assumption; lia.
Qed.

Lemma shape_3x1x2 (a b c d e f : cell) :
  shape3 3 1 2 [[[a; b]]; [[c; d]]; [[e; f]]].
Proof. split; [reflexivity|]; repeat constructor. Qed.

Lemma shape_1x2 {A} (a b : A) : shape2 1 2 [[a; b]].
Proof. split; [reflexivity|]; repeat constructor. Qed.

Lemma vertical_advection_outside_region_witness :
  (shape3 3 1 2 flux_3x1x2 /\ shape3 3 1 2 vol_3x1x2 /\ shape2 1 2 mask_1x2
   /\ (2 <= 3)%nat /\ (0 < 1)%nat /\ (1 < 2)%nat
   /\ at2 false mask_1x2 0 1 = false)
  /\ exists r,
       _compute_vertical_advection flux_3x1x2 vol_3x1x2 mask_1x2
                                   (option_map Z.of_nat (Some O)) = Ok r
       /\ cell_eq (at2 None (values r) 0 1) (Some 0).
Proof.
  assert (H2 : (2 <= 3)%nat) by lia.
  assert (Hi : (0 < 1)%nat) by lia.
  assert (Hj : (1 < 2)%nat) by lia.
  split;
    [split; [apply shape_3x1x2|split; [apply shape_3x1x2|split;
       [apply shape_1x2|split; [exact H2|split; [exact Hi|split;
          [exact Hj|reflexivity]]]]]]|].
  exact (vertical_advection_outside_region 3 1 2 flux_3x1x2 vol_3x1x2 mask_1x2
           (Some O) 0 1 (shape_3x1x2 _ _ _ _ _ _) (shape_3x1x2 _ _ _ _ _ _)
           (shape_1x2 _ _) H2 Hi Hj eq_refl).
Defined.

(** X13. In a cell of the region whose column has no NaN down to layer
    [kmax + 1], the vertical advection with depth limit [kmax] is the flux
    times volume at layer [kmax + 1] minus the flux times volume at the top
    layer, converted to mol/yr: the layer differences in between cancel. *)
Theorem vertical_advection_inside_region
        (nz ny nx : nat) (WT vol : Field3) (mask : Mask) (kmax i j : nat) :
  shape3 nz ny nx WT -> shape3 nz ny nx vol -> shape2 ny nx mask ->
  (kmax + 2 <= nz)%nat -> (i < ny)%nat -> (j < nx)%nat ->
  at2 false mask i j = true ->
  (forall k, (k < kmax + 2)%nat ->
     at3 None WT k i j <> None /\ at3 None vol k i j <> None) ->
  exists r,
    _compute_vertical_advection WT vol mask (Some (Z.of_nat kmax)) = Ok r
    /\ cell_eq (at2 None (values r) i j)
               (Some ((column_flux WT vol (kmax + 1) i j
                       - column_flux WT vol 0 i j) * NMOLS_TO_MOLYR)).
Proof.
  intros HW HV Hm Hz Hi Hj Hin Hsome.
  rewrite vertical_advection_core.
  rewrite !slice0_nonneg by lia.
  replace (Z.to_nat (Z.of_nat kmax + 2)) with (kmax + 2)%nat by lia.
  pose proof (shape3_firstn nz ny nx (kmax + 2) WT HW) as HW'.
  pose proof (shape3_firstn nz ny nx (kmax + 2) vol HV) as HV'.
  replace (Nat.min (kmax + 2) nz) with (S (kmax + 1)) in HW', HV' by lia.
  destruct (core_inside (kmax + 1) ny nx _ _ mask i j HW' HV' Hm
              ltac:(lia) Hi Hj Hin) as (r & Hr & Hat).
  - intros k Hk; rewrite !at3_firstn by lia; apply Hsome; lia.
  - exists r; split; [exact Hr|].
    unfold column_flux in *; rewrite !at3_firstn in Hat by lia; exact Hat.
Qed.

Lemma vertical_advection_inside_region_witness :
  (shape3 3 1 2 flux_3x1x2 /\ shape3 3 1 2 vol_3x1x2 /\ shape2 1 2 mask_1x2
   /\ (0 + 2 <= 3)%nat /\ (0 < 1)%nat /\ (0 < 2)%nat
   /\ at2 false mask_1x2 0 0 = true
   /\ (forall k, (k < 0 + 2)%nat ->
         at3 None flux_3x1x2 k 0 0 <> None /\ at3 None vol_3x1x2 k 0 0 <> None))
  /\ exists r,
       _compute_vertical_advection flux_3x1x2 vol_3x1x2 mask_1x2 (Some (Z.of_nat 0))
       = Ok r
       /\ cell_eq (at2 None (values r) 0 0)
                  (Some ((column_flux flux_3x1x2 vol_3x1x2 (0 + 1) 0 0
                          - column_flux flux_3x1x2 vol_3x1x2 0 0 0)
                         * NMOLS_TO_MOLYR)).
Proof.
  assert (H2 : (0 + 2 <= 3)%nat) by lia.
  assert (Hi : (0 < 1)%nat) by lia.
  assert (Hj : (0 < 2)%nat) by lia.
  assert (Hs : forall k, (k < 0 + 2)%nat ->
             at3 None flux_3x1x2 k 0 0 <> None /\ at3 None vol_3x1x2 k 0 0 <> None).
  { intros k Hk; destruct k as [|[|k]]; [| |lia]; split; discriminate. }
  split;
    [split; [apply shape_3x1x2|split; [apply shape_3x1x2|split;
       [apply shape_1x2|split; [exact H2|split; [exact Hi|split;
          [exact Hj|split; [reflexivity|exact Hs]]]]]]]|].
  exact (vertical_advection_inside_region 3 1 2 flux_3x1x2 vol_3x1x2 mask_1x2
           0 0 0 (shape_3x1x2 _ _ _ _ _ _) (shape_3x1x2 _ _ _ _ _ _)
           (shape_1x2 _ _) H2 Hi Hj eq_refl Hs).
Defined.

End VerticalAdvectionCells.

(** ** The tendency conversion and the depth of its arguments *)

Module TendencyProofs.
Import Xr XrFacts ArrayFacts Budget Spec Examples.

Lemma align_with_error {A B C} (f : A -> B -> result C) :
  (forall a b e, f a b = Raise e -> e = ValueError align_msg) ->
  forall l1 l2 e, align_with f l1 l2 = Raise e -> e = ValueError align_msg.
Proof.
  intros Hf; induction l1 as [|a l1 IH]; intros [|b l2] e; simpl;
    try (intros H; inversion H; reflexivity); try discriminate.
  destruct (f a b) as [c|e'] eqn:E; simpl.
  - destruct (align_with f l1 l2) as [cs|e''] eqn:E2; simpl; [discriminate|].
    intros H; inversion H; subst; apply (IH _ _ E2).
  - intros H; inversion H; subst; apply (Hf _ _ _ E).
Qed.

Lemma align_with_mismatch {A B C} (f : A -> B -> result C) :
  (forall a b e, f a b = Raise e -> e = ValueError align_msg) ->
  forall l1 l2, List.length l1 <> List.length l2 ->
    align_with f l1 l2 = Raise (ValueError align_msg).
Proof.
  intros Hf; induction l1 as [|a l1 IH]; intros [|b l2] Hlen; simpl in *;
    try reflexivity; try congruence.
  destruct (f a b) as [c|e] eqn:E; simpl.
  - rewrite IH by congruence; reflexivity.
  - rewrite (Hf _ _ _ E); reflexivity.
Qed.

Lemma zip2_error {A B C} (f : A -> B -> C) (a : Array2 A) (b : Array2 B) e :
  zip2 f a b = Raise e -> e = ValueError align_msg.
Proof.
  unfold zip2; apply align_with_error; intros r1 r2 e'.
  apply align_with_error; intros x y e''; discriminate.
Qed.

Lemma zip3_mismatch {A B C} (f : A -> B -> C) (a : Array3 A) (b : Array3 B) :
  List.length a <> List.length b ->
  zip3 f a b = Raise (ValueError align_msg).
Proof.
  unfold zip3; apply align_with_mismatch; intros s1 s2 e; apply zip2_error.
Qed.

(** The number of layers of the cell volume that the conversion multiplies
    by. *)
Definition normalizer_layers (kmax : option nat) (nzv : nat) : nat :=
  match kmax with
  | Some k => Nat.min (k + 1) nzv
  | None => nzv
  end.

(** X14. The tendency conversion by the cell volume succeeds exactly when
    the field has as many layers as the volume, after the volume has been
    truncated to the depth limit: the result then has the shape of the field
    and the unit 'nmol/s'; with any other number of layers the product
    raises the alignment error. *)
Theorem convert_to_tendency_alignment
        (nz nzv ny nx : nat) (ds vol : Field3) (sign : Z) (kmax : option nat) :
  shape3 nz ny nx ds -> shape3 nzv ny nx vol ->
  (nz = normalizer_layers kmax nzv ->
   exists r,
     _convert_to_tendency ds (Vol vol) sign (option_map Z.of_nat kmax) = Ok r
     /\ shape3 nz ny nx (values r)
     /\ attrs r = [("units", "nmol/s")])
  /\ (nz <> normalizer_layers kmax nzv ->
      _convert_to_tendency ds (Vol vol) sign (option_map Z.of_nat kmax)
      = Raise (ValueError align_msg)).
Proof.
  intros Hds Hvol.
  assert (Hnorm : exists v,
             shape3 (normalizer_layers kmax nzv) ny nx v
             /\ _convert_to_tendency ds (Vol vol) sign (option_map Z.of_nat kmax)
                = (prod <- mul3 ds v ;;
                   Ok (mkDA (scale3 (inject_Z sign) prod) [("units", "nmol/s")]))).
  { destruct kmax as [k|]; cbn [option_map normalizer_layers].
    - exists (firstn (k + 1) vol); split.
      + destruct Hvol as [Lv Fv]; split; [rewrite length_firstn; lia|].
        rewrite Forall_forall in *; intros s Hs; apply Fv.
        rewrite <- (firstn_skipn (k + 1) vol); apply in_or_app; left; exact Hs.
      + unfold _convert_to_tendency.
        rewrite slice0_nonneg by lia.
        replace (Z.to_nat (Z.of_nat k + 1)) with (k + 1)%nat by lia.
        reflexivity.
    - exists vol; split; [exact Hvol|reflexivity]. }
  destruct Hnorm as (v & Hv & ->).
  split.
  - intros E; rewrite <- E in Hv.
    unfold mul3; rewrite (zip3_ok cell_mul nz ny nx ds v Hds Hv); cbn [bind].
    eexists; split; [reflexivity|]; cbn [values attrs].
    split; [|reflexivity].
    unfold scale3, scale2.
    pose proof (map2_shape3 cell_mul nz ny nx ds v Hds Hv) as [Lp Fp].
    split; [rewrite length_map; exact Lp|].
    rewrite Forall_forall in *; intros s Hs.
    apply in_map_iff in Hs; destruct Hs as (s0 & <- & H0).
    apply shape2_map with (nx := nx); [|apply Fp, H0].
    intros r Hr; rewrite length_map; exact Hr.
  - intros E; unfold mul3.
    rewrite zip3_mismatch; [reflexivity|].
    destruct Hds as [-> _], Hv as [-> _]; exact E.
Qed.

Lemma convert_to_tendency_alignment_witness :
  (shape3 3 1 2 flux_3x1x2 /\ shape3 3 1 2 vol_3x1x2)
  /\ (3 <> normalizer_layers (Some O) 3)%nat
  /\ _convert_to_tendency flux_3x1x2 (Vol vol_3x1x2) 1 (option_map Z.of_nat (Some O))
     = Raise (ValueError align_msg).
Proof.
  assert (H1 : shape3 3 1 2 flux_3x1x2) by (split; [reflexivity|repeat constructor]).
  assert (H2 : shape3 3 1 2 vol_3x1x2) by (split; [reflexivity|repeat constructor]).
  assert (H3 : (3 <> normalizer_layers (Some O) 3)%nat) by (simpl; lia).
  split; [split; assumption|]; split; [exact H3|].
  exact (proj2 (convert_to_tendency_alignment 3 3 1 2 flux_3x1x2 vol_3x1x2 1
                                              (Some O) H1 H2) H3).
Defined.

End TendencyProofs.

(** ** The depth of the columns *)

Module ColumnDepthProofs.
Import Xr XrFacts ArrayFacts Grid Geometry Spec Examples MoreExamples.

(** The index of a column with [k] layers, for [k] a non-negative [int32]. *)
Definition layer_index (k : Z) : nat := Nat.pred (Z.to_nat k).

Lemma reidx_valid k :
  (0 <= k <= 2147483647)%Z -> reidx k = Z.of_nat (layer_index k).
Proof.
  intros Hk; unfold reidx, int32, layer_index.
  rewrite Z.mod_small by lia.
  destruct (Z.eqb_spec (k - 1 + 2147483648 - 2147483648) (-1)); lia.
Qed.

Lemma depth_cell (z_w : list Q) k :
  (0 < List.length z_w)%nat ->
  (0 <= k <= Z.of_nat (List.length z_w))%Z -> (k <= 2147483647)%Z ->
  item z_w (reidx k) = Ok (nth (layer_index k) z_w 0).
Proof.
  intros Hz Hk Hmax.
  rewrite reidx_valid by lia.
  apply GridProofs.item_ok; unfold layer_index; lia.
Qed.

Lemma cells_Forall {A} (P : A -> Prop) (d : A) ny nx (a : Array2 A) :
  shape2 ny nx a ->
  (forall i j, (i < ny)%nat -> (j < nx)%nat -> P (at2 d a i j)) ->
  Forall (Forall P) a.
Proof.
  intros H Hp.
  apply Forall_forall; intros r Hr.
  destruct (In_nth _ _ [] Hr) as (i & Hi & <-).
  apply Forall_forall; intros x Hx.
  destruct (In_nth _ _ d Hx) as (j & Hj & <-).
  pose proof H as [La _]; rewrite La in Hi.
  rewrite (shape2_row ny nx a i H Hi) in Hj.
  apply (Hp i j Hi Hj).
Qed.

(** A topography whose cells are numbers of layers of the vertical grid. *)
Definition valid_layers (nz : nat) (k : Z) : Prop :=
  (0 <= k <= Z.of_nat nz)%Z /\ (k <= 2147483647)%Z.

Lemma column_depth_ok (z_w : list Q) ny nx (KM : Array2 Z) :
  (0 < List.length z_w)%nat -> shape2 ny nx KM ->
  (forall i j, (i < ny)%nat -> (j < nx)%nat ->
     valid_layers (List.length z_w) (at2 0%Z KM i j)) ->
  column_depth z_w KM
  = Ok (map (map (fun k => nth (layer_index k) z_w 0)) KM).
Proof.
  intros Hz H Hvalid; unfold column_depth.
  apply mapM_ok.
  eapply Forall_impl; [|apply (cells_Forall _ 0%Z ny nx KM H Hvalid)].
  intros r Hr; cbv beta.
  apply mapM_ok.
  eapply Forall_impl; [|exact Hr].
  intros k [Hk Hmax]; cbv beta.
  apply depth_cell; assumption.
Qed.

(** X15. When every cell of the topography is a number of layers between
    zero and the number of layers of the vertical grid (the upper bound is
    the one [get_grid] asserts), the depth of every T column is defined: it
    is the top depth of the deepest layer of the column, so that a column of
    one layer has the depth of a land column, the first value of [z_w]. *)
Theorem column_depth_is_top_of_deepest_layer
        (z_w : list Q) (ny nx : nat) (KMT : Array2 Z) :
  (0 < List.length z_w)%nat -> shape2 ny nx KMT ->
  (forall i j, (i < ny)%nat -> (j < nx)%nat ->
     valid_layers (List.length z_w) (at2 0%Z KMT i j)) ->
  exists ht,
    HT z_w KMT = Ok ht
    /\ shape2 ny nx ht
    /\ forall i j, (i < ny)%nat -> (j < nx)%nat ->
         at2 0 ht i j = nth (layer_index (at2 0%Z KMT i j)) z_w 0
         /\ ((at2 0%Z KMT i j <= 1)%Z -> at2 0 ht i j = nth 0 z_w 0).
Proof.
  intros Hz H Hvalid.
  exists (map (map (fun k => nth (layer_index k) z_w 0)) KMT).
  split; [apply column_depth_ok with (ny := ny) (nx := nx); assumption|].
  split.
  - apply shape2_map with (nx := nx); [|exact H].
    intros r Hr; rewrite length_map; exact Hr.
  - intros i j Hi Hj.
    rewrite VerticalAdvectionCells.at2_map_cells
      with (d := 0%Z) (ny := ny) (nx := nx) by assumption.
    split; [reflexivity|].
    intros Hk; destruct (Hvalid i j Hi Hj) as [[H0 _] _].
    unfold layer_index.
    replace (Nat.pred (Z.to_nat (at2 0%Z KMT i j))) with O by lia.
    reflexivity.
Qed.

Lemma shape_2x3 {A} (a b c d e f : A) : shape2 2 3 [[a; b; c]; [d; e; f]].
Proof. split; [reflexivity|]; repeat constructor. Qed.

Lemma kmt_valid_cells :
  forall i j, (i < 2)%nat -> (j < 3)%nat ->
    valid_layers (List.length (z_w dz_six_layers)) (at2 0%Z kmt_2x3 i j).
Proof.
  intros i j Hi Hj.
  destruct i as [|[|i]]; [| |lia]; destruct j as [|[|[|j]]]; try lia;
    unfold valid_layers; vm_compute; repeat split; discriminate.
Qed.

Lemma column_depth_is_top_of_deepest_layer_witness :
  ((0 < List.length (z_w dz_six_layers))%nat /\ shape2 2 3 kmt_2x3
   /\ (forall i j, (i < 2)%nat -> (j < 3)%nat ->
         valid_layers (List.length (z_w dz_six_layers)) (at2 0%Z kmt_2x3 i j)))
  /\ exists ht,
       HT (z_w dz_six_layers) kmt_2x3 = Ok ht
       /\ shape2 2 3 ht
       /\ forall i j, (i < 2)%nat -> (j < 3)%nat ->
            at2 0 ht i j
            = nth (layer_index (at2 0%Z kmt_2x3 i j)) (z_w dz_six_layers) 0
            /\ ((at2 0%Z kmt_2x3 i j <= 1)%Z ->
                at2 0 ht i j = nth 0 (z_w dz_six_layers) 0).
Proof.
  assert (Hz : (0 < List.length (z_w dz_six_layers))%nat) by (simpl; lia).
  split; [split; [exact Hz|split; [apply shape_2x3|exact kmt_valid_cells]]|].
  exact (column_depth_is_top_of_deepest_layer (z_w dz_six_layers) 2 3 kmt_2x3
           Hz (shape_2x3 _ _ _ _ _ _) kmt_valid_cells).
Defined.

Lemma generate_KMU_shape ny nx (KMT : Array2 Z) :
  shape2 ny nx KMT -> (0 < ny)%nat -> shape2 ny nx (_generate_KMU KMT).
Proof.
  intros H Hy; split.
  - unfold _generate_KMU; rewrite length_map, length_seq; apply H.
  - apply Forall_forall; intros r Hr.
    unfold _generate_KMU in Hr.
    apply in_map_iff in Hr; destruct Hr as (i' & <- & _).
    rewrite length_map, length_seq.
    destruct KMT as [|r KMT]; [destruct H; simpl in *; lia|].
    exact (shape2_row ny nx (r :: KMT) 0 H ltac:(lia)).
Qed.

Lemma edges_increasing (dz : list Q) :
  Forall (fun d => 0 < d) dz -> strictly_increasing (depth_edges dz).
Proof.
  intros Hpos; unfold depth_edges.
  destruct dz as [|x l]; [simpl; auto|].
  inversion Hpos as [|? ? Hx Hl]; subst.
  cbn [cumsum]; split; [exact Hx|].
  apply VerticalGridProofs.cumsum_from_increasing; exact Hl.
Qed.

(** The top depths do not decrease with the layer index. *)
Lemma z_w_monotone (dz : list Q) a b :
  Forall (fun d => 0 < d) dz ->
  (a <= b)%nat -> (b < List.length dz)%nat ->
  nth a (z_w dz) 0 <= nth b (z_w dz) 0.
Proof.
  intros Hpos Hab Hb.
  rewrite !VerticalGridProofs.nth_z_w by lia.
  destruct (Nat.eq_dec a b) as [->|Hne]; [apply Qle_refl|].
  apply Qlt_le_weak.
  assert (Hlen : List.length (0 :: cumsum dz) = S (List.length dz))
    by (cbn [List.length]; rewrite VerticalGridProofs.length_cumsum; reflexivity).
  apply (DepthLimitProofs.strictly_increasing_nth (depth_edges dz)
           (edges_increasing dz Hpos) a b);
    [ apply nth_error_nth'; unfold depth_edges; lia
    | apply nth_error_nth'; unfold depth_edges; lia
    | lia ].
Qed.

(** X16. On a vertical grid of positive thicknesses, the depth of a U
    column is defined whenever the depth of the T columns is, and it is at
    most the depth of each of the four T columns (i, j), (i - 1, j),
    (i, j - 1) and (i - 1, j - 1) that its number of layers is the minimum
    of. *)
Theorem corner_depth_at_most_center_depth
        (dz : list Q) (ny nx : nat) (KMT : Array2 Z) :
  Forall (fun d => 0 < d) dz -> (0 < List.length dz)%nat ->
  shape2 ny nx KMT ->
  (forall i j, (i < ny)%nat -> (j < nx)%nat ->
     valid_layers (List.length dz) (at2 0%Z KMT i j)) ->
  exists ht hu,
    HT (z_w dz) KMT = Ok ht
    /\ HU (z_w dz) KMT = Ok hu
    /\ forall i j, (i < ny)%nat -> (j < nx)%nat ->
         at2 0 hu i j <= at2 0 ht i j
         /\ at2 0 hu i j <= at2 0 ht (prev_wrap ny i) j
         /\ at2 0 hu i j <= at2 0 ht i (prev_wrap nx j)
         /\ at2 0 hu i j <= at2 0 ht (prev_wrap ny i) (prev_wrap nx j).
Proof.
  intros Hpos Hz H Hvalid.
  assert (Lz : List.length (z_w dz) = List.length dz)
    by apply VerticalGridProofs.length_z_w.
  exists (map (map (fun k => nth (layer_index k) (z_w dz) 0)) KMT).
  exists (map (map (fun k => nth (layer_index k) (z_w dz) 0)) (_generate_KMU KMT)).
  split; [apply column_depth_ok with (ny := ny) (nx := nx);
          [lia | exact H | rewrite Lz; exact Hvalid]|].
  destruct (Nat.eq_dec ny 0) as [->|Hy].
  { split; [|intros i j Hi; lia].
    destruct KMT; [reflexivity | destruct H; simpl in *; lia]. }
  assert (HSU : shape2 ny nx (_generate_KMU KMT))
    by (apply generate_KMU_shape; [exact H | lia]).
  assert (HU4 : forall i j, (i < ny)%nat -> (j < nx)%nat ->
            valid_layers (List.length dz) (at2 0%Z (_generate_KMU KMT) i j)
            /\ (at2 0%Z (_generate_KMU KMT) i j <= at2 0%Z KMT i j)%Z
            /\ (at2 0%Z (_generate_KMU KMT) i j
                <= at2 0%Z KMT (prev_wrap ny i) j)%Z
            /\ (at2 0%Z (_generate_KMU KMT) i j
                <= at2 0%Z KMT i (prev_wrap nx j))%Z
            /\ (at2 0%Z (_generate_KMU KMT) i j
                <= at2 0%Z KMT (prev_wrap ny i) (prev_wrap nx j))%Z).
  { intros i j Hi Hj.
    rewrite (GridProofs.generate_KMU_at ny nx KMT i j H Hi Hj); unfold min4.
    pose proof (Hvalid i j Hi Hj) as [V1 V1'].
    pose proof (Hvalid _ j (prev_wrap_in_range ny i Hi) Hj) as [V2 V2'].
    pose proof (Hvalid i _ Hi (prev_wrap_in_range nx j Hj)) as [V3 V3'].
    pose proof (Hvalid _ _ (prev_wrap_in_range ny i Hi)
                       (prev_wrap_in_range nx j Hj)) as [V4 V4'].
    unfold valid_layers; lia. }
  split; [apply column_depth_ok with (ny := ny) (nx := nx);
          [lia | exact HSU | rewrite Lz; intros i j Hi Hj; apply HU4; assumption]|].
  intros i j Hi Hj.
  destruct (HU4 i j Hi Hj) as ([[U0 U1] _] & L1 & L2 & L3 & L4).
  assert (Hle : forall i' j', (i' < ny)%nat -> (j' < nx)%nat ->
            (at2 0%Z (_generate_KMU KMT) i j <= at2 0%Z KMT i' j')%Z ->
            at2 0 (map (map (fun k => nth (layer_index k) (z_w dz) 0))
                       (_generate_KMU KMT)) i j
            <= at2 0 (map (map (fun k => nth (layer_index k) (z_w dz) 0)) KMT)
                   i' j').
  { intros i' j' Hi' Hj' Hmin.
    rewrite !VerticalAdvectionCells.at2_map_cells
      with (d := 0%Z) (ny := ny) (nx := nx) by assumption.
    destruct (Hvalid i' j' Hi' Hj') as [[T0 T1] _].
    apply z_w_monotone; [exact Hpos | unfold layer_index; lia
                         | unfold layer_index; lia]. }
  repeat split; apply Hle; try assumption;
    try (apply prev_wrap_in_range; assumption).
Qed.

Lemma dz_six_layers_positive : Forall (fun d => 0 < d) dz_six_layers.
Proof. repeat constructor. Qed.

Lemma corner_depth_at_most_center_depth_witness :
  (Forall (fun d => 0 < d) dz_six_layers /\ (0 < List.length dz_six_layers)%nat
   /\ shape2 2 3 kmt_2x3
   /\ (forall i j, (i < 2)%nat -> (j < 3)%nat ->
         valid_layers (List.length dz_six_layers) (at2 0%Z kmt_2x3 i j)))
  /\ exists ht hu,
       HT (z_w dz_six_layers) kmt_2x3 = Ok ht
       /\ HU (z_w dz_six_layers) kmt_2x3 = Ok hu
       /\ forall i j, (i < 2)%nat -> (j < 3)%nat ->
            at2 0 hu i j <= at2 0 ht i j
            /\ at2 0 hu i j <= at2 0 ht (prev_wrap 2 i) j
            /\ at2 0 hu i j <= at2 0 ht i (prev_wrap 3 j)
            /\ at2 0 hu i j <= at2 0 ht (prev_wrap 2 i) (prev_wrap 3 j).
Proof.
  assert (Hz : (0 < List.length dz_six_layers)%nat) by (simpl; lia).
  split; [split; [exact dz_six_layers_positive|split;
           [exact Hz|split; [apply shape_2x3|exact kmt_valid_cells]]]|].
  exact (corner_depth_at_most_center_depth dz_six_layers 2 3 kmt_2x3
           dz_six_layers_positive Hz (shape_2x3 _ _ _ _ _ _) kmt_valid_cells).
Defined.

End ColumnDepthProofs.

(** ** The corners of the cells *)

Module CornerProofs.
Import Xr XrFacts ArrayFacts Grid Geometry Spec Examples MoreExamples.

Lemma below_first_value nlon (rows : QArray2) :
  (2 <= List.length rows)%nat ->
  Forall (fun r => List.length r = nlon) rows ->
  below_first rows = Ok (map2 extrapolate (nth 0 rows []) (nth 1 rows [])).
Proof.
  intros Hl Hf; unfold below_first.
  change 0%Z with (Z.of_nat 0); rewrite (GridProofs.item_ok rows 0 []) by lia.
  change 1%Z with (Z.of_nat 1); rewrite (GridProofs.item_ok rows 1 []) by lia.
  cbn [bind].
  apply align_with_pure2.
  rewrite Forall_forall in Hf.
  rewrite (Hf (nth 0 rows [])), (Hf (nth 1 rows []));
    [reflexivity | apply nth_In; lia | apply nth_In; lia].
Qed.

Lemma corner_arrays_value nlat nlon (U : QArray2) :
  shape2 nlat nlon U -> (3 <= nlat)%nat ->
  corner_arrays U
  = Ok (mkCorners
          U (map (roll 1) U)
          (map2 extrapolate (nth 0 (map (roll 1) U) []) (nth 1 (map (roll 1) U) [])
           :: firstn (nlat - 1) (map (roll 1) U))
          (map2 extrapolate (nth 0 U []) (nth 1 U [])
           :: firstn (nlat - 1) U)).
Proof.
  intros H Hn; unfold corner_arrays.
  pose proof H as [La Fa]; rewrite La.
  rewrite !slice0_nonneg by lia.
  replace (Z.to_nat (Z.of_nat nlat - 1)) with (nlat - 1)%nat by lia.
  pose proof (HorizontalProofs.roll_shape2_cols 1 nlat nlon U H) as [Lw Fw].
  rewrite (below_first_value nlon (firstn (nlat - 1) (map (roll 1) U)));
    [ | rewrite length_firstn; lia
      | apply (shape2_firstn nlat nlon (nlat - 1) _ (conj Lw Fw)); lia ].
  cbn [bind].
  rewrite (below_first_value nlon (firstn (nlat - 1) U));
    [ | rewrite length_firstn; lia
      | apply (shape2_firstn nlat nlon (nlat - 1) _ H); lia ].
  cbn [bind].
  rewrite !nth_firstn.
  destruct (Nat.ltb_spec 0 (nlat - 1)); [|lia].
  destruct (Nat.ltb_spec 1 (nlat - 1)); [|lia].
  reflexivity.
Qed.

(** X17. On a coordinate array of at least three rows the corners are
    defined, and cells share them: the NE corner of a cell is its own
    coordinate; its NW corner is the NE corner of the cell to the west, the
    last column being west of the first; from the second row on, the SW and
    SE corners are the NW and NE corners of the cell to the south; and in
    the first row they are extrapolated from the first two rows. *)
Theorem corners_are_shared (nlat nlon : nat) (U : QArray2) :
  shape2 nlat nlon U -> (3 <= nlat)%nat ->
  exists c,
    corner_arrays U = Ok c
    /\ NE c = U
    /\ shape2 nlat nlon (NW c) /\ shape2 nlat nlon (SW c)
    /\ shape2 nlat nlon (SE c)
    /\ forall i j, (i < nlat)%nat -> (j < nlon)%nat ->
         at2 0 (NW c) i j = at2 0 (NE c) i (prev_wrap nlon j)
         /\ ((S i < nlat)%nat ->
             at2 0 (SW c) (S i) j = at2 0 (NW c) i j
             /\ at2 0 (SE c) (S i) j = at2 0 (NE c) i j)
         /\ at2 0 (SW c) 0 j
            = extrapolate (at2 0 (NW c) 0 j) (at2 0 (NW c) 1 j)
         /\ at2 0 (SE c) 0 j
            = extrapolate (at2 0 (NE c) 0 j) (at2 0 (NE c) 1 j).
Proof.
  intros H Hn.
  pose proof (HorizontalProofs.roll_shape2_cols 1 nlat nlon U H) as Hw.
  eexists; split; [exact (corner_arrays_value nlat nlon U H Hn)|].
  cbn [NE NW SW SE].
  split; [reflexivity|].
  split; [exact Hw|].
  assert (Hx : forall a, shape2 nlat nlon a ->
             shape2 nlat nlon (map2 extrapolate (nth 0 a []) (nth 1 a [])
                               :: firstn (nlat - 1) a)).
  { intros a Ha.
    pose proof (shape2_firstn nlat nlon (nlat - 1) a Ha ltac:(lia)) as [Lf Ff].
    split; [cbn [List.length]; lia|].
    constructor; [|exact Ff].
    rewrite length_map2.
    rewrite (shape2_row nlat nlon a 0 Ha), (shape2_row nlat nlon a 1 Ha); lia. }
  split; [apply Hx; exact Hw|].
  split; [apply Hx; exact H|].
  assert (Hx0 : forall a j, shape2 nlat nlon a -> (j < nlon)%nat ->
             at2 0 (map2 extrapolate (nth 0 a []) (nth 1 a [])
                    :: firstn (nlat - 1) a) 0 j
             = extrapolate (at2 0 a 0 j) (at2 0 a 1 j)).
  { intros a j Ha Hj.
    change (at2 0 (?r :: ?t) 0 j) with (nth j r 0).
    apply nth_map2;
      [rewrite (shape2_row nlat nlon a 0 Ha) | rewrite (shape2_row nlat nlon a 1 Ha)];
      lia. }
  intros i j Hi Hj.
  split; [apply HorizontalProofs.at2_roll_cols_forward with (ny := nlat);
          assumption|].
  split.
  - intros HS.
    split; change (at2 0 (?r :: ?t) (S i) j) with (at2 0 t i j);
      apply GridProofs.at2_firstn; lia.
  - split; apply Hx0; assumption.
Qed.

Definition u_3x2 : QArray2 := [[1; 2]; [3; 4]; [5; 6]].

Lemma corners_are_shared_witness :
  (shape2 3 2 u_3x2 /\ (3 <= 3)%nat)
  /\ exists c,
       corner_arrays u_3x2 = Ok c
       /\ NE c = u_3x2
       /\ shape2 3 2 (NW c) /\ shape2 3 2 (SW c) /\ shape2 3 2 (SE c)
       /\ forall i j, (i < 3)%nat -> (j < 2)%nat ->
            at2 0 (NW c) i j = at2 0 (NE c) i (prev_wrap 2 j)
            /\ ((S i < 3)%nat ->
                at2 0 (SW c) (S i) j = at2 0 (NW c) i j
                /\ at2 0 (SE c) (S i) j = at2 0 (NE c) i j)
            /\ at2 0 (SW c) 0 j
               = extrapolate (at2 0 (NW c) 0 j) (at2 0 (NW c) 1 j)
            /\ at2 0 (SE c) 0 j
               = extrapolate (at2 0 (NE c) 0 j) (at2 0 (NE c) 1 j).
Proof.
  assert (H : shape2 3 2 u_3x2) by (split; [reflexivity|repeat constructor]).
  assert (H3 : (3 <= 3)%nat) by lia.
  split; [split; assumption|].
  exact (corners_are_shared 3 2 u_3x2 H H3).
Defined.

(** X18. On a coordinate array of fewer than three rows the corners are
    not defined: the extrapolation of the first row reads the rows 1 and 2,
    and the read raises [IndexError]. *)
Theorem corners_need_three_rows (U : QArray2) :
  (List.length U < 3)%nat ->
  corner_arrays U = Raise (IndexError index_msg).
Proof.
  intros Hl.
  destruct U as [|a [|b [|c U]]]; try reflexivity.
  simpl in Hl; lia.
Qed.

Lemma corners_need_three_rows_witness :
  (List.length [[1; 2]; [3; 4]] < 3)%nat
  /\ corner_arrays [[1; 2]; [3; 4]] = Raise (IndexError index_msg).
Proof.
  assert (H : (List.length [[1; 2]; [3; 4]] < 3)%nat) by (simpl; lia).
  split; [exact H|].
  exact (corners_need_three_rows [[1; 2]; [3; 4]] H).
Defined.

End CornerProofs.

(** ** Cell areas *)

Module AreaProofs.
Import Xr XrFacts ArrayFacts Grid Geometry Spec Parts Examples.

Section Widths.

Variables (nlat nlon : nat) (a : QArray2).
Hypothesis Hshape : shape2 nlat nlon a.
Hypothesis Hlat : (0 < nlat)%nat.
Hypothesis Hlon : (0 < nlon)%nat.

Lemma rows_of_map2 {A B C} (f : A -> B -> C) (P : C -> Prop) l1 l2 :
  (forall x y, In x l1 -> In y l2 -> P (f x y)) -> Forall P (map2 f l1 l2).
Proof.
  revert l2; induction l1 as [|x l1 IH]; intros [|y l2] H; simpl;
    try constructor.
  - apply H; left; reflexivity.
  - apply IH; intros x' y' Hx Hy; apply H; right; assumption.
Qed.

Lemma DXT_shape :
  shape2 nlat nlon (map2 half_sum (nth 0 a []) (nth (nlat - 1) a [])
                    :: lat_pairs a nlat).
Proof.
  destruct (GridProofs.lat_pairs_shape nlat nlon a Hshape) as [Lp Fp].
  split; [cbn [List.length]; lia|].
  constructor; [|exact Fp].
  rewrite length_map2.
  rewrite (shape2_row nlat nlon a 0 Hshape), (shape2_row nlat nlon a (nlat - 1) Hshape);
    lia.
Qed.

Lemma DYU_shape :
  shape2 nlat nlon (lat_pairs a nlat
                    ++ [map2 half_sum (nth (nlat - 1) a []) (nth 0 a [])]).
Proof.
  destruct (GridProofs.lat_pairs_shape nlat nlon a Hshape) as [Lp Fp].
  split; [rewrite length_app; cbn [List.length]; lia|].
  apply Forall_app; split; [exact Fp|].
  constructor; [|constructor].
  rewrite length_map2.
  rewrite (shape2_row nlat nlon a 0 Hshape), (shape2_row nlat nlon a (nlat - 1) Hshape);
    lia.
Qed.

Lemma wrap_column_length p q :
  List.length (map2 half_sum (map (fun r => nth p r 0) a)
                             (map (fun r => nth q r 0) a)) = nlat.
Proof.
  destruct Hshape as [La _]; rewrite length_map2, !length_map; lia.
Qed.

Lemma DYT_shape :
  shape2 nlat nlon
         (map2 cons
               (map2 half_sum (map (fun r => nth (nlon - 1) r 0) a)
                              (map (fun r => nth 0 r 0) a))
               (lon_pairs a nlon)).
Proof.
  destruct (GridProofs.lon_pairs_shape nlat nlon a Hshape) as [Lp Fp].
  split; [rewrite length_map2, wrap_column_length; lia|].
  apply rows_of_map2; intros x r _ Hr.
  rewrite Forall_forall in Fp; cbn [List.length]; rewrite (Fp r Hr); lia.
Qed.

Lemma DXU_shape :
  shape2 nlat nlon
         (map2 (fun r x => r ++ [x])
               (lon_pairs a nlon)
               (map2 half_sum (map (fun r => nth (nlon - 1) r 0) a)
                              (map (fun r => nth 0 r 0) a))).
Proof.
  destruct (GridProofs.lon_pairs_shape nlat nlon a Hshape) as [Lp Fp].
  split; [rewrite length_map2, wrap_column_length; lia|].
  apply rows_of_map2; intros r x Hr _.
  rewrite Forall_forall in Fp.
  rewrite length_app; cbn [List.length]; rewrite (Fp r Hr); lia.
Qed.

End Widths.

Lemma average_positive x y : 0 < x -> 0 < y -> 0 < average x y.
Proof.
  intros Hx Hy; unfold average.
  apply Qlt_shift_div_l; [reflexivity|].
  rewrite Qmult_0_l.
  rewrite <- (Qplus_0_r 0); apply Qplus_lt_le_compat; [exact Hx|].
  apply Qlt_le_weak; exact Hy.
Qed.

(** X19. The areas of the T cells and of the U cells are defined on raw
    widths of shape nlat x nlon; each is the product of the two cell widths
    of its staggering, each width the average of two adjacent raw widths;
    and positive raw widths give positive areas. *)
Theorem cell_areas_positive (nlat nlon : nat) (HTN HTE : QArray2) :
  (0 < nlat)%nat -> (0 < nlon)%nat ->
  shape2 nlat nlon HTN -> shape2 nlat nlon HTE ->
  exists tarea uarea,
    TAREA (Z.of_nat nlat) (Z.of_nat nlon) HTN HTE = Ok tarea
    /\ UAREA (Z.of_nat nlat) (Z.of_nat nlon) HTN HTE = Ok uarea
    /\ shape2 nlat nlon tarea /\ shape2 nlat nlon uarea
    /\ forall i j, (i < nlat)%nat -> (j < nlon)%nat ->
         at2 0 tarea i j
         == average (at2 0 HTN i j) (at2 0 HTN (prev_wrap nlat i) j)
            * average (at2 0 HTE i j) (at2 0 HTE i (prev_wrap nlon j))
         /\ at2 0 uarea i j
            == average (at2 0 HTN i j) (at2 0 HTN i (next_wrap nlon j))
               * average (at2 0 HTE i j) (at2 0 HTE (next_wrap nlat i) j)
         /\ ((forall i' j', (i' < nlat)%nat -> (j' < nlon)%nat ->
                0 < at2 0 HTN i' j' /\ 0 < at2 0 HTE i' j') ->
             0 < at2 0 tarea i j /\ 0 < at2 0 uarea i j).
Proof.
  intros Hlat Hlon HN HE.
  unfold TAREA, UAREA.
  rewrite (GridProofs.DXT_value nlat nlon HTN Hlat HN).
  rewrite (GridProofs.DYT_value nlat nlon HTE Hlon HE).
  rewrite (GridProofs.DXU_value nlat nlon HTN Hlon HN).
  rewrite (GridProofs.DYU_value nlat nlon HTE Hlat HE).
  cbn [bind].
  pose proof (DXT_shape nlat nlon HTN HN Hlat Hlon) as Sxt.
  pose proof (DYT_shape nlat nlon HTE HE Hlat Hlon) as Syt.
  pose proof (DXU_shape nlat nlon HTN HN Hlat Hlon) as Sxu.
  pose proof (DYU_shape nlat nlon HTE HE Hlat Hlon) as Syu.
  fold (lat_pairs HTN nlat) (lat_pairs HTE nlat)
       (lon_pairs HTN nlon) (lon_pairs HTE nlon).
  rewrite (zip2_ok Qmult _ _ (shape2_same_rows nlat nlon _ _ Sxt Syt)).
  rewrite (zip2_ok Qmult _ _ (shape2_same_rows nlat nlon _ _ Sxu Syu)).
  do 2 eexists; split; [reflexivity|]; split; [reflexivity|].
  split; [apply map2_shape2; assumption|].
  split; [apply map2_shape2; assumption|].
  intros i j Hi Hj.
  rewrite !at2_map2 with (d1 := 0) (d2 := 0) (ny := nlat) (nx := nlon)
    by assumption.
  pose proof (GridProofs.DXT_at nlat nlon HTN i j HN Hi Hj) as Ext.
  pose proof (GridProofs.DYT_at nlat nlon HTE i j HE Hi Hj) as Eyt.
  pose proof (GridProofs.DXU_at nlat nlon HTN i j HN Hi Hj) as Exu.
  pose proof (GridProofs.DYU_at nlat nlon HTE i j HE Hi Hj) as Eyu.
  split; [rewrite Ext, Eyt; reflexivity|].
  split; [rewrite Exu, Eyu; reflexivity|].
  intros Hpos.
  assert (HposN : forall i' j', (i' < nlat)%nat -> (j' < nlon)%nat ->
             0 < at2 0 HTN i' j') by (intros; apply Hpos; assumption).
  assert (HposE : forall i' j', (i' < nlat)%nat -> (j' < nlon)%nat ->
             0 < at2 0 HTE i' j') by (intros; apply Hpos; assumption).
  rewrite Ext, Eyt, Exu, Eyu.
  split; apply Qmult_lt_0_compat; apply average_positive;
    try (apply HposN; try assumption);
    try (apply HposE; try assumption);
    try (apply prev_wrap_in_range; assumption);
    try (apply next_wrap_in_range; assumption).
Qed.

Lemma cell_areas_positive_witness :
  ((0 < 2)%nat /\ (0 < 3)%nat /\ shape2 2 3 htn_2x3 /\ shape2 2 3 hte_2x3)
  /\ exists tarea uarea,
       TAREA 2 3 htn_2x3 hte_2x3 = Ok tarea
       /\ UAREA 2 3 htn_2x3 hte_2x3 = Ok uarea.
Proof.
  assert (H2 : (0 < 2)%nat) by lia.
  assert (H3 : (0 < 3)%nat) by lia.
  assert (HN : shape2 2 3 htn_2x3) by (split; [reflexivity|repeat constructor]).
  assert (HE : shape2 2 3 hte_2x3) by (split; [reflexivity|repeat constructor]).
  split; [split; [|split; [|split]]; assumption|].
  destruct (cell_areas_positive 2 3 htn_2x3 hte_2x3 H2 H3 HN HE)
    as (t & u & Ht & Hu & _).
  exists t, u; split; assumption.
Defined.

End AreaProofs.

(** ** The names of the budget terms *)

Module TermNameProofs.
Import Xr XrFacts Terms.

Lemma attrs_get_set_other k k' v (a : Attrs) :
  k <> k' -> attrs_get k (attrs_set k' v a) = attrs_get k a.
Proof.
  intros Hk; induction a as [|[k0 v0] a IH]; cbn [attrs_set attrs_get].
  - destruct (String.eqb_spec k k'); [contradiction|reflexivity].
  - destruct (String.eqb_spec k' k0) as [E|E]; cbn [attrs_get].
    + subst k0.
      destruct (String.eqb_spec k k'); [contradiction|reflexivity].
    + destruct (String.eqb_spec k k0); [reflexivity|exact IH].
Qed.

Lemma attrs_set_keys k k' v (a : Attrs) :
  In k (map fst (attrs_set k' v a)) <-> k = k' \/ In k (map fst a).
Proof.
  induction a as [|[k0 v0] a IH]; cbn [attrs_set map fst In].
  - intuition congruence.
  - destruct (String.eqb_spec k' k0) as [E|E]; cbn [map fst In].
    + subst k0; intuition congruence.
    + rewrite IH; intuition congruence.
Qed.

Lemma attrs_set_NoDup k v (a : Attrs) :
  NoDup (map fst a) -> NoDup (map fst (attrs_set k v a)).
Proof.
  induction a as [|[k0 v0] a IH]; cbn [attrs_set map fst]; intros H.
  - constructor; [intros []|constructor].
  - inversion H as [|? ? Hn Hd]; subst.
    destruct (String.eqb_spec k k0) as [E|E]; cbn [map fst].
    + subst k0; constructor; assumption.
    + constructor; [|apply IH; exact Hd].
      rewrite attrs_set_keys; intros [E'|E']; [congruence|contradiction].
Qed.

Lemma attrs_get_key k (a : Attrs) :
  In k (map fst a) <-> exists v, attrs_get k a = Some v.
Proof.
  induction a as [|[k0 v0] a IH]; cbn [attrs_get map fst In].
  - split; [intros []|intros [v Hv]; discriminate].
  - destruct (String.eqb_spec k k0) as [E|E].
    + split; [intros _; eexists; reflexivity|intros _; left; congruence].
    + rewrite IH; split; [intros [H|H]; [congruence|exact H]|intros H; right; exact H].
Qed.

Lemma is_key_In (d : Attrs) k : is_key d k = true <-> In k (map fst d).
Proof.
  unfold is_key; rewrite attrs_get_key.
  destruct (attrs_get k d) as [v|].
  - split; [intros _; eexists; reflexivity|reflexivity].
  - split; [discriminate|intros [v Hv]; discriminate].
Qed.

Lemma existsb_eqb_In k (l : list string) :
  existsb (String.eqb k) l = true <-> In k l.
Proof.
  rewrite existsb_exists; split.
  - intros (x & Hx & E); apply String.eqb_eq in E; subst; exact Hx.
  - intros H; exists k; split; [exact H|apply String.eqb_refl].
Qed.

(** The dictionary built from the requested names, from any dictionary to
    start with. *)
Lemma loadVars_fold (mv : Attrs) (var_list : list string) :
  (forall v, In v var_list -> In v (map fst mv)) ->
  forall acc : Attrs,
    NoDup (map fst acc) ->
    let d := fold_left (fun d k =>
                          match attrs_get k mv with
                          | Some v => attrs_set k v d
                          | None => d
                          end) var_list acc in
    NoDup (map fst d)
    /\ (forall k, In k (map fst d) <-> In k (map fst acc) \/ In k var_list)
    /\ (forall k, attrs_get k d
                  = if existsb (String.eqb k) var_list
                    then attrs_get k mv else attrs_get k acc).
Proof.
  induction var_list as [|x l IH]; intros Hin acc Hacc; cbn [fold_left existsb].
  - cbv zeta; split; [exact Hacc|]; split;
      [intros k; cbn [In]; tauto|reflexivity].
  - destruct (proj1 (attrs_get_key x mv) (Hin x (or_introl eq_refl)))
      as [v Hv].
    rewrite Hv.
    destruct (IH (fun w Hw => Hin w (or_intror Hw)) (attrs_set x v acc)
                 (attrs_set_NoDup x v acc Hacc)) as (Hd & Hk & Hg).
    cbv zeta in *.
    split; [exact Hd|]; split.
    + intros k; rewrite Hk, attrs_set_keys; cbn [In]; intuition congruence.
    + intros k; rewrite Hg.
      destruct (String.eqb_spec k x) as [E|E]; cbn [orb].
      * subst k; destruct (existsb (String.eqb x) l); [reflexivity|].
        rewrite UnitProofs.attrs_get_set; symmetry; exact Hv.
      * rewrite (attrs_get_set_other k x v acc E); reflexivity.
Qed.

(** X20. When every requested name is one of the budget terms, the names
    are accepted: the dictionary of variables to load has each requested
    name once, nothing else, and gives each name the model variable of the
    table. *)
Theorem requested_terms_loaded (tracer : string) (var_list : list string) :
  (forall v, In v var_list -> In v (map fst (model_vars tracer))) ->
  exists loadVars,
    _load_tracer_terms_names tracer (Some var_list) = LoadVars loadVars
    /\ NoDup (map fst loadVars)
    /\ (forall k, In k (map fst loadVars) <-> In k var_list)
    /\ (forall k, In k var_list ->
          attrs_get k loadVars = attrs_get k (model_vars tracer)).
Proof.
  intros Hin.
  unfold _load_tracer_terms_names; cbv zeta.
  assert (Hall : forallb (is_key (model_vars tracer)) var_list = true).
  { apply forallb_forall; intros v Hv; apply is_key_In, Hin, Hv. }
  rewrite Hall.
  destruct (loadVars_fold (model_vars tracer) var_list Hin [] (NoDup_nil _))
    as (Hd & Hk & Hg); cbv zeta in *.
  exists (loadVars_of (model_vars tracer) var_list).
  split; [reflexivity|]; split; [exact Hd|]; split.
  - intros k; unfold loadVars_of; rewrite Hk; cbn [map In]; tauto.
  - intros k Hkl; unfold loadVars_of; rewrite Hg.
    rewrite (proj2 (existsb_eqb_In k var_list) Hkl); reflexivity.
Qed.

Lemma requested_terms_loaded_witness :
  (forall v, In v ["WT"; "UE"; "WT"]%string ->
             In v (map fst (model_vars "DIC")))
  /\ exists loadVars,
       _load_tracer_terms_names "DIC" (Some ["WT"; "UE"; "WT"]%string)
       = LoadVars loadVars
       /\ NoDup (map fst loadVars).
Proof.
  assert (H : forall v, In v ["WT"; "UE"; "WT"]%string ->
                        In v (map fst (model_vars "DIC"))).
  { intros v [E|[E|[E|[]]]]; subst v; cbn; tauto. }
  split; [exact H|].
  destruct (requested_terms_loaded "DIC" ["WT"; "UE"; "WT"]%string H)
    as (d & Hd & Hn & _).
  exists d; split; assumption.
Defined.

(** X21. A requested name that is no budget term makes the call a
    [ValueError], whatever else is requested; the names the message lists
    are the requested names that are no budget term, in the order
    requested, and the twelve known terms. *)
Theorem unknown_term_rejected (tracer : string) (var_list : list string)
        (v : string) :
  In v var_list -> ~ In v (map fst (model_vars tracer)) ->
  exists mismatched_var,
    _load_tracer_terms_names tracer (Some var_list)
    = NamesValueError mismatched_var
        ["UE"; "VN"; "WT"; "HDIFE"; "HDIFN"; "HDIFB"; "DIA_IMPVF";
         "KPP_SRC"; "FvICE"; "FvPER"; "STF"; "SMS"]%string
    /\ In v mismatched_var
    /\ (forall w, In w mismatched_var
                  <-> In w var_list /\ ~ In w (map fst (model_vars tracer))).
Proof.
  intros Hv Hn.
  unfold _load_tracer_terms_names; cbv zeta.
  assert (Hall : forallb (is_key (model_vars tracer)) var_list = false).
  { destruct (forallb (is_key (model_vars tracer)) var_list) eqn:E;
      [|reflexivity].
    rewrite forallb_forall in E.
    exfalso; apply Hn, is_key_In, E, Hv. }
  rewrite Hall.
  assert (Hmem : forall w,
             In w (filter (fun v0 => negb (is_key (model_vars tracer) v0))
                          var_list)
             <-> In w var_list /\ ~ In w (map fst (model_vars tracer))).
  { intros w; rewrite filter_In, <- is_key_In.
    destruct (is_key (model_vars tracer) w); cbn [negb];
      intuition congruence. }
  eexists; split; [reflexivity|]; split; [|exact Hmem].
  apply Hmem; split; assumption.
Qed.

Lemma unknown_term_rejected_witness :
  (In "TEMP" ["UE"; "TEMP"]%string
   /\ ~ In "TEMP"%string (map fst (model_vars "DIC")))
  /\ exists mismatched_var known,
       _load_tracer_terms_names "DIC" (Some ["UE"; "TEMP"]%string)
       = NamesValueError mismatched_var known.
Proof.
  assert (H1 : In "TEMP"%string ["UE"; "TEMP"]%string)
    by (right; left; reflexivity).
  assert (H2 : ~ In "TEMP"%string (map fst (model_vars "DIC"))).
  { cbn; intros H; repeat (destruct H as [H|H]; [discriminate|]); exact H. }
  split; [split; assumption|].
  destruct (unknown_term_rejected "DIC" ["UE"; "TEMP"]%string "TEMP" H1 H2)
    as (m & Hm & _).
  exists m; eexists; exact Hm.
Defined.

End TermNameProofs.

(** ** The grid is loaded first *)

Module EntryProofs.
Import Xr Budget Entry Examples MoreExamples.

Lemma unknown_grid_msg_differs (grid_name : string) (names : list string) :
  unknown_grid_msg grid_name names <> mask_int_msg.
Proof.
  unfold unknown_grid_msg, mask_int_msg; cbn [String.append]; discriminate.
Qed.

Lemma call_of_loaded {A : Type} (grid_defs : list (string * A))
      (read_grid : A -> result Grid) (name : string) (grid : Grid)
      mask mask_int budget_depth :
  _process_grid_by_name grid_defs read_grid name = Ok grid ->
  regional_tracer_budget_call grid_defs read_grid name mask mask_int budget_depth
  = regional_tracer_budget_setup grid mask mask_int budget_depth.
Proof.
  intros H; unfold regional_tracer_budget_call; rewrite H; reflexivity.
Qed.

(** C3 (amended). Once the grid of the given name is loaded, the call fails
    with the missing-mask-integer error exactly when no classification
    integer is supplied, whether the mask is the default classification or
    supplied by the caller, and the mask used is always the equality test of
    the classification field, default or supplied, against the integer.  A
    grid that is not loaded fails the call with the error of the load
    before the mask and the integer are looked at: for a name that is not
    among the grid definitions this is the unknown-grid error, which is not
    the missing-mask-integer error, with an integer or without. *)
Theorem mask_int_required_once_grid_loaded
        {A : Type} (grid_defs : list (string * A))
        (read_grid : A -> result Grid) (name : string)
        (mask : option (Array2 Z)) (mask_int : option Z)
        (budget_depth : option Q) :
  (forall grid,
      _process_grid_by_name grid_defs read_grid name = Ok grid ->
      (regional_tracer_budget_call grid_defs read_grid name mask mask_int
                                   budget_depth
       = Raise (ValueError mask_int_msg) <-> mask_int = None)
      /\ (forall k m kmax,
            mask_int = Some k ->
            regional_tracer_budget_call grid_defs read_grid name mask mask_int
                                        budget_depth = Ok (m, kmax) ->
            m = map (map (fun v => Z.eqb v k))
                    (match mask with None => grid_mask grid | Some s => s end))
      /\ (forall k,
            regional_tracer_budget_call grid_defs read_grid name mask (Some k)
                                        None
            = Ok (map (map (fun v => Z.eqb v k))
                      (match mask with None => grid_mask grid | Some s => s end),
                  None)))
  /\ (forall e,
        _process_grid_by_name grid_defs read_grid name = Raise e ->
        regional_tracer_budget_call grid_defs read_grid name mask mask_int
                                    budget_depth = Raise e)
  /\ (find (fun d => String.eqb name (fst d)) grid_defs = None ->
      regional_tracer_budget_call grid_defs read_grid name mask mask_int
                                  budget_depth
      = Raise (ValueError (unknown_grid_msg name (map fst grid_defs)))
      /\ regional_tracer_budget_call grid_defs read_grid name mask mask_int
                                     budget_depth
         <> Raise (ValueError mask_int_msg)).
Proof.
  split; [|split].
  - intros grid Hload.
    rewrite !(call_of_loaded grid_defs read_grid name grid) by exact Hload.
    destruct (DepthLimitProofs.setup_requires_mask_int grid mask mask_int
                                                       budget_depth)
      as (Hiff & Hmask & Hfull).
    split; [exact Hiff|]; split; [exact Hmask|].
    intros k; rewrite (call_of_loaded grid_defs read_grid name grid)
      by exact Hload.
    apply Hfull.
  - intros e Hload; unfold regional_tracer_budget_call.
    rewrite Hload; reflexivity.
  - intros Hfind.
    assert (Hcall : regional_tracer_budget_call grid_defs read_grid name mask
                                                mask_int budget_depth
                    = Raise (ValueError
                               (unknown_grid_msg name (map fst grid_defs)))).
    { unfold regional_tracer_budget_call, _process_grid_by_name.
      rewrite Hfind; reflexivity. }
    split; [exact Hcall|].
    rewrite Hcall; intros H.
    apply (unknown_grid_msg_differs name (map fst grid_defs)); congruence.
Qed.

Lemma mask_int_required_once_grid_loaded_witness :
  _process_grid_by_name grid_defs_one (@Ok Grid) "three_layers"
  = Ok grid_three_layers
  /\ regional_tracer_budget_call grid_defs_one (@Ok Grid) "three_layers"
                                 (Some [[0; 1]]%Z) (Some 1%Z) None
     = Ok ([[false; true]], None)
  /\ find (fun d => String.eqb "no_such_grid" (fst d)) grid_defs_one = None
  /\ regional_tracer_budget_call grid_defs_one (@Ok Grid) "no_such_grid"
                                 (Some [[0; 1]]%Z) None None
     <> Raise (ValueError mask_int_msg).
Proof.
  assert (Hload : _process_grid_by_name grid_defs_one (@Ok Grid) "three_layers"
                  = Ok grid_three_layers) by reflexivity.
  assert (Hfind : find (fun d => String.eqb "no_such_grid" (fst d))
                       grid_defs_one = None) by reflexivity.
  split; [exact Hload|]; split; [|split; [exact Hfind|]].
  - destruct (mask_int_required_once_grid_loaded
                grid_defs_one (@Ok Grid) "three_layers"
                (Some [[0; 1]]%Z) (Some 1%Z) None) as (H & _ & _).
    destruct (H grid_three_layers Hload) as (_ & _ & Hfull).
    rewrite Hfull; reflexivity.
  - destruct (mask_int_required_once_grid_loaded
                grid_defs_one (@Ok Grid) "no_such_grid"
                (Some [[0; 1]]%Z) None None) as (_ & _ & H).
    exact (proj2 (H Hfind)).
Defined.

(** C3, as stated, fails when a mask is supplied without an integer on a
    grid that is loaded: the missing-mask-integer error is raised although
    the mask is not the default one. *)
Lemma supplied_mask_without_mask_int_counterexample :
  _process_grid_by_name grid_defs_one (@Ok Grid) "three_layers"
  = Ok grid_three_layers
  /\ ~ (regional_tracer_budget_call grid_defs_one (@Ok Grid) "three_layers"
                                    (Some [[0; 1]]%Z) None None
        = Raise (ValueError mask_int_msg)
        <-> (Some [[0; 1]]%Z = @None (Array2 Z) /\ @None Z = None)).
Proof.
  split; [reflexivity|].
  intros [H _].
  destruct (H eq_refl) as [Hmask _]; discriminate.
Qed.

End EntryProofs.

(** ** The corner points and the cells around them *)

Module StaggeringProofs.
Import Xr XrFacts ArrayFacts Grid Spec Staggering MoreExamples.

(** What [_generate_KMU] computes in terms of the staggering: from the
    second row on, the value at (i, j) is the least number of layers around
    the corner point (i - 1, j - 1), one row and one column before. *)
Lemma KMU_is_of_previous_corner (nlat nlon : nat) (KMT : Array2 Z) (i j : nat) :
  shape2 nlat nlon KMT -> (S i < nlat)%nat -> (j < nlon)%nat ->
  at2 0%Z (_generate_KMU KMT) (S i) j
  = shallowest_bounding KMT nlon i (prev_wrap nlon j).
Proof.
  intros H Hi Hj.
  rewrite (GridProofs.generate_KMU_at nlat nlon KMT (S i) j H Hi Hj).
  unfold shallowest_bounding.
  rewrite (next_prev_wrap nlon j Hj).
  replace (prev_wrap nlat (S i)) with i by (unfold prev_wrap; reflexivity).
  unfold min4; lia.
Qed.

(** C6. On the 3 x 3 topography [kmt_3x3], all of five layers but for the
    cell (2, 1) of one layer, [_generate_KMU] gives the corner point (1, 1)
    five layers.  The cell (2, 1) is one of the four cells that bound this
    corner point, and the least number of layers among the four is one: the
    corner-point index is not the minimum over the bounding cells and
    exceeds one of them.  The value is the minimum of the cells (1, 1),
    (0, 1), (1, 0) and (0, 0), which bound the corner point (0, 0). *)
Theorem KMU_exceeds_bounding_cell :
  at2 0%Z (_generate_KMU kmt_3x3) 1 1 = 5%Z
  /\ In (2, 1)%nat (bounding_T_cells 3 1 1)
  /\ at2 0%Z kmt_3x3 2 1 = 1%Z
  /\ shallowest_bounding kmt_3x3 3 1 1 = 1%Z
  /\ ~ (at2 0%Z (_generate_KMU kmt_3x3) 1 1 <= at2 0%Z kmt_3x3 2 1)%Z
  /\ at2 0%Z (_generate_KMU kmt_3x3) 1 1 = shallowest_bounding kmt_3x3 3 0 0.
Proof.
  split; [reflexivity|].
  split; [right; right; left; reflexivity|].
  split; [reflexivity|].
  split; [reflexivity|].
  split; [|reflexivity].
  vm_compute; intros H; apply H; reflexivity.
Qed.

End StaggeringProofs.
